(** * easy-template-x: the XmlNode tree model ([src/xmlNode.ts])

    A shallow embedding of the [XmlNode] namespace.  JavaScript objects live
    in a store ([Heap]); a node reference is the address of its object, so
    that object identity ([===]), aliasing and in-place mutation are the
    ones of the source.  Functions that mutate are written in a state and
    exception monad over the store; loops and recursion over the store take
    fuel; [fromDomNode] recurses on the host tree it reads. *)

From Stdlib Require Import ZArith String Ascii List Lia.
From stdpp Require Import base option list strings.

Open Scope string_scope.
Open Scope list_scope.
Open Scope Z_scope.

(** ** Data model *)

Inductive XmlNodeType : Type := Text | General.

#[global] Instance XmlNodeType_eq_dec : EqDecision XmlNodeType.
Proof. solve_decision. Defined.

(** Object identity of a node. *)
Abbreviation ref := nat (only parsing).

(** The values the [textContent] slot and the argument of [encodeValue] can
    hold at run time (the static type says [string], the code tests for the
    others). *)
Inductive JsValue : Type :=
| VUndefined
| VNull
| VString (s : string)
| VNumber (z : Z)
| VBoolean (b : bool).

Record XmlAttribute : Type := mkAttr { name : string; value : string }.

(** One node object.  An optional link that is [null] or [undefined] is
    [None]: the source only tests such links for truthiness or compares them
    with node references.  [childNodes] is the node's own array; the
    functions of this module never share one array between two nodes. *)
Record XmlNode : Type := mkNode {
  nodeType : XmlNodeType;
  nodeName : string;
  textContent : JsValue;
  attributes : option (list XmlAttribute);
  parentNode : option ref;
  childNodes : option (list ref);
  nextSibling : option ref
}.

Definition set_parentNode (v : option ref) (n : XmlNode) : XmlNode :=
  mkNode (nodeType n) (nodeName n) (textContent n) (attributes n)
         v (childNodes n) (nextSibling n).

Definition set_childNodes (v : option (list ref)) (n : XmlNode) : XmlNode :=
  mkNode (nodeType n) (nodeName n) (textContent n) (attributes n)
         (parentNode n) v (nextSibling n).

Definition set_nextSibling (v : option ref) (n : XmlNode) : XmlNode :=
  mkNode (nodeType n) (nodeName n) (textContent n) (attributes n)
         (parentNode n) (childNodes n) v.

Definition set_textContent (v : JsValue) (n : XmlNode) : XmlNode :=
  mkNode (nodeType n) (nodeName n) v (attributes n)
         (parentNode n) (childNodes n) (nextSibling n).

Definition set_attributes (v : option (list XmlAttribute)) (n : XmlNode) : XmlNode :=
  mkNode (nodeType n) (nodeName n) (textContent n) v
         (parentNode n) (childNodes n) (nextSibling n).

(** The object store: address [r] holds the [r]-th allocated object. *)
Abbreviation Heap := (list XmlNode).

(** ** Errors and outcomes *)

(** [MissingArgumentError] is the class of [./errors]; the others are the
    built-in ones.  [RangeError] keeps the two numbers of its message. *)
Inductive error : Type :=
| MissingArgumentError (argName : string)
| TypeError (msg : string)
| RangeError (childIndex : Z) (childCount : nat)
| Error (msg : string)
| NativeTypeError.   (* property access on [null] / [undefined] *)

Inductive outcome (A : Type) : Type :=
| Ok (a : A)
| Throw (e : error)
| OutOfFuel
| Stuck.             (* an address that was never allocated: not a JS state *)

Arguments Ok {A} a.
Arguments Throw {A} e.
Arguments OutOfFuel {A}.
Arguments Stuck {A}.

(** Read-only computations. *)
Definition obind {A B} (m : outcome A) (k : A -> outcome B) : outcome B :=
  match m with
  | Ok a => k a
  | Throw e => Throw e
  | OutOfFuel => OutOfFuel
  | Stuck => Stuck
  end.

(** Mutating computations: the store is threaded through, and the store at
    the point of a throw is kept. *)
Definition M (A : Type) : Type := Heap -> outcome A * Heap.

Definition ret {A} (a : A) : M A := fun h => (Ok a, h).

Definition bind {A B} (m : M A) (k : A -> M B) : M B :=
  fun h => match m h with
           | (Ok a, h') => k a h'
           | (Throw e, h') => (Throw e, h')
           | (OutOfFuel, h') => (OutOfFuel, h')
           | (Stuck, h') => (Stuck, h')
           end.

Definition throw {A} (e : error) : M A := fun h => (Throw e, h).
Definition out_of_fuel {A} : M A := fun h => (OutOfFuel, h).
Definition lift {A} (o : outcome A) : M A := fun h => (o, h).

Notation "x <- m ;; k" := (bind m (fun x => k))
  (at level 62, m at next level, right associativity, only parsing).
Notation "m ;;; k" := (bind m (fun _ => k))
  (at level 62, right associativity, only parsing).

Definition get_node (r : ref) : M XmlNode :=
  fun h => match h !! r with
           | Some n => (Ok n, h)
           | None => (Stuck, h)
           end.

(** [r.field = v]: a write to one field of the object at [r]. *)
Definition update (r : ref) (f : XmlNode -> XmlNode) : M unit :=
  fun h => match h !! r with
           | Some _ => (Ok tt, alter f r h)
           | None => (Stuck, h)
           end.

(** A new object; its address is fresh. *)
Definition alloc (n : XmlNode) : M ref :=
  fun h => (Ok (length h), h ++ [n]).

(** ** Arrays *)

(** [arr[i]] for an integer [i]: [undefined] out of range. *)
Definition nthZ {A} (l : list A) (i : Z) : option A :=
  if i <? 0 then None else l !! Z.to_nat i.

(** [arr.indexOf(x)]. *)
Fixpoint indexOf (l : list ref) (x : ref) : Z :=
  match l with
  | [] => -1
  | y :: l' =>
      if Nat.eqb y x then 0
      else let i := indexOf l' x in if i <? 0 then -1 else i + 1
  end.

(** [arr.splice(start, deleteCount, ...items)]: the removed elements and the
    array afterwards.  A negative [start] counts from the end. *)
Definition splice_start (len : nat) (start : Z) : nat :=
  if start <? 0 then Z.to_nat (Z.max (Z.of_nat len + start) 0)
  else Nat.min (Z.to_nat start) len.

Definition splice {A} (start : Z) (deleteCount : nat) (items l : list A)
  : list A * list A :=
  let s := splice_start (length l) start in
  (take deleteCount (drop s l), take s l ++ items ++ drop (s + deleteCount) l).

(** Modelled from the spec: [last] of [./utils] is not among the sources.
    Section 4.4 has [splitByChild] remove "the marker's own top-level
    ancestor" with it once the later children are gone, and section 4.7 has
    [lastTextChild] return "the last one" with it: the last element of the
    array, [undefined] for an empty one. *)
Definition last_elem {A} (l : list A) : option A := last l.

(** ** Constants and factories *)

Definition TEXT_NODE_NAME : string := "#text".

Definition createTextNode (text : JsValue) : M ref :=
  alloc (mkNode Text TEXT_NODE_NAME text None None None None).

Definition createGeneralNode (nm : string) : M ref :=
  alloc (mkNode General nm VUndefined None None None None).

(** ** Serialization *)

Definition dquote : ascii := ascii_of_nat 34.

Definition encodeChar (c : ascii) : string :=
  if Ascii.eqb c "<" then "&lt;"
  else if Ascii.eqb c ">" then "&gt;"
  else if Ascii.eqb c "&" then "&amp;"
  else if Ascii.eqb c "'" then "&apos;"
  else if Ascii.eqb c dquote then "&quot;"
  else String c EmptyString.

Fixpoint replaceSpecial (s : string) : string :=
  match s with
  | EmptyString => EmptyString
  | String c rest => encodeChar c +:+ replaceSpecial rest
  end.

Definition constructorName (v : JsValue) : string :=
  match v with
  | VNumber _ => "Number"
  | VBoolean _ => "Boolean"
  | VString _ => "String"
  | VUndefined | VNull => EmptyString
  end.

Definition encodeValue (str : JsValue) : outcome string :=
  match str with
  | VNull | VUndefined => Throw (MissingArgumentError "str")
  | VString s => Ok (replaceSpecial s)
  | v => Throw (TypeError ("Expected a string, got '" +:+ constructorName v +:+ "'."))
  end.

(** The string value of an [XmlNodeType]. *)
Definition typeName (t : XmlNodeType) : string :=
  match t with
  | Text => "Text"
  | General => "General"
  end.

Definition isTextNode (node : XmlNode) : outcome bool :=
  if bool_decide (nodeType node = Text) || bool_decide (nodeName node = TEXT_NODE_NAME) then
    if negb (bool_decide (nodeType node = Text) && bool_decide (nodeName node = TEXT_NODE_NAME))
    then Throw (Error ("Invalid text node. Type: '" +:+ typeName (nodeType node)
                       +:+ "', Name: '" +:+ nodeName node +:+ "'."))
    else Ok true
  else Ok false.

Definition serializeAttribute (attr : XmlAttribute) : string :=
  name attr +:+ "=" +:+ String dquote (value attr) +:+ String dquote EmptyString.

Fixpoint join (sep : string) (l : list string) : string :=
  match l with
  | [] => EmptyString
  | [x] => x
  | x :: rest => x +:+ sep +:+ join sep rest
  end.

(** [arr.map(f)] for an [f] that may throw: left to right, the first throw
    propagates. *)
Fixpoint mapO {A B} (f : A -> outcome B) (l : list A) : outcome (list B) :=
  match l with
  | [] => Ok []
  | x :: rest => obind (f x) (fun y => obind (mapO f rest) (fun ys => Ok (y :: ys)))
  end.

(** [s || ''] on a string. *)
Definition orEmpty (s : string) : string :=
  match s with
  | EmptyString => EmptyString
  | _ => s
  end.

Fixpoint serialize (fuel : nat) (h : Heap) (r : ref) : outcome string :=
  match fuel with
  | O => OutOfFuel
  | S fuel' =>
      match h !! r with
      | None => Stuck
      | Some node =>
          obind (isTextNode node) (fun isText =>
          if isText then
            (* encodeValue(node.textContent) || '' *)
            obind (encodeValue (textContent node)) (fun s => Ok (orEmpty s))
          else
            let attrs :=
              match attributes node with
              | Some (a :: al) => " " +:+ join " " (map serializeAttribute (a :: al))
              | _ => EmptyString
              end in
            let children := default [] (childNodes node) in
            let hasChildren := negb (Nat.eqb (length children) 0) in
            let suffix := if hasChildren then EmptyString else "/" in
            let openTag := "<" +:+ nodeName node +:+ attrs +:+ suffix +:+ ">" in
            if hasChildren then
              obind (mapO (serialize fuel' h) children) (fun xs =>
              let closeTag := "</" +:+ nodeName node +:+ ">" in
              Ok (openTag +:+ join EmptyString xs +:+ closeTag))
            else Ok openTag)
      end
  end.

(** ** Core functions *)

(** [parent.childNodes] where the source dereferences it unguarded. *)
Definition read_childNodes (r : ref) : M (list ref) :=
  n <- get_node r ;;
  match childNodes n with
  | Some cs => ret cs
  | None => throw NativeTypeError
  end.

(** [if (!parent.childNodes) parent.childNodes = [];] *)
Definition ensure_childNodes (parent : ref) : M unit :=
  n <- get_node parent ;;
  match childNodes n with
  | Some _ => ret tt
  | None => update parent (set_childNodes (Some []))
  end.

(** [r.childNodes.push(c)] *)
Definition push_child (r c : ref) : M unit :=
  cs <- read_childNodes r ;;
  update r (set_childNodes (Some (cs ++ [c]))).

Definition clone_text_or_attributes (isText : bool) (o : XmlNode) (n : XmlNode) : XmlNode :=
  if isText then set_textContent (textContent o) n
  else match attributes o with
       | Some al => set_attributes (Some (map (fun a => mkAttr (name a) (value a)) al)) n
       | None => n
       end.

(** The loop over [original.childNodes] in [cloneNodeDeep]; its body only
    writes to objects allocated by the call, so the array it walks is the
    one read on entry. *)
Fixpoint cloneChildren (rec : ref -> M ref) (clone : ref) (prevChildClone : option ref)
    (children : list ref) : M unit :=
  match children with
  | [] => ret tt
  | child :: rest =>
      childClone <- rec child ;;
      push_child clone childClone ;;;
      update childClone (set_parentNode (Some clone)) ;;;
      match prevChildClone with
      | Some prev => update prev (set_nextSibling (Some childClone))
      | None => ret tt
      end ;;;
      cloneChildren rec clone (Some childClone) rest
  end.

Fixpoint cloneNodeDeep (fuel : nat) (original : ref) : M ref :=
  match fuel with
  | O => out_of_fuel
  | S fuel' =>
      o <- get_node original ;;
      clone <- alloc (mkNode (nodeType o) (nodeName o) VUndefined None None None None) ;;
      isText <- lift (isTextNode o) ;;
      update clone (clone_text_or_attributes isText o) ;;;
      match childNodes o with
      | Some children =>
          update clone (set_childNodes (Some [])) ;;;
          cloneChildren (cloneNodeDeep fuel') clone None children
      | None => ret tt
      end ;;;
      ret clone
  end.

Definition cloneNode (fuel : nat) (node : option ref) (deep : bool) : M ref :=
  match node with
  | None => throw (MissingArgumentError "node")
  | Some r =>
      if negb deep then
        n <- get_node r ;;
        clone <- alloc n ;;
        update clone (set_parentNode None) ;;;
        update clone (set_childNodes None) ;;;
        update clone (set_nextSibling None) ;;;
        ret clone
      else
        clone <- cloneNodeDeep fuel r ;;
        update clone (set_parentNode None) ;;;
        ret clone
  end.

Definition appendChild (parent child : option ref) : M unit :=
  match parent with
  | None => throw (MissingArgumentError "parent")
  | Some p =>
      pn <- get_node p ;;
      isText <- lift (isTextNode pn) ;;
      if isText then throw (Error "Appending children to text nodes is forbidden")
      else
        match child with
        | None => throw (MissingArgumentError "child")
        | Some c =>
            ensure_childNodes p ;;;
            cs <- read_childNodes p ;;
            match last_elem cs with
            | Some currentLastChild => update currentLastChild (set_nextSibling (Some c))
            | None => ret tt
            end ;;;
            update c (set_nextSibling None) ;;;
            update c (set_parentNode (Some p)) ;;;
            push_child p c
        end
  end.

Definition insertChild (parent child : option ref) (childIndex : Z) : M unit :=
  match parent with
  | None => throw (MissingArgumentError "parent")
  | Some p =>
      pn <- get_node p ;;
      isText <- lift (isTextNode pn) ;;
      if isText then throw (Error "Appending children to text nodes is forbidden")
      else
        match child with
        | None => throw (MissingArgumentError "child")
        | Some c =>
            ensure_childNodes p ;;;
            cs <- read_childNodes p ;;
            if childIndex =? Z.of_nat (length cs) then appendChild parent child
            else if childIndex >? Z.of_nat (length cs)
            then throw (RangeError childIndex (length cs))
            else
              update c (set_parentNode (Some p)) ;;;
              update c (set_nextSibling (nthZ cs childIndex)) ;;;
              (if childIndex >? 0 then
                 match nthZ cs (childIndex - 1) with
                 | Some childBefore => update childBefore (set_nextSibling (Some c))
                 | None => throw NativeTypeError
                 end
               else ret tt) ;;;
              cs' <- read_childNodes p ;;
              update p (set_childNodes (Some (snd (splice childIndex 0 [c] cs'))))
        end
  end.

(** The second argument of [removeChild]: a node or a numeric index. *)
Inductive ChildOrIndex : Type :=
| ByNode (child : ref)
| ByIndex (childIndex : Z).

Definition removeChild (parent : option ref) (childOrIndex : option ChildOrIndex)
  : M (option ref) :=
  match parent with
  | None => throw (MissingArgumentError "parent")
  | Some p =>
      match childOrIndex with
      | None => throw (MissingArgumentError "childOrIndex")
      | Some sel =>
          pn <- get_node p ;;
          match childNodes pn with
          | None | Some [] => throw (Error "Parent node has node children")
          | Some cs =>
              childIndex <-
                match sel with
                | ByIndex i => ret i
                | ByNode c =>
                    let i := indexOf cs c in
                    if i =? -1
                    then throw (Error "Specified child node is not a child of the specified parent")
                    else ret i
                end ;;
              if childIndex >=? Z.of_nat (length cs)
              then throw (RangeError childIndex (length cs))
              else
                let child := nthZ cs childIndex in
                (if childIndex >? 0 then
                   match nthZ cs (childIndex - 1), child with
                   | Some beforeChild, Some c =>
                       cn <- get_node c ;;
                       update beforeChild (set_nextSibling (nextSibling cn))
                   | _, _ => throw NativeTypeError
                   end
                 else ret tt) ;;;
                match child with
                | None => throw NativeTypeError
                | Some c =>
                    update c (set_parentNode None) ;;;
                    update c (set_nextSibling None) ;;;
                    cs' <- read_childNodes p ;;
                    let '(removed, rest) := splice childIndex 1 [] cs' in
                    update p (set_childNodes (Some rest)) ;;;
                    ret (head removed)
                end
          end
      end
  end.

Definition remove (node : option ref) : M unit :=
  match node with
  | None => throw (MissingArgumentError "node")
  | Some r =>
      n <- get_node r ;;
      match parentNode n with
      | None => throw (Error "Node has no parent")
      | Some p => removeChild (Some p) (Some (ByNode r)) ;;; ret tt
      end
  end.

(** ** Utility functions *)

Fixpoint removeSiblings_loop (fuel : nat) (from to : option ref) (removed : list ref)
  : M (list ref) :=
  if bool_decide (from = to) then ret removed
  else
    match fuel with
    | O => out_of_fuel
    | S fuel' =>
        match from with
        | None => throw NativeTypeError
        | Some removeMe =>
            n <- get_node removeMe ;;
            remove (Some removeMe) ;;;
            removeSiblings_loop fuel' (nextSibling n) to (removed ++ [removeMe])
        end
    end.

Definition removeSiblings (fuel : nat) (from to : option ref) : M (list ref) :=
  if bool_decide (from = to) then ret []
  else
    match from with
    | None => throw NativeTypeError
    | Some f =>
        n <- get_node f ;;
        removeSiblings_loop fuel (nextSibling n) to []
    end.

(** ** Private functions *)

Fixpoint getDescendantPath_loop (fuel : nat) (root node : ref) (path : list Z)
  : M (list Z) :=
  if Nat.eqb node root then ret path
  else
    match fuel with
    | O => out_of_fuel
    | S fuel' =>
        n <- get_node node ;;
        match parentNode n with
        | None => throw (Error "Argument descendant is not a descendant of root")
        | Some parent =>
            cs <- read_childNodes parent ;;
            getDescendantPath_loop fuel' root parent (path ++ [indexOf cs node])
        end
    end.

Definition getDescendantPath (fuel : nat) (root descendant : ref) : M (list Z) :=
  path <- getDescendantPath_loop fuel root descendant [] ;;
  ret (rev path).

(** ** Structural splitting *)

(** [while (childIndex < root.childNodes.length) { ... }]; [childIndex] is
    [None] when [path[0] + 1] is [NaN] (empty path). *)
Fixpoint splitAfter_loop (fuel : nat) (root clone : ref) (childIndex : option Z) : M unit :=
  cs <- read_childNodes root ;;
  match childIndex with
  | Some i =>
      if i <? Z.of_nat (length cs) then
        match fuel with
        | O => out_of_fuel
        | S fuel' =>
            let curChild := nthZ cs i in
            remove curChild ;;;
            appendChild (Some clone) curChild ;;;
            splitAfter_loop fuel' root clone childIndex
        end
      else ret tt
  | None => ret tt
  end.

(** [do { ... } while (curChild !== stopChild)] *)
Fixpoint splitBefore_loop (fuel : nat) (root clone : ref) (stopChild : option ref) : M unit :=
  match fuel with
  | O => out_of_fuel
  | S fuel' =>
      cs <- read_childNodes root ;;
      let curChild := nthZ cs 0 in
      remove curChild ;;;
      appendChild (Some clone) curChild ;;;
      if bool_decide (curChild = stopChild) then ret tt
      else splitBefore_loop fuel' root clone stopChild
  end.

Definition splitByChild (fuel : nat) (root markerNode : ref)
    (afterMarker removeMarkerNode : bool) : M ref :=
  path <- getDescendantPath fuel root markerNode ;;
  clone <- cloneNode fuel (Some root) false ;;
  let childIndex := option_map (fun p0 => p0 + (if afterMarker then 1 else -1)) (head path) in
  (if afterMarker then
     splitAfter_loop fuel root clone childIndex ;;;
     if removeMarkerNode then
       cs <- read_childNodes root ;;
       remove (last_elem cs)
     else ret tt
   else
     cs <- read_childNodes root ;;
     let stopChild := from_option (nthZ cs) None childIndex in
     splitBefore_loop fuel root clone stopChild ;;;
     if removeMarkerNode then
       cs' <- read_childNodes root ;;
       remove (nthZ cs' 0)
     else ret tt) ;;;
  ret clone.

(** ** insertBefore and lastTextChild *)

Definition insertBefore (newNode referenceNode : option ref) : M unit :=
  match newNode with
  | None => throw (MissingArgumentError "newNode")
  | Some _ =>
      match referenceNode with
      | None => throw (MissingArgumentError "referenceNode")
      | Some r =>
          rn <- get_node r ;;
          match parentNode rn with
          | None => throw (Error "'referenceNode' has no parent")
          | Some p =>
              cs <- read_childNodes p ;;
              insertChild (Some p) newNode (indexOf cs r)
          end
      end
  end.

(** [!v] on a value. *)
Definition falsy (v : JsValue) : bool :=
  match v with
  | VUndefined | VNull => true
  | VString s => bool_decide (s = EmptyString)
  | VNumber z => z =? 0
  | VBoolean b => negb b
  end.

(** [arr.filter(child => isTextNode(child))]: left to right, the first
    throw of [isTextNode] propagates. *)
Fixpoint filterTextNodes (h : Heap) (l : list ref) : outcome (list ref) :=
  match l with
  | [] => Ok []
  | child :: rest =>
      match h !! child with
      | None => Stuck
      | Some n =>
          obind (isTextNode n) (fun isText =>
          obind (filterTextNodes h rest) (fun found =>
          Ok (if isText then child :: found else found)))
      end
  end.

Definition lastTextChild (node : ref) : M ref :=
  n <- get_node node ;;
  isText <- lift (isTextNode n) ;;
  if isText then ret node
  else
    existing <-
      match childNodes n with
      | Some cs =>
          allTextNodes <- (fun h => (filterTextNodes h cs, h)) ;;
          if Nat.eqb (length allTextNodes) 0 then ret None
          else
            match last_elem allTextNodes with
            | None => throw NativeTypeError
            | Some lastTextNode =>
                tn <- get_node lastTextNode ;;
                (if falsy (textContent tn)
                 then update lastTextNode (set_textContent (VString EmptyString))
                 else ret tt) ;;;
                ret (Some lastTextNode)
            end
      | None => ret None
      end ;;
    match existing with
    | Some lastTextNode => ret lastTextNode
    | None =>
        newTextNode <- alloc (mkNode Text TEXT_NODE_NAME (VString EmptyString)
                                     None None None None) ;;
        appendChild (Some node) (Some newTextNode) ;;;
        ret newTextNode
    end.

(** ** Import of a host DOM tree *)

#[local] Set Warnings "-register-all".

(** The host node as [fromDomNode] reads it: [nodeType], [nodeName],
    [textContent], the attribute collection (absent, or its name and value
    pairs in [item] order) and the child collection (absent, or the children
    in [item] order).  The host tree is only read. *)
Inductive DomNode : Type :=
| DomNodeOf (domNodeType : Z) (domNodeName : string) (domTextContent : JsValue)
            (domAttributes : option (list XmlAttribute))
            (domChildNodes : option (list DomNode)).

(** The host's [Node.TEXT_NODE] and [Node.ELEMENT_NODE]. *)
Definition TEXT_NODE : Z := 3.
Definition ELEMENT_NODE : Z := 1.

(** [for (i ...) xmlNode.attributes.push({ name, value })] *)
Fixpoint pushAttributes (xmlNode : ref) (attrs : list XmlAttribute) : M unit :=
  match attrs with
  | [] => ret tt
  | curAttribute :: rest =>
      n <- get_node xmlNode ;;
      match attributes n with
      | None => throw NativeTypeError
      | Some al =>
          update xmlNode
            (set_attributes (Some (al ++ [mkAttr (name curAttribute) (value curAttribute)])))
      end ;;;
      pushAttributes xmlNode rest
  end.

(** The loop over [domNode.childNodes] in [fromDomNode]. *)
Fixpoint importChildren {A : Type} (rec : A -> M ref) (xmlNode : ref)
    (prevChild : option ref) (children : list A) : M unit :=
  match children with
  | [] => ret tt
  | domChild :: rest =>
      curChild <- rec domChild ;;
      push_child xmlNode curChild ;;;
      update curChild (set_parentNode (Some xmlNode)) ;;;
      match prevChild with
      | Some prev => update prev (set_nextSibling (Some curChild))
      | None => ret tt
      end ;;;
      importChildren rec xmlNode (Some curChild) rest
  end.

Fixpoint fromDomNode (domNode : DomNode) : M ref :=
  match domNode with
  | DomNodeOf ty nm text attrs children =>
      xmlNode <-
        (if ty =? TEXT_NODE then createTextNode text
         else
           g <- createGeneralNode nm ;;
           (if ty =? ELEMENT_NODE then
              match attrs with
              | Some al =>
                  update g (set_attributes (Some [])) ;;;
                  pushAttributes g al
              | None => ret tt
              end
            else ret tt) ;;;
           ret g) ;;
      match children with
      | Some cs =>
          update xmlNode (set_childNodes (Some [])) ;;;
          importChildren fromDomNode xmlNode None cs
      | None => ret tt
      end ;;;
      ret xmlNode
  end.

(** ** Concrete trees for the examples *)

(** The store after building [<p>a<b>x</b>c</p>]:
    0 = p, 1 = text a, 2 = b, 3 = text x, 4 = text c. *)
Definition build_sample : M unit :=
  p <- createGeneralNode "p" ;;
  a <- createTextNode (VString "a") ;;
  b <- createGeneralNode "b" ;;
  x <- createTextNode (VString "x") ;;
  c <- createTextNode (VString "c") ;;
  appendChild (Some b) (Some x) ;;;
  appendChild (Some p) (Some a) ;;;
  appendChild (Some p) (Some b) ;;;
  appendChild (Some p) (Some c).

Definition sample_heap : Heap := snd (build_sample []).

(** * Specification vocabulary *)

(** ** Views of the store

    What the tree operations read and write of an object: its child
    sequence, its two links, and the rest (type, name, content,
    attributes), which no tree operation writes. *)

Definition childrenOf (h : Heap) (r : ref) : option (list ref) := h !! r ≫= childNodes.
Definition kids (h : Heap) (r : ref) : list ref := default [] (childrenOf h r).
Definition parentOf (h : Heap) (r : ref) : option ref := h !! r ≫= parentNode.
Definition nextOf (h : Heap) (r : ref) : option ref := h !! r ≫= nextSibling.
Definition scalars (n : XmlNode) : XmlNodeType * string * JsValue * option (list XmlAttribute) :=
  (nodeType n, nodeName n, textContent n, attributes n).
Definition scalarsOf (h : Heap) (r : ref) := scalars <$> h !! r.

(** [isTextNode] answers [false]: a general node with a name of its own. *)
Definition is_general (h : Heap) (r : ref) : Prop :=
  exists n, h !! r = Some n /\ isTextNode n = Ok false.

(** [isTextNode] answers [true]: a text node under its reserved name. *)
Definition is_text (h : Heap) (r : ref) : Prop :=
  exists n, h !! r = Some n /\ isTextNode n = Ok true.

(** The index that [removeChild] works with. *)
Definition resolve (cs : list ref) (sel : ChildOrIndex) : Z :=
  match sel with
  | ByIndex i => i
  | ByNode c => indexOf cs c
  end.

(** The child before index [i], when there is one. *)
Definition before (cs : list ref) (i : nat) : option ref :=
  match i with
  | O => None
  | S j => cs !! j
  end.

(** Invariant 3 of the data model on the children of [p]: the child at
    index [i] points to the child at index [i + 1], the last child to
    nothing. *)
Definition sibling_inv (h : Heap) (p : ref) : Prop :=
  forall i c, kids h p !! i = Some c ->
              (c < length h)%nat /\ nextOf h c = kids h p !! S i.

(** [<p>a<b>x</b>c</p>] with one more, detached, text node at address 5. *)
Definition sample_heap_detached : Heap :=
  sample_heap ++ [mkNode Text TEXT_NODE_NAME (VString "d") None None None None].

(** [node] is reached from [root] by following [childNodes] downwards;
    [path] lists, from [root] down, the index [indexOf] finds for each node
    of the chain in the children of its [parentNode]. *)
Inductive descends (h : Heap) (root : ref) : ref -> list Z -> Prop :=
| descends_here : descends h root root []
| descends_child (node parent : ref) (cs : list ref) (path : list Z) :
    node <> root ->
    parentOf h node = Some parent ->
    childrenOf h parent = Some cs ->
    descends h root parent path ->
    descends h root node (path ++ [indexOf cs node]).

(** The [parentNode] chain of [node] ends, after [d] steps, at a node without
    parent, and does not meet [root] on the way; every parent on the chain
    has a child array. *)
Inductive outside (h : Heap) (root : ref) : ref -> nat -> Prop :=
| outside_top (node : ref) (n : XmlNode) :
    node <> root ->
    h !! node = Some n ->
    parentNode n = None ->
    outside h root node 0
| outside_up (node parent : ref) (cs : list ref) (d : nat) :
    node <> root ->
    parentOf h node = Some parent ->
    childrenOf h parent = Some cs ->
    outside h root parent d ->
    outside h root node (S d).

(** What [Object.assign({}, node)] and the three resets of the shallow
    [cloneNode] leave. *)
Definition shallow_copy (n : XmlNode) : XmlNode :=
  mkNode (nodeType n) (nodeName n) (textContent n) (attributes n) None None None.

(** The state of the two loops of [splitByChild]: [root] and its [clone],
    the children still in [root] and the children already moved. *)
Record split_state (h : Heap) (root clone : ref) : Prop := mkSplitState {
  ss_root : is_general h root;
  ss_clone : is_general h clone;
  ss_distinct : root <> clone;
  ss_container : childrenOf h root = Some (kids h root);
  ss_nodup : NoDup (kids h root);
  ss_parent : forall x, x ∈ kids h root -> parentOf h x = Some root;
  ss_moved : forall x, x ∈ kids h clone -> parentOf h x = Some clone
}.

(** [r] is the root of a tree of height at most [d] whose nodes all have a
    type and a name that agree (invariants 1 and 5 of the data model). *)
Fixpoint tree_at (d : nat) (h : Heap) (r : ref) : Prop :=
  match d with
  | O => False
  | S d' =>
      exists n, h !! r = Some n /\
                (exists b, isTextNode n = Ok b) /\
                forall x, x ∈ default [] (childNodes n) -> tree_at d' h x
  end.

(** The subtree of [c], of height at most [d], lies in the addresses
    [lo .. hi - 1], every node after its parent, and its links are
    consistent: the children of a node name it as their parent and are
    chained by [nextSibling] (invariants 3 and 4). *)
Fixpoint linked (d : nat) (h : Heap) (lo hi : nat) (c : ref) : Prop :=
  match d with
  | O => False
  | S d' =>
      (lo <= c < hi)%nat /\ (hi <= length h)%nat /\
      sibling_inv h c /\
      forall x, x ∈ kids h c ->
                (c < x)%nat /\ parentOf h x = Some c /\ linked d' h lo hi x
  end.

(** What later writes leave of a region [lo .. hi - 1]: every object keeps
    its content and child array, and every object but the first is not
    written at all. *)
Definition kept (lo hi : nat) (h1 h2 : Heap) : Prop :=
  (length h1 <= length h2)%nat /\
  forall r n1, (lo <= r < hi)%nat -> h1 !! r = Some n1 ->
    exists n2, h2 !! r = Some n2 /\ scalars n2 = scalars n1 /\
               childNodes n2 = childNodes n1 /\ ((lo < r)%nat -> n2 = n1).

(** [prev.nextSibling = childClone], when there is a previous clone. *)
Definition link_prev (prev : option ref) (a : ref) (h : Heap) : Heap :=
  match prev with
  | Some p => alter (set_nextSibling (Some a)) p h
  | None => h
  end.

(** The store after one turn of the loop of [cloneNodeDeep] entered with
    store [hc]: the clone of the child, at the first free address and with
    the objects [ext] of its subtree after it, has been pushed to
    [c.childNodes], names [c] as its parent, and the previous clone points
    to it. *)
Definition step_heap (c : ref) (hc ext : Heap) (dcs : list ref) : Heap :=
  link_prev (last dcs) (length hc)
    (alter (set_parentNode (Some c)) (length hc)
       (alter (set_childNodes (Some (dcs ++ [length hc]))) c (hc ++ ext))).

(** What [cloneNodeDeep] with fuel [fuel] does on trees of height [d]. *)
Definition clone_ok (d fuel : nat) : Prop :=
  forall hh x, tree_at d hh x ->
    exists ext,
      cloneNodeDeep fuel x hh = (Ok (length hh), hh ++ ext) /\
      linked d (hh ++ ext) (length hh) (length (hh ++ ext)) (length hh) /\
      parentOf (hh ++ ext) (length hh) = None /\
      nextOf (hh ++ ext) (length hh) = None /\
      forall f, serialize f (hh ++ ext) (length hh) = serialize f hh x.

(** The state of the loop over the children in [cloneNodeDeep]: [h] is the
    store on entry, [c] the clone under construction, [dcs] the clones of
    the children [done] so far. *)
Record clone_progress (h : Heap) (d : nat) (c : ref) (hc : Heap)
    (dcs done : list ref) : Prop := mkCloneProgress {
  cp_prefix : h `prefix_of` hc;
  cp_fresh : (length h <= c < length hc)%nat;
  cp_children : childrenOf hc c = Some dcs;
  cp_serialize :
    Forall2 (fun cc ch => forall f, serialize f hc cc = serialize f h ch) dcs done;
  cp_incr : forall i j x y, (i < j)%nat -> dcs !! i = Some x -> dcs !! j = Some y ->
                            (x < y)%nat;
  cp_links : forall i cc, dcs !! i = Some cc ->
      (c < cc)%nat /\ parentOf hc cc = Some c /\ nextOf hc cc = dcs !! S i /\
      linked d hc cc (default (length hc) (dcs !! S i)) cc
}.

(** ** The image of a host tree *)

Definition domChildNodes (d : DomNode) : option (list DomNode) :=
  match d with DomNodeOf _ _ _ _ children => children end.

(** The height of a host tree. *)
Fixpoint domHeight (d : DomNode) : nat :=
  match d with
  | DomNodeOf _ _ _ _ children =>
      S (match children with
         | Some ds => foldr (fun x acc => Nat.max (domHeight x) acc) 0%nat ds
         | None => 0%nat
         end)
  end.

(** The type, name, text and attributes that the node made for a host node
    has: a host text node gives a text node under the reserved name with the
    host's text; any other host node gives a general node under the host's
    name, with a copy of the attribute list when the host node is an element
    that has one. *)
Definition imported (d : DomNode)
  : XmlNodeType * string * JsValue * option (list XmlAttribute) :=
  match d with
  | DomNodeOf ty nm text attrs _ =>
      if ty =? TEXT_NODE then (Text, TEXT_NODE_NAME, text, None)
      else (General, nm, VUndefined,
            if ty =? ELEMENT_NODE
            then option_map (map (fun a => mkAttr (name a) (value a))) attrs
            else None)
  end.

(** The tree at [r] is the image of the host tree [d], of height at most
    [k]: node by node the content is [imported], and a node has a child
    array exactly when the host node has a child collection, with the images
    of the host children in the same order. *)
Fixpoint mirrors (k : nat) (h : Heap) (d : DomNode) (r : ref) : Prop :=
  match k with
  | O => False
  | S k' =>
      scalarsOf h r = Some (imported d) /\
      match domChildNodes d with
      | None => childrenOf h r = None
      | Some ds => exists cs, childrenOf h r = Some cs /\ Forall2 (mirrors k' h) ds cs
      end
  end.

(** What [fromDomNode] does on host trees of height at most [k]. *)
Definition import_ok (k : nat) : Prop :=
  forall hh d, (domHeight d <= k)%nat ->
    exists ext,
      fromDomNode d hh = (Ok (length hh), hh ++ ext) /\
      mirrors k (hh ++ ext) d (length hh) /\
      linked k (hh ++ ext) (length hh) (length (hh ++ ext)) (length hh) /\
      parentOf (hh ++ ext) (length hh) = None /\
      nextOf (hh ++ ext) (length hh) = None.

(** The state of the loop over the host children in [fromDomNode]: [h] is
    the store on entry, [c] the node under construction, [dcs] the images of
    the host children [done] so far. *)
Record import_progress (h : Heap) (k : nat) (c : ref) (hc : Heap)
    (dcs : list ref) (done : list DomNode) : Prop := mkImportProgress {
  ip_prefix : h `prefix_of` hc;
  ip_fresh : (length h <= c < length hc)%nat;
  ip_children : childrenOf hc c = Some dcs;
  ip_mirrors : Forall2 (mirrors k hc) done dcs;
  ip_incr : forall i j x y, (i < j)%nat -> dcs !! i = Some x -> dcs !! j = Some y ->
                            (x < y)%nat;
  ip_links : forall i cc, dcs !! i = Some cc ->
      (c < cc)%nat /\ parentOf hc cc = Some c /\ nextOf hc cc = dcs !! S i /\
      linked k hc cc (default (length hc) (dcs !! S i)) cc
}.

(** * Properties *)

(** ** Serialization and escaping *)

Lemma encodeChar_other (c : ascii) :
  c <> "<"%char -> c <> ">"%char -> c <> "&"%char -> c <> "'"%char -> c <> dquote ->
  encodeChar c = String c EmptyString.
Proof.
  intros H1 H2 H3 H4 H5. unfold encodeChar.
  apply Ascii.eqb_neq in H1, H2, H3, H4, H5.
  rewrite H1, H2, H3, H4, H5. reflexivity.
Qed.

(** C8: [encodeValue] replaces each of the five characters [<], [>], [&],
    ['] and the double quote by its named entity, leaves every other
    character as it is and works character by character (so the empty string
    gives the empty string, and the sample string gives
    [&lt;a&amp;b&gt;&apos;&quot;]); an absent argument ([undefined] or
    [null]) raises the missing-argument error and a value that is not a
    string raises a type error. *)
Theorem encodeValue_spec :
  (forall s : string, exists r : string,
      encodeValue (VString s) = Ok r /\
      encodeValue (VString (String "<" s)) = Ok ("&lt;" +:+ r) /\
      encodeValue (VString (String ">" s)) = Ok ("&gt;" +:+ r) /\
      encodeValue (VString (String "&" s)) = Ok ("&amp;" +:+ r) /\
      encodeValue (VString (String "'" s)) = Ok ("&apos;" +:+ r) /\
      encodeValue (VString (String dquote s)) = Ok ("&quot;" +:+ r) /\
      (forall c : ascii,
          c <> "<"%char -> c <> ">"%char -> c <> "&"%char -> c <> "'"%char ->
          c <> dquote ->
          encodeValue (VString (String c s)) = Ok (String c r))) /\
  encodeValue (VString EmptyString) = Ok EmptyString /\
  encodeValue (VString ("<a&b>'" +:+ String dquote EmptyString))
    = Ok "&lt;a&amp;b&gt;&apos;&quot;" /\
  encodeValue VUndefined = Throw (MissingArgumentError "str") /\
  encodeValue VNull = Throw (MissingArgumentError "str") /\
  (forall z, exists msg, encodeValue (VNumber z) = Throw (TypeError msg)) /\
  (forall b, exists msg, encodeValue (VBoolean b) = Throw (TypeError msg)).
Proof.
  split; [|repeat split; try reflexivity; intros; eexists; reflexivity].
  intros s. exists (replaceSpecial s). repeat split.
  intros c H1 H2 H3 H4 H5. simpl. rewrite encodeChar_other by assumption.
  reflexivity.
Qed.

(** A use of [encodeValue_spec] on an ordinary character. *)
Lemma encodeValue_spec_witness :
  encodeValue (VString "a<") = Ok "a&lt;".
Proof.
  destruct encodeValue_spec as [H _].
  destruct (H "<") as (r & Hr & _ & _ & _ & _ & _ & Hc).
  rewrite (Hc "a"%char) by discriminate.
  simpl in Hr. injection Hr as <-. reflexivity.
Defined.

(** C2 (the code at the input where it departs from the claim): a text node
    made by [createTextNode] without an argument has no [textContent], and
    [serialize] on it throws the missing-argument error of [encodeValue]:
    the [|| ''] is applied to the result of [encodeValue], which is never
    reached. *)
Theorem serialize_text_absent_content_throws :
  forall (fuel : nat) (h : Heap),
    let '(o, h') := createTextNode VUndefined h in
    o = Ok (length h) /\
    serialize (S fuel) h' (length h) = Throw (MissingArgumentError "str").
Proof.
  intros fuel h. unfold createTextNode, alloc. split; [reflexivity|].
  assert (E : (h ++ [mkNode Text TEXT_NODE_NAME VUndefined None None None None])
                !! length h = Some (mkNode Text TEXT_NODE_NAME VUndefined None None None None)).
  { rewrite lookup_app_r by lia. rewrite Nat.sub_diag. reflexivity. }
  cbn [serialize]. rewrite E. reflexivity.
Qed.

(** A text node with string content serializes to its escaped content. *)
Lemma serialize_text_string (fuel : nat) (h : Heap) (r : ref) (n : XmlNode) (s : string) :
  h !! r = Some n -> nodeType n = Text -> nodeName n = TEXT_NODE_NAME ->
  textContent n = VString s ->
  serialize (S fuel) h r = Ok (replaceSpecial s).
Proof.
  intros Hr Ht Hn Hc. cbn [serialize]. rewrite Hr. unfold isTextNode.
  rewrite Ht, Hn, Hc. simpl. destruct (replaceSpecial s); reflexivity.
Qed.

(** ** removeSiblings *)

(** C9: [removeSiblings(from, to)] returns the empty sequence and leaves
    the store as it was when [from] and [to] are the same node, and when
    [to] is the [nextSibling] of [from]. *)
Theorem removeSiblings_same_or_adjacent :
  forall (fuel : nat) (h : Heap) (from to : ref),
    removeSiblings fuel (Some from) (Some from) h = (Ok [], h) /\
    (forall n, h !! from = Some n -> nextSibling n = Some to ->
               removeSiblings fuel (Some from) (Some to) h = (Ok [], h)).
Proof.
  intros fuel h from to. split.
  - unfold removeSiblings. rewrite bool_decide_eq_true_2 by reflexivity. reflexivity.
  - intros n Hn Hnext. unfold removeSiblings.
    destruct (bool_decide (Some from = Some to)) eqn:E; [reflexivity|].
    unfold bind, get_node. rewrite Hn, Hnext.
    destruct fuel; simpl; rewrite bool_decide_eq_true_2 by reflexivity; reflexivity.
Qed.

(** On [<p>a<b>x</b>c</p>]: [a] and [b] are adjacent. *)
Lemma removeSiblings_same_or_adjacent_witness :
  removeSiblings 5 (Some 1%nat) (Some 2%nat) sample_heap = (Ok [], sample_heap).
Proof.
  eapply (proj2 (removeSiblings_same_or_adjacent 5 sample_heap 1%nat 2%nat)).
  - reflexivity.
  - reflexivity.
Defined.

Lemma isTextNode_scalars (n m : XmlNode) :
  scalars n = scalars m -> isTextNode n = isTextNode m.
Proof. unfold scalars, isTextNode. intros [= -> -> _ _]. reflexivity. Qed.

Lemma is_general_scalars (h h' : Heap) (r : ref) :
  scalarsOf h' r = scalarsOf h r -> is_general h r -> is_general h' r.
Proof.
  unfold scalarsOf, is_general. intros E (n & Hn & Ht). rewrite Hn in E.
  destruct (h' !! r) as [m|] eqn:Hm; [|discriminate].
  exists m. split; [reflexivity|]. simpl in E.
  assert (E' : scalars m = scalars n) by congruence.
  rewrite (isTextNode_scalars m n E'). exact Ht.
Qed.

Section Alter.
Context (h : Heap) (r r' : ref).

Lemma lookup_alter_bind {B} (g : XmlNode -> option B) (f : XmlNode -> XmlNode) :
  alter f r h !! r' ≫= g
  = if decide (r' = r) then h !! r ≫= (fun n => g (f n)) else h !! r' ≫= g.
Proof.
  rewrite list_lookup_alter.
  destruct (decide (r = r')) as [E|E], (decide (r' = r)) as [E'|E']; try congruence.
  destruct (h !! r); reflexivity.
Qed.

Lemma lookup_alter_same {B} (g : XmlNode -> option B) (f : XmlNode -> XmlNode) :
  (forall n, g (f n) = g n) -> alter f r h !! r' ≫= g = h !! r' ≫= g.
Proof.
  intros E. rewrite lookup_alter_bind.
  destruct (decide (r' = r)) as [E'|E']; [|reflexivity].
  rewrite E'. destruct (h !! r); simpl; auto.
Qed.

Lemma lookup_alter_const {B} (g : XmlNode -> option B) (f : XmlNode -> XmlNode) (v : option B) :
  (forall n, g (f n) = v) -> (r < length h)%nat ->
  alter f r h !! r' ≫= g = if decide (r' = r) then v else h !! r' ≫= g.
Proof.
  intros E Hr. rewrite lookup_alter_bind.
  destruct (decide (r' = r)) as [E'|E']; [|reflexivity].
  destruct (lookup_lt_is_Some_2 h r Hr) as [n ->]. simpl. auto.
Qed.

Lemma childrenOf_set_children v :
  (r < length h)%nat ->
  childrenOf (alter (set_childNodes v) r h) r'
  = if decide (r' = r) then v else childrenOf h r'.
Proof. apply lookup_alter_const. reflexivity. Qed.

Lemma childrenOf_set_parent v :
  childrenOf (alter (set_parentNode v) r h) r' = childrenOf h r'.
Proof. apply lookup_alter_same. reflexivity. Qed.

Lemma childrenOf_set_next v :
  childrenOf (alter (set_nextSibling v) r h) r' = childrenOf h r'.
Proof. apply lookup_alter_same. reflexivity. Qed.

Lemma parentOf_set_parent v :
  (r < length h)%nat ->
  parentOf (alter (set_parentNode v) r h) r'
  = if decide (r' = r) then v else parentOf h r'.
Proof. apply lookup_alter_const. reflexivity. Qed.

Lemma parentOf_set_children v :
  parentOf (alter (set_childNodes v) r h) r' = parentOf h r'.
Proof. apply lookup_alter_same. reflexivity. Qed.

Lemma parentOf_set_next v :
  parentOf (alter (set_nextSibling v) r h) r' = parentOf h r'.
Proof. apply lookup_alter_same. reflexivity. Qed.

Lemma nextOf_set_next v :
  (r < length h)%nat ->
  nextOf (alter (set_nextSibling v) r h) r'
  = if decide (r' = r) then v else nextOf h r'.
Proof. apply lookup_alter_const. reflexivity. Qed.

Lemma nextOf_set_children v :
  nextOf (alter (set_childNodes v) r h) r' = nextOf h r'.
Proof. apply lookup_alter_same. reflexivity. Qed.

Lemma nextOf_set_parent v :
  nextOf (alter (set_parentNode v) r h) r' = nextOf h r'.
Proof. apply lookup_alter_same. reflexivity. Qed.

Lemma scalarsOf_alter (f : XmlNode -> XmlNode) :
  (forall n, scalars (f n) = scalars n) ->
  scalarsOf (alter f r h) r' = scalarsOf h r'.
Proof.
  intros E. unfold scalarsOf. rewrite list_lookup_alter.
  destruct (decide (r = r')) as [E'|E']; [|reflexivity].
  rewrite <- E'. destruct (h !! r); simpl; [|reflexivity]. rewrite E. reflexivity.
Qed.

Lemma scalarsOf_set_children v :
  scalarsOf (alter (set_childNodes v) r h) r' = scalarsOf h r'.
Proof. apply scalarsOf_alter. reflexivity. Qed.

Lemma scalarsOf_set_parent v :
  scalarsOf (alter (set_parentNode v) r h) r' = scalarsOf h r'.
Proof. apply scalarsOf_alter. reflexivity. Qed.

Lemma scalarsOf_set_next v :
  scalarsOf (alter (set_nextSibling v) r h) r' = scalarsOf h r'.
Proof. apply scalarsOf_alter. reflexivity. Qed.
End Alter.

Lemma kids_childrenOf (h : Heap) (r : ref) (cs : list ref) :
  childrenOf h r = Some cs -> kids h r = cs.
Proof. unfold kids. intros ->. reflexivity. Qed.

Lemma parentOf_allocated (h : Heap) (r p : ref) :
  parentOf h r = Some p -> (r < length h)%nat.
Proof.
  unfold parentOf. intros H. apply lookup_lt_is_Some.
  destruct (h !! r); [eauto|discriminate].
Qed.

Create Rewrite HintDb views.

#[global] Hint Rewrite childrenOf_set_parent childrenOf_set_next
  parentOf_set_children parentOf_set_next nextOf_set_children nextOf_set_parent
  scalarsOf_set_children scalarsOf_set_parent scalarsOf_set_next
  @length_alter : views.

Ltac len := autorewrite with views; try lia; try assumption.

#[global] Hint Rewrite childrenOf_set_children parentOf_set_parent nextOf_set_next
  using len : views.

(** ** Steps of the monad *)

Lemma bind_ok {A B} (m : M A) (k : A -> M B) (h h1 : Heap) (a : A) :
  m h = (Ok a, h1) -> bind m k h = k a h1.
Proof. unfold bind. intros ->. reflexivity. Qed.

Lemma bind_throw {A B} (m : M A) (k : A -> M B) (h h1 : Heap) (e : error) :
  m h = (Throw e, h1) -> bind m k h = (Throw e, h1).
Proof. unfold bind. intros ->. reflexivity. Qed.

Lemma bind_lift {A B} (o : outcome A) (k : A -> M B) (h : Heap) :
  bind (lift o) k h
  = match o with
    | Ok a => k a h
    | Throw e => (Throw e, h)
    | OutOfFuel => (OutOfFuel, h)
    | Stuck => (Stuck, h)
    end.
Proof. unfold bind, lift. destruct o; reflexivity. Qed.

Lemma get_node_ok (r : ref) (h : Heap) (n : XmlNode) :
  h !! r = Some n -> get_node r h = (Ok n, h).
Proof. unfold get_node. intros ->. reflexivity. Qed.

Lemma update_ok (r : ref) (f : XmlNode -> XmlNode) (h : Heap) :
  (r < length h)%nat -> update r f h = (Ok tt, alter f r h).
Proof.
  intros Hr. unfold update.
  destruct (lookup_lt_is_Some_2 h r Hr) as [n ->]. reflexivity.
Qed.

Lemma read_childNodes_ok (r : ref) (h : Heap) (cs : list ref) :
  childrenOf h r = Some cs -> read_childNodes r h = (Ok cs, h).
Proof.
  unfold childrenOf, read_childNodes, bind, get_node. intros H.
  destruct (h !! r) as [n|]; [|discriminate]. simpl in H. rewrite H. reflexivity.
Qed.

Lemma push_child_ok (r c : ref) (h : Heap) (cs : list ref) :
  childrenOf h r = Some cs ->
  push_child r c h = (Ok tt, alter (set_childNodes (Some (cs ++ [c]))) r h).
Proof.
  intros H. unfold push_child. rewrite (bind_ok _ _ _ _ _ (read_childNodes_ok _ _ _ H)).
  apply update_ok. unfold childrenOf in H. apply lookup_lt_is_Some.
  destruct (h !! r); [eauto|discriminate].
Qed.

Lemma ensure_childNodes_ok (p : ref) (h : Heap) (pn : XmlNode) :
  h !! p = Some pn ->
  exists h1,
    ensure_childNodes p h = (Ok tt, h1) /\
    h1 = match childNodes pn with
         | Some _ => h
         | None => alter (set_childNodes (Some [])) p h
         end /\
    length h1 = length h /\
    childrenOf h1 p = Some (kids h p) /\
    (forall r, r <> p -> childrenOf h1 r = childrenOf h r) /\
    (forall r, scalarsOf h1 r = scalarsOf h r) /\
    (forall r, parentOf h1 r = parentOf h r) /\
    (forall r, nextOf h1 r = nextOf h r).
Proof.
  intros Hp. assert (Hlen : (p < length h)%nat) by (apply lookup_lt_is_Some; eauto).
  unfold ensure_childNodes. rewrite (bind_ok _ _ _ _ _ (get_node_ok _ _ _ Hp)).
  destruct (childNodes pn) as [cs|] eqn:Hcs.
  - exists h. repeat split; auto.
    unfold kids, childrenOf. rewrite Hp. simpl. rewrite Hcs. reflexivity.
  - eexists. split; [apply update_ok; exact Hlen|]. split; [reflexivity|].
    repeat split; intros; autorewrite with views; try reflexivity.
    + rewrite decide_True by reflexivity. unfold kids, childrenOf.
      rewrite Hp. simpl. rewrite Hcs. reflexivity.
    + rewrite decide_False by assumption. reflexivity.
Qed.

Lemma childrenOf_allocated (h : Heap) (r : ref) (cs : list ref) :
  childrenOf h r = Some cs -> (r < length h)%nat.
Proof.
  unfold childrenOf. intros H. apply lookup_lt_is_Some.
  destruct (h !! r); [eauto|discriminate].
Qed.

(** ** appendChild *)

Ltac step_with tac := erewrite bind_ok; [|solve [tac]].
Ltac step_update := step_with ltac:(apply update_ok; len).

Lemma appendChild_ok (h : Heap) (p c : ref) :
  is_general h p -> (c < length h)%nat ->
  (forall l, last (kids h p) = Some l -> (l < length h)%nat) ->
  exists h',
    appendChild (Some p) (Some c) h = (Ok tt, h') /\
    length h' = length h /\
    (forall r, scalarsOf h' r = scalarsOf h r) /\
    (forall r, childrenOf h' r
               = if decide (r = p) then Some (kids h p ++ [c]) else childrenOf h r) /\
    (forall r, parentOf h' r = if decide (r = c) then Some p else parentOf h r) /\
    (forall r, nextOf h' r
               = if decide (r = c) then None
                 else if decide (last (kids h p) = Some r) then Some c else nextOf h r).
Proof.
  intros (pn & Hp & Ht) Hc Hl.
  destruct (ensure_childNodes_ok p h pn Hp)
    as (h1 & E1 & _ & L1 & C1 & C1' & S1 & P1 & N1).
  assert (Hplen : (p < length h)%nat) by (apply lookup_lt_is_Some; eauto).
  unfold appendChild.
  step_with ltac:(apply get_node_ok; exact Hp).
  unfold lift at 1. unfold bind at 1. rewrite Ht.
  step_with ltac:(exact E1).
  step_with ltac:(apply read_childNodes_ok; exact C1).
  unfold last_elem.
  destruct (last (kids h p)) as [l|] eqn:El.
  - specialize (Hl l eq_refl).
    do 3 step_update.
    eexists. split.
    { apply push_child_ok. autorewrite with views. exact C1. }
    repeat split; intros; autorewrite with views; auto.
    + destruct (decide (r = p)) as [->|Hne]; [reflexivity|]. auto.
    + destruct (decide (r = c)); [reflexivity|]. auto.
    + destruct (decide (r = c)); [reflexivity|].
      destruct (decide (r = l)) as [->|Hne].
      * rewrite decide_True by reflexivity. reflexivity.
      * rewrite decide_False by congruence. auto.
  - step_with ltac:(reflexivity).
    do 2 step_update.
    eexists. split.
    { apply push_child_ok. autorewrite with views. exact C1. }
    repeat split; intros; autorewrite with views; auto.
    + destruct (decide (r = p)) as [->|Hne]; [reflexivity|]. auto.
    + destruct (decide (r = c)); [reflexivity|]. auto.
    + destruct (decide (r = c)); [reflexivity|].
      rewrite decide_False by congruence. auto.
Qed.

(** ** Array lemmas *)

Lemma nthZ_of_nat {A} (l : list A) (i : nat) : nthZ l (Z.of_nat i) = l !! i.
Proof.
  unfold nthZ. destruct (Z.ltb_spec (Z.of_nat i) 0); [lia|].
  rewrite Nat2Z.id. reflexivity.
Qed.

Lemma nthZ_neg {A} (l : list A) (i : Z) : i < 0 -> nthZ l i = None.
Proof. unfold nthZ. intros H. destruct (Z.ltb_spec i 0); [reflexivity|lia]. Qed.

Lemma indexOf_range (l : list ref) (x : ref) :
  indexOf l x = -1 \/ 0 <= indexOf l x < Z.of_nat (length l).
Proof.
  induction l as [|y l IH]; simpl; [left; reflexivity|].
  destruct (Nat.eqb y x); [right; lia|].
  destruct (Z.ltb_spec (indexOf l x) 0); [left; reflexivity|right; lia].
Qed.

Lemma indexOf_not_elem (l : list ref) (x : ref) : x ∉ l -> indexOf l x = -1.
Proof.
  induction l as [|y l IH]; simpl; intros H; [reflexivity|].
  apply not_elem_of_cons in H as [Hne Hl].
  destruct (Nat.eqb_spec y x); [congruence|].
  rewrite (IH Hl). reflexivity.
Qed.

Lemma indexOf_lookup (l : list ref) (x : ref) (i : nat) :
  indexOf l x = Z.of_nat i -> l !! i = Some x.
Proof.
  revert i. induction l as [|y l IH]; simpl; intros i H; [lia|].
  destruct (Nat.eqb_spec y x) as [->|Hne].
  - assert (i = 0%nat) as -> by lia. reflexivity.
  - destruct (Z.ltb_spec (indexOf l x) 0); [lia|].
    destruct i as [|i]; [lia|]. simpl. apply IH. lia.
Qed.

Lemma indexOf_first (l : list ref) (x : ref) (i : nat) :
  l !! i = Some x -> x ∉ take i l -> indexOf l x = Z.of_nat i.
Proof.
  revert i. induction l as [|y l IH]; intros i Hi Hn; [discriminate|].
  destruct i as [|i]; simpl in *.
  - injection Hi as ->. rewrite Nat.eqb_refl. reflexivity.
  - apply not_elem_of_cons in Hn as [Hne Hn].
    destruct (Nat.eqb_spec y x); [congruence|].
    rewrite (IH i Hi Hn). destruct (Z.ltb_spec (Z.of_nat i) 0); lia.
Qed.

Lemma indexOf_NoDup (l : list ref) (x : ref) (i : nat) :
  NoDup l -> l !! i = Some x -> indexOf l x = Z.of_nat i.
Proof.
  intros Hnd Hi. apply indexOf_first; [exact Hi|].
  intros Hin. apply list_elem_of_lookup in Hin as [j Hj].
  assert (j < i)%nat.
  { apply lookup_lt_Some in Hj. rewrite length_take in Hj. lia. }
  rewrite lookup_take_lt in Hj by assumption.
  pose proof (NoDup_lookup l j i x Hnd Hj Hi). lia.
Qed.

Lemma splice_remove_one {A} (l : list A) (i : nat) :
  (i < length l)%nat ->
  splice (Z.of_nat i) 1 [] l = (take 1 (drop i l), delete i l).
Proof.
  intros Hi. unfold splice, splice_start.
  destruct (Z.ltb_spec (Z.of_nat i) 0); [lia|].
  rewrite Nat2Z.id, Nat.min_l by lia.
  rewrite delete_take_drop. simpl. do 3 f_equal. lia.
Qed.

Lemma head_take_drop {A} (l : list A) (i : nat) : head (take 1 (drop i l)) = l !! i.
Proof.
  replace (l !! i) with (drop i l !! 0%nat)
    by (rewrite lookup_drop; f_equal; lia).
  destruct (drop i l); reflexivity.
Qed.

Lemma splice_insert_one {A} (l : list A) (i : nat) (x : A) :
  (i <= length l)%nat ->
  snd (splice (Z.of_nat i) 0 [x] l) = take i l ++ x :: drop i l.
Proof.
  intros Hi. unfold splice, splice_start. simpl.
  destruct (Z.ltb_spec (Z.of_nat i) 0); [lia|].
  rewrite Nat2Z.id, Nat.min_l by lia. rewrite Nat.add_0_r. reflexivity.
Qed.

(** ** removeChild *)

Lemma removeChild_ok (h : Heap) (p : ref) (sel : ChildOrIndex)
    (cs : list ref) (i : nat) (c : ref) :
  childrenOf h p = Some cs ->
  resolve cs sel = Z.of_nat i ->
  cs !! i = Some c ->
  (c < length h)%nat ->
  (forall b, before cs i = Some b -> (b < length h)%nat) ->
  exists h',
    removeChild (Some p) (Some sel) h = (Ok (Some c), h') /\
    h' = alter (set_childNodes (Some (delete i cs))) p
           (alter (set_nextSibling None) c
              (alter (set_parentNode None) c
                 (match before cs i with
                  | Some b => alter (set_nextSibling (nextOf h c)) b h
                  | None => h
                  end))) /\
    length h' = length h /\
    (forall r, scalarsOf h' r = scalarsOf h r) /\
    (forall r, childrenOf h' r
               = if decide (r = p) then Some (delete i cs) else childrenOf h r) /\
    (forall r, parentOf h' r = if decide (r = c) then None else parentOf h r) /\
    (forall r, nextOf h' r
               = if decide (r = c) then None
                 else if decide (before cs i = Some r) then nextOf h c else nextOf h r).
Proof.
  intros Hcs Hsel Hi Hc Hb.
  pose proof (childrenOf_allocated _ _ _ Hcs) as Hp.
  pose proof (lookup_lt_Some _ _ _ Hi) as Hlen.
  assert (Hpn : exists pn, h !! p = Some pn /\ childNodes pn = Some cs).
  { unfold childrenOf in Hcs. destruct (h !! p) as [pn|]; [|discriminate]. eauto. }
  destruct Hpn as (pn & Hpn & Hpcs).
  assert (Hcn : exists cn, h !! c = Some cn /\ nextSibling cn = nextOf h c).
  { destruct (lookup_lt_is_Some_2 h c Hc) as [cn Hcn]. exists cn.
    unfold nextOf. rewrite Hcn. auto. }
  destruct Hcn as (cn & Hcn & Hcnext).
  unfold removeChild.
  step_with ltac:(apply get_node_ok; exact Hpn).
  rewrite Hpcs. destruct cs as [|c0 cs0] eqn:Ecs; [discriminate|]. rewrite <- Ecs in *.
  assert (Hidx : (match sel with
                  | ByIndex i0 => ret i0
                  | ByNode c1 =>
                      let i0 := indexOf cs c1 in
                      if i0 =? -1
                      then throw (Error "Specified child node is not a child of the specified parent")
                      else ret i0
                  end) h = (Ok (Z.of_nat i), h)).
  { destruct sel as [c1|i1]; simpl in Hsel; [|rewrite Hsel; reflexivity].
    simpl. rewrite Hsel. destruct (Z.eqb_spec (Z.of_nat i) (-1)); [lia|reflexivity]. }
  step_with ltac:(exact Hidx).
  destruct (Z.geb_spec (Z.of_nat i) (Z.of_nat (length cs))); [lia|].
  rewrite nthZ_of_nat, Hi.
  destruct i as [|j].
  - simpl (0 >? 0). cbv iota.
    step_with ltac:(reflexivity).
    do 2 step_update.
    step_with ltac:(apply read_childNodes_ok; autorewrite with views; exact Hcs).
    rewrite (splice_remove_one cs 0) by lia.
    step_update. simpl before.
    eexists. split; [unfold ret; rewrite head_take_drop, Hi; reflexivity|].
    split; [reflexivity|].
    repeat split; intros; autorewrite with views; auto.
  - destruct (Z.gtb_spec (Z.of_nat (S j)) 0); [|lia].
    replace (Z.of_nat (S j) - 1) with (Z.of_nat j) by lia.
    rewrite nthZ_of_nat.
    assert (Hj : exists b, cs !! j = Some b) by (apply lookup_lt_is_Some; lia).
    destruct Hj as [b Hj]. rewrite Hj.
    specialize (Hb b Hj).
    step_with ltac:(erewrite bind_ok; [|apply get_node_ok; exact Hcn];
                    apply update_ok; exact Hb).
    do 2 step_update.
    step_with ltac:(apply read_childNodes_ok; autorewrite with views; exact Hcs).
    rewrite (splice_remove_one cs (S j)) by lia.
    step_update. simpl before. rewrite Hj, Hcnext.
    eexists. split; [unfold ret; rewrite head_take_drop, Hi; reflexivity|].
    split; [reflexivity|].
    repeat split; intros; autorewrite with views; auto.
    destruct (decide (r = c)); [reflexivity|].
    destruct (decide (r = b)) as [->|Hne].
    + rewrite decide_True by reflexivity. reflexivity.
    + rewrite decide_False by congruence. reflexivity.
Qed.

Lemma bind_stuck {A B} (m : M A) (k : A -> M B) (h h1 : Heap) :
  m h = (Stuck, h1) -> bind m k h = (Stuck, h1).
Proof. unfold bind. intros ->. reflexivity. Qed.

Lemma update_stuck (r : ref) (f : XmlNode -> XmlNode) (h : Heap) :
  (length h <= r)%nat -> update r f h = (Stuck, h).
Proof. intros H. unfold update. rewrite lookup_ge_None_2 by lia. reflexivity. Qed.

Lemma get_node_stuck (r : ref) (h : Heap) :
  (length h <= r)%nat -> get_node r h = (Stuck, h).
Proof. intros H. unfold get_node. rewrite lookup_ge_None_2 by lia. reflexivity. Qed.

Lemma removeChild_no_children (h : Heap) (p : ref) (sel : ChildOrIndex) :
  (p < length h)%nat -> kids h p = [] ->
  removeChild (Some p) (Some sel) h = (Throw (Error "Parent node has node children"), h).
Proof.
  intros Hp Hk. destruct (lookup_lt_is_Some_2 h p Hp) as [pn Hpn].
  unfold removeChild. step_with ltac:(apply get_node_ok; exact Hpn).
  unfold kids, childrenOf in Hk. rewrite Hpn in Hk. simpl in Hk.
  destruct (childNodes pn) as [[|c cs]|]; try discriminate; reflexivity.
Qed.

Lemma removeChild_bad_index (h : Heap) (p : ref) (i : Z) :
  (p < length h)%nat -> i < 0 \/ Z.of_nat (length (kids h p)) <= i ->
  exists e, removeChild (Some p) (Some (ByIndex i)) h = (Throw e, h).
Proof.
  intros Hp Hi. destruct (lookup_lt_is_Some_2 h p Hp) as [pn Hpn].
  destruct (kids h p) as [|c0 cs0] eqn:Hk.
  { eexists. apply removeChild_no_children; assumption. }
  unfold removeChild. step_with ltac:(apply get_node_ok; exact Hpn).
  unfold kids, childrenOf in Hk. rewrite Hpn in Hk. simpl in Hk.
  destruct (childNodes pn) as [cs|]; [|discriminate]. simpl in Hk. subst cs.
  step_with ltac:(reflexivity).
  destruct (Z.geb_spec i (Z.of_nat (length (c0 :: cs0)))); [eexists; reflexivity|].
  destruct Hi as [Hi|Hi]; [|lia].
  destruct (Z.gtb_spec i 0); [lia|].
  step_with ltac:(reflexivity).
  rewrite nthZ_neg by assumption. eexists. reflexivity.
Qed.

Lemma removeChild_not_child (h : Heap) (p c : ref) :
  (p < length h)%nat -> c ∉ kids h p ->
  exists e, removeChild (Some p) (Some (ByNode c)) h = (Throw e, h).
Proof.
  intros Hp Hc. destruct (lookup_lt_is_Some_2 h p Hp) as [pn Hpn].
  destruct (kids h p) as [|c0 cs0] eqn:Hk.
  { eexists. apply removeChild_no_children; assumption. }
  unfold removeChild. step_with ltac:(apply get_node_ok; exact Hpn).
  unfold kids, childrenOf in Hk. rewrite Hpn in Hk. simpl in Hk.
  destruct (childNodes pn) as [cs|]; [|discriminate]. simpl in Hk. subst cs.
  erewrite bind_throw; [eexists; reflexivity|].
  cbv zeta. rewrite (indexOf_not_elem _ _ Hc). reflexivity.
Qed.

(** [removeChild] once the index is known to select a child. *)
Lemma removeChild_resolved (h : Heap) (p : ref) (sel : ChildOrIndex)
    (cs : list ref) (i : nat) (c : ref) :
  childrenOf h p = Some cs ->
  resolve cs sel = Z.of_nat i ->
  cs !! i = Some c ->
  removeChild (Some p) (Some sel) h
  = (match before cs i with
     | Some b => cn <- get_node c ;; update b (set_nextSibling (nextSibling cn))
     | None => ret tt
     end ;;;
     update c (set_parentNode None) ;;;
     update c (set_nextSibling None) ;;;
     cs' <- read_childNodes p ;;
     let '(removed, rest) := splice (Z.of_nat i) 1 [] cs' in
     update p (set_childNodes (Some rest)) ;;;
     ret (head removed)) h.
Proof.
  intros Hcs Hsel Hi.
  pose proof (lookup_lt_Some _ _ _ Hi) as Hlen.
  assert (Hpn : exists pn, h !! p = Some pn /\ childNodes pn = Some cs).
  { unfold childrenOf in Hcs. destruct (h !! p) as [pn|]; [|discriminate]. eauto. }
  destruct Hpn as (pn & Hpn & Hpcs).
  unfold removeChild.
  step_with ltac:(apply get_node_ok; exact Hpn).
  rewrite Hpcs. destruct cs as [|c0 cs0] eqn:Ecs; [discriminate|]. rewrite <- Ecs in *.
  assert (Hidx : (match sel with
                  | ByIndex i0 => ret i0
                  | ByNode c1 =>
                      let i0 := indexOf cs c1 in
                      if i0 =? -1
                      then throw (Error "Specified child node is not a child of the specified parent")
                      else ret i0
                  end) h = (Ok (Z.of_nat i), h)).
  { destruct sel as [c1|i1]; simpl in Hsel; [|rewrite Hsel; reflexivity].
    simpl. rewrite Hsel. destruct (Z.eqb_spec (Z.of_nat i) (-1)); [lia|reflexivity]. }
  step_with ltac:(exact Hidx).
  destruct (Z.geb_spec (Z.of_nat i) (Z.of_nat (length cs))); [lia|].
  rewrite nthZ_of_nat, Hi.
  destruct i as [|j].
  - reflexivity.
  - destruct (Z.gtb_spec (Z.of_nat (S j)) 0); [|lia].
    replace (Z.of_nat (S j) - 1) with (Z.of_nat j) by lia.
    rewrite nthZ_of_nat. simpl before.
    assert (Hj : exists b, cs !! j = Some b) by (apply lookup_lt_is_Some; lia).
    destruct Hj as [b Hj]. rewrite Hj. reflexivity.
Qed.

(** A successful [removeChild] was given a valid selection of an allocated
    child. *)
Lemma removeChild_inv (h h' : Heap) (p : ref) (sel : ChildOrIndex) (res : option ref) :
  removeChild (Some p) (Some sel) h = (Ok res, h') ->
  exists cs i c,
    childrenOf h p = Some cs /\ resolve cs sel = Z.of_nat i /\ cs !! i = Some c /\
    (c < length h)%nat /\ (forall b, before cs i = Some b -> (b < length h)%nat).
Proof.
  intros H.
  destruct (le_lt_dec (length h) p) as [Hp|Hp].
  { unfold removeChild in H. rewrite (bind_stuck _ _ _ _ (get_node_stuck _ _ Hp)) in H.
    discriminate. }
  destruct (kids h p) as [|c0 cs0] eqn:Hk.
  { rewrite removeChild_no_children in H by assumption. discriminate. }
  assert (Hcs : childrenOf h p = Some (c0 :: cs0)).
  { unfold kids in Hk. destruct (childrenOf h p); simpl in Hk; congruence. }
  remember (c0 :: cs0) as cs eqn:Ecs.
  assert (Hrange : resolve cs sel < 0 \/ Z.of_nat (length cs) <= resolve cs sel
                   \/ exists i, resolve cs sel = Z.of_nat i /\ (i < length cs)%nat).
  { destruct (Z.ltb_spec (resolve cs sel) 0); [auto|].
    destruct (Z.leb_spec (Z.of_nat (length cs)) (resolve cs sel)); [auto|].
    right; right. exists (Z.to_nat (resolve cs sel)). lia. }
  destruct Hrange as [Hr|[Hr|(i & Hi & Hlt)]].
  - destruct sel as [c|z]; simpl in Hr.
    + destruct (removeChild_not_child h p c Hp) as [e He]; [|congruence].
      rewrite Hk. intros Hin. apply list_elem_of_lookup in Hin as [j Hj].
      destruct (indexOf_range cs c) as [E|E]; [|lia].
      clear Hr. revert j Hj E. generalize cs. clear.
      induction cs as [|y l IH]; intros j Hj E; [discriminate|].
      simpl in E. destruct (Nat.eqb_spec y c); [lia|].
      destruct j as [|j]; simpl in Hj; [congruence|].
      destruct (Z.ltb_spec (indexOf l c) 0); [|lia].
      destruct (indexOf_range l c) as [E'|E']; [|lia]. eauto.
    + destruct (removeChild_bad_index h p z Hp) as [e He]; [|congruence].
      rewrite Hk. auto.
  - destruct sel as [c|z]; simpl in Hr.
    + destruct (indexOf_range cs c); lia.
    + destruct (removeChild_bad_index h p z Hp) as [e He]; [|congruence].
      rewrite Hk. auto.
  - destruct (lookup_lt_is_Some_2 cs i Hlt) as [c Hc].
    rewrite (removeChild_resolved h p sel cs i c Hcs Hi Hc) in H.
    assert (Hcl : (c < length h)%nat).
    { destruct (le_lt_dec (length h) c) as [Hge|]; [exfalso|assumption].
      destruct (before cs i) as [b|].
      - rewrite (bind_stuck _ _ _ _ (bind_stuck _ _ _ _ (get_node_stuck _ _ Hge))) in H.
        discriminate.
      - erewrite bind_ok in H by reflexivity.
        rewrite (bind_stuck _ _ _ _ (update_stuck _ _ _ Hge)) in H. discriminate. }
    exists cs, i, c. repeat split; auto.
    intros b Hb. rewrite Hb in H.
    destruct (le_lt_dec (length h) b) as [Hge|]; [exfalso|assumption].
    destruct (lookup_lt_is_Some_2 h c Hcl) as [cn Hcn].
    erewrite (bind_stuck (_ <- get_node c ;; _)) in H; [discriminate|].
    erewrite bind_ok by (apply get_node_ok; exact Hcn).
    apply update_stuck. exact Hge.
Qed.

(** C4: [removeChild(parent, childOrIndex)] throws, leaving the store as it
    was, when [parent] has no children, when a numeric index is out of
    range (negative, or not below the child count) and when a node argument
    is not among the children of [parent].  When it succeeds, the selection
    named a child [c] at an index [i], [c] is returned, the store is the old
    one after the writes [before.nextSibling = c.nextSibling] (if [i > 0]),
    [c.parentNode = null], [c.nextSibling = null] and the removal of index
    [i] from [parent.childNodes]; so afterwards [c] has no parent and no
    next sibling and its predecessor points to the former next sibling of
    [c]. *)
Theorem removeChild_spec :
  forall (h : Heap) (p : ref) (sel : ChildOrIndex),
    (p < length h)%nat ->
    (kids h p = [] ->
       exists e, removeChild (Some p) (Some sel) h = (Throw e, h)) /\
    (forall i, sel = ByIndex i ->
       i < 0 \/ Z.of_nat (length (kids h p)) <= i ->
       exists e, removeChild (Some p) (Some sel) h = (Throw e, h)) /\
    (forall c, sel = ByNode c -> c ∉ kids h p ->
       exists e, removeChild (Some p) (Some sel) h = (Throw e, h)) /\
    (forall res h', removeChild (Some p) (Some sel) h = (Ok res, h') ->
       exists (i : nat) (c : ref),
         resolve (kids h p) sel = Z.of_nat i /\
         kids h p !! i = Some c /\
         res = Some c /\
         h' = alter (set_childNodes (Some (delete i (kids h p)))) p
                (alter (set_nextSibling None) c
                   (alter (set_parentNode None) c
                      (match before (kids h p) i with
                       | Some b => alter (set_nextSibling (nextOf h c)) b h
                       | None => h
                       end))) /\
         kids h' p = delete i (kids h p) /\
         parentOf h' c = None /\
         nextOf h' c = None /\
         (forall b, before (kids h p) i = Some b -> b <> c ->
                    nextOf h' b = nextOf h c)).
Proof.
  intros h p sel Hp. repeat split.
  - intros Hk. eexists. apply removeChild_no_children; assumption.
  - intros i -> Hi. apply removeChild_bad_index; assumption.
  - intros c -> Hc. apply removeChild_not_child; assumption.
  - intros res h' H.
    destruct (removeChild_inv _ _ _ _ _ H) as (cs & i & c & Hcs & Hsel & Hi & Hc & Hb).
    destruct (removeChild_ok h p sel cs i c Hcs Hsel Hi Hc Hb)
      as (h2 & E & Eh & _ & _ & C2 & P2 & N2).
    rewrite E in H. injection H as <- <-.
    rewrite (kids_childrenOf _ _ _ Hcs).
    exists i, c. repeat split; auto.
    + unfold kids. rewrite C2, decide_True by reflexivity. reflexivity.
    + rewrite P2, decide_True by reflexivity. reflexivity.
    + rewrite N2, decide_True by reflexivity. reflexivity.
    + intros b Hbef Hne. rewrite N2, decide_False by assumption.
      rewrite decide_True by assumption. reflexivity.
Qed.

(** Removing [b] from [<p>a<b>x</b>c</p>]: [a] then points to [c]. *)
Lemma removeChild_spec_witness :
  exists h', removeChild (Some 0%nat) (Some (ByNode 2%nat)) sample_heap = (Ok (Some 2%nat), h') /\
             kids h' 0%nat = [1%nat; 4%nat] /\
             parentOf h' 2%nat = None /\ nextOf h' 2%nat = None /\
             nextOf h' 1%nat = Some 4%nat.
Proof.
  destruct (removeChild_spec sample_heap 0%nat (ByNode 2%nat)) as (_ & _ & _ & Hs).
  { vm_compute. lia. }
  destruct (Hs (Some 2%nat)
              (snd (removeChild (Some 0%nat) (Some (ByNode 2%nat)) sample_heap)))
    as (i & c & Hi & Hc & Hres & _ & Hk & Hp & Hn & Hb).
  { vm_compute. reflexivity. }
  injection Hres as <-.
  assert (E : resolve (kids sample_heap 0%nat) (ByNode 2%nat) = 1)
    by (vm_compute; reflexivity).
  rewrite E in Hi. assert (i = 1%nat) as -> by lia.
  exists (snd (removeChild (Some 0%nat) (Some (ByNode 2%nat)) sample_heap)).
  split; [vm_compute; reflexivity|].
  split; [exact Hk|]. split; [exact Hp|]. split; [exact Hn|].
  rewrite (Hb 1%nat); [reflexivity|reflexivity|discriminate].
Defined.

(** ** insertChild *)

Lemma is_general_allocated (h : Heap) (p : ref) : is_general h p -> (p < length h)%nat.
Proof. intros (n & Hn & _). apply lookup_lt_is_Some. eauto. Qed.

Lemma kids_views (h h1 : Heap) (r : ref) :
  childrenOf h1 r = Some (kids h r) -> kids h1 r = kids h r.
Proof. apply kids_childrenOf. Qed.

Lemma appendChild_after_ensure (h h1 : Heap) (p c : ref) :
  is_general h p -> ensure_childNodes p h = (Ok tt, h1) ->
  appendChild (Some p) (Some c) h1 = appendChild (Some p) (Some c) h.
Proof.
  intros (pn & Hp & Ht) E.
  destruct (ensure_childNodes_ok p h pn Hp) as (h1' & E' & Eh & L1 & C1 & _ & S1 & _).
  rewrite E' in E. injection E as ->.
  assert (G1 : is_general h1 p) by (eapply is_general_scalars; [apply S1|exists pn; auto]).
  destruct G1 as (pn1 & Hp1 & Ht1).
  destruct (ensure_childNodes_ok p h1 pn1 Hp1) as (h2 & E2 & Eh2 & _).
  assert (Hc1 : childNodes pn1 = Some (kids h p)).
  { unfold childrenOf in C1. rewrite Hp1 in C1. exact C1. }
  rewrite Hc1 in Eh2. subst h2.
  unfold appendChild.
  step_with ltac:(apply get_node_ok; exact Hp1).
  unfold lift at 1. unfold bind at 1. rewrite Ht1.
  step_with ltac:(exact E2).
  symmetry.
  step_with ltac:(apply get_node_ok; exact Hp).
  unfold lift at 1. unfold bind at 1. rewrite Ht.
  step_with ltac:(exact E').
  reflexivity.
Qed.

Lemma insertChild_at_end (h : Heap) (p : ref) (child : option ref) :
  insertChild (Some p) child (Z.of_nat (length (kids h p))) h
  = appendChild (Some p) child h.
Proof.
  unfold insertChild, appendChild at 2.
  destruct (h !! p) as [pn|] eqn:Hp.
  2:{ unfold bind, get_node. rewrite Hp. reflexivity. }
  step_with ltac:(apply get_node_ok; exact Hp). symmetry.
  step_with ltac:(apply get_node_ok; exact Hp). symmetry.
  rewrite !bind_lift.
  destruct (isTextNode pn) as [[|]| | |] eqn:Ht; try reflexivity.
  destruct child as [c|]; [|reflexivity].
  destruct (ensure_childNodes_ok p h pn Hp) as (h1 & E1 & _ & L1 & C1 & _).
  step_with ltac:(exact E1).
  step_with ltac:(apply read_childNodes_ok; exact C1).
  rewrite Z.eqb_refl.
  rewrite (appendChild_after_ensure h h1 p c) by (try exists pn; auto).
  unfold appendChild.
  step_with ltac:(apply get_node_ok; exact Hp).
  rewrite bind_lift, Ht. step_with ltac:(exact E1). reflexivity.
Qed.

Lemma insertChild_out_of_range (h : Heap) (p c : ref) (childIndex : Z) :
  is_general h p -> Z.of_nat (length (kids h p)) < childIndex ->
  exists h1,
    insertChild (Some p) (Some c) childIndex h
    = (Throw (RangeError childIndex (length (kids h p))), h1) /\
    h1 = match childrenOf h p with
         | Some _ => h
         | None => alter (set_childNodes (Some [])) p h
         end /\
    (forall r, kids h1 r = kids h r) /\
    (forall r, parentOf h1 r = parentOf h r) /\
    (forall r, nextOf h1 r = nextOf h r) /\
    (forall r, scalarsOf h1 r = scalarsOf h r).
Proof.
  intros (pn & Hp & Ht) Hi.
  destruct (ensure_childNodes_ok p h pn Hp) as (h1 & E1 & Eh & L1 & C1 & C1' & S1 & P1 & N1).
  exists h1. split; [|split; [|repeat split; auto]].
  - unfold insertChild.
    step_with ltac:(apply get_node_ok; exact Hp).
    unfold lift at 1. unfold bind at 1. rewrite Ht.
    step_with ltac:(exact E1).
    step_with ltac:(apply read_childNodes_ok; exact C1).
    destruct (Z.eqb_spec childIndex (Z.of_nat (length (kids h p)))); [lia|].
    destruct (Z.gtb_spec childIndex (Z.of_nat (length (kids h p)))); [|lia].
    reflexivity.
  - unfold childrenOf. rewrite Hp. exact Eh.
  - intros r. unfold kids. destruct (decide (r = p)) as [->|Hne].
    + rewrite C1. unfold kids. destruct (childrenOf h p); reflexivity.
    + rewrite C1' by assumption. reflexivity.
Qed.

(** C5 (as the code has it): for a parent [p] and any child,
    [insertChild(p, child, index)] with [index] equal to the current child
    count is [appendChild(p, child)], outcome and store.  For a non-text
    parent and [index] above the child count it throws the out-of-range
    error; no child sequence, link or content is changed, but a parent
    that had no [childNodes] container has been given an empty one before
    the throw (a parent that had one is left untouched). *)
Theorem insertChild_end_and_out_of_range :
  forall (h : Heap) (p c : ref) (childIndex : Z),
    is_general h p ->
    insertChild (Some p) (Some c) (Z.of_nat (length (kids h p))) h
      = appendChild (Some p) (Some c) h /\
    (Z.of_nat (length (kids h p)) < childIndex ->
     exists h1,
       insertChild (Some p) (Some c) childIndex h
         = (Throw (RangeError childIndex (length (kids h p))), h1) /\
       (forall r, kids h1 r = kids h r) /\
       (forall r, parentOf h1 r = parentOf h r) /\
       (forall r, nextOf h1 r = nextOf h r) /\
       (forall r, scalarsOf h1 r = scalarsOf h r) /\
       (forall cs, childrenOf h p = Some cs -> h1 = h) /\
       (childrenOf h p = None -> h1 = alter (set_childNodes (Some [])) p h)).
Proof.
  intros h p c childIndex Hg. split; [apply insertChild_at_end|].
  intros Hi.
  destruct (insertChild_out_of_range h p c childIndex Hg Hi)
    as (h1 & E & Eh & K & P & N & S).
  exists h1. repeat split; auto.
  - intros cs Hcs. rewrite Hcs in Eh. exact Eh.
  - intros Hcs. rewrite Hcs in Eh. exact Eh.
Qed.

(** On [<p>a<b>x</b>c</p>], index 7 is out of range and index 3 appends. *)
Lemma insertChild_end_and_out_of_range_witness :
  insertChild (Some 0%nat) (Some 3%nat) 3 sample_heap
    = appendChild (Some 0%nat) (Some 3%nat) sample_heap /\
  insertChild (Some 0%nat) (Some 3%nat) 7 sample_heap
    = (Throw (RangeError 7 3), sample_heap).
Proof.
  assert (Hg : is_general sample_heap 0%nat).
  { eexists. split; [reflexivity|reflexivity]. }
  destruct (insertChild_end_and_out_of_range sample_heap 0%nat 3%nat 7 Hg) as [H1 H2].
  split; [exact H1|].
  destruct H2 as (h1 & E & _ & _ & _ & _ & Hsame & _); [vm_compute; reflexivity|].
  rewrite E. rewrite (Hsame [1%nat; 2%nat; 4%nat]) by reflexivity. reflexivity.
Defined.

(** C5 as stated fails: a parent without a [childNodes] container is
    changed by an out-of-range [insertChild]. *)
Lemma insertChild_out_of_range_mutates :
  let h := [mkNode General "p" VUndefined None None None None;
            mkNode Text TEXT_NODE_NAME (VString "c") None None None None] in
  exists h1,
    insertChild (Some 0%nat) (Some 1%nat) 1 h = (Throw (RangeError 1 0), h1) /\
    h1 <> h /\
    childrenOf h 0%nat = None /\ childrenOf h1 0%nat = Some [].
Proof.
  eexists. split; [vm_compute; reflexivity|].
  split; [discriminate|]. split; reflexivity.
Qed.

(** ** appendChild followed by removeChild *)

Lemma before_elem (cs : list ref) (i : nat) (b : ref) : before cs i = Some b -> b ∈ cs.
Proof.
  destruct i as [|j]; simpl; [discriminate|]. intros H.
  apply list_elem_of_lookup. eauto.
Qed.

Lemma delete_app_last {A} (l : list A) (x : A) : delete (length l) (l ++ [x]) = l.
Proof.
  rewrite delete_take_drop, take_app_length.
  rewrite drop_ge by (rewrite length_app; simpl; lia).
  apply app_nil_r.
Qed.

(** C6: for a non-text parent [p] of a well-formed tree (its children name
    it as their parent) and a node [c] without a parent, [appendChild(p, c)]
    and then [removeChild(p, c)] both succeed, the child sequence of [p] and
    its length are what they were before (a parent without a [childNodes]
    container has the empty sequence, before and after), the node returned
    is [c], and [c] has neither [parentNode] nor [nextSibling] afterwards. *)
Theorem appendChild_removeChild_restores :
  forall (h : Heap) (p c : ref),
    is_general h p ->
    (c < length h)%nat ->
    parentOf h c = None ->
    (forall x, x ∈ kids h p -> parentOf h x = Some p) ->
    exists h1 h2,
      appendChild (Some p) (Some c) h = (Ok tt, h1) /\
      removeChild (Some p) (Some (ByNode c)) h1 = (Ok (Some c), h2) /\
      kids h2 p = kids h p /\
      length (kids h2 p) = length (kids h p) /\
      parentOf h2 c = None /\
      nextOf h2 c = None.
Proof.
  intros h p c Hg Hc Hpar Hinv.
  assert (Hnotin : c ∉ kids h p).
  { intros Hin. specialize (Hinv c Hin). congruence. }
  assert (Halloc : forall x, x ∈ kids h p -> (x < length h)%nat).
  { intros x Hx. eapply parentOf_allocated. apply Hinv. exact Hx. }
  destruct (appendChild_ok h p c Hg Hc) as (h1 & E1 & L1 & S1 & C1 & P1 & N1).
  { intros l Hl. apply Halloc. apply list_elem_of_lookup.
    exists (Nat.pred (length (kids h p))). rewrite <- last_lookup. exact Hl. }
  set (cs := kids h p) in *.
  assert (Hcs1 : childrenOf h1 p = Some (cs ++ [c])).
  { rewrite C1, decide_True by reflexivity. reflexivity. }
  assert (Hi : (cs ++ [c]) !! length cs = Some c).
  { rewrite lookup_app_r by lia. rewrite Nat.sub_diag. reflexivity. }
  destruct (removeChild_ok h1 p (ByNode c) (cs ++ [c]) (length cs) c Hcs1)
    as (h2 & E2 & _ & L2 & S2 & C2 & P2 & N2).
  - simpl. apply indexOf_first; [exact Hi|]. rewrite take_app_length. exact Hnotin.
  - exact Hi.
  - lia.
  - intros b Hb. rewrite L1. apply Halloc.
    destruct (length cs) as [|j] eqn:El; simpl in Hb; [discriminate|].
    rewrite lookup_app_l in Hb by lia. apply list_elem_of_lookup. eauto.
  - exists h1, h2. split; [exact E1|]. split; [exact E2|].
    assert (Hk : kids h2 p = cs).
    { unfold kids at 1. rewrite C2, decide_True by reflexivity.
      simpl. apply delete_app_last. }
    split; [exact Hk|]. split; [rewrite Hk; reflexivity|].
    split.
    + rewrite P2, decide_True by reflexivity. reflexivity.
    + rewrite N2, decide_True by reflexivity. reflexivity.
Qed.

(** Appending the detached node [x'] (a fresh text node) to [p] of
    [<p>a<b>x</b>c</p>] and removing it again. *)
Lemma appendChild_removeChild_restores_witness :
  let h := sample_heap ++ [mkNode Text TEXT_NODE_NAME (VString "d") None None None None] in
  exists h1 h2,
    appendChild (Some 0%nat) (Some 5%nat) h = (Ok tt, h1) /\
    removeChild (Some 0%nat) (Some (ByNode 5%nat)) h1 = (Ok (Some 5%nat), h2) /\
    kids h2 0%nat = [1%nat; 2%nat; 4%nat] /\
    parentOf h2 5%nat = None /\ nextOf h2 5%nat = None.
Proof.
  intros h.
  destruct (appendChild_removeChild_restores h 0%nat 5%nat)
    as (h1 & h2 & E1 & E2 & K & _ & P & N).
  - eexists. split; reflexivity.
  - vm_compute. lia.
  - reflexivity.
  - intros x Hx. change (kids h 0%nat) with [1%nat; 2%nat; 4%nat] in Hx.
    repeat (apply elem_of_cons in Hx as [->|Hx]; [reflexivity|]).
    apply elem_of_nil in Hx. destruct Hx.
  - exists h1, h2. repeat split; assumption.
Defined.

(** ** The sibling-link invariant *)

Lemma sibling_inv_distinct (h : Heap) (p : ref) :
  sibling_inv h p ->
  forall n i j c, (length (kids h p) - j = n)%nat -> (i < j)%nat ->
                  kids h p !! i = Some c -> kids h p !! j = Some c -> False.
Proof.
  intros Hinv n. induction n as [|n IH]; intros i j c Hn Hij Hi Hj.
  - apply lookup_lt_Some in Hj. lia.
  - destruct (Hinv i c Hi) as [_ Ni]. destruct (Hinv j c Hj) as [_ Nj].
    rewrite Ni in Nj.
    destruct (kids h p !! S j) as [c'|] eqn:Ej.
    + apply (IH (S i) (S j) c'); [lia|lia|exact Nj|exact Ej].
    + apply lookup_ge_None in Ej. apply lookup_ge_None in Nj.
      apply lookup_lt_Some in Hj. lia.
Qed.

Lemma sibling_inv_NoDup (h : Heap) (p : ref) : sibling_inv h p -> NoDup (kids h p).
Proof.
  intros Hinv. apply NoDup_alt. intros i j c Hi Hj.
  destruct (Nat.lt_trichotomy i j) as [Hlt|[Heq|Hgt]]; [exfalso|exact Heq|exfalso].
  - eapply (sibling_inv_distinct h p Hinv _ i j c); eauto.
  - eapply (sibling_inv_distinct h p Hinv _ j i c); eauto.
Qed.

Lemma before_lookup (cs : list ref) (i : nat) (b : ref) :
  before cs i = Some b -> exists j, i = S j /\ cs !! j = Some b.
Proof. destruct i as [|j]; simpl; [discriminate|]. eauto. Qed.

Lemma insertChild_ok (h : Heap) (p c : ref) (i : nat) :
  is_general h p -> (c < length h)%nat ->
  (i < length (kids h p))%nat ->
  (forall b, before (kids h p) i = Some b -> (b < length h)%nat) ->
  exists h',
    insertChild (Some p) (Some c) (Z.of_nat i) h = (Ok tt, h') /\
    length h' = length h /\
    (forall r, scalarsOf h' r = scalarsOf h r) /\
    (forall r, childrenOf h' r
               = if decide (r = p)
                 then Some (take i (kids h p) ++ c :: drop i (kids h p))
                 else childrenOf h r) /\
    (forall r, parentOf h' r = if decide (r = c) then Some p else parentOf h r) /\
    (forall r, nextOf h' r
               = if decide (before (kids h p) i = Some r) then Some c
                 else if decide (r = c) then kids h p !! i else nextOf h r).
Proof.
  intros (pn & Hp & Ht) Hc Hi Hb.
  destruct (ensure_childNodes_ok p h pn Hp)
    as (h1 & E1 & _ & L1 & C1 & C1' & S1 & P1 & N1).
  assert (Hplen : (p < length h)%nat) by (apply lookup_lt_is_Some; eauto).
  set (cs := kids h p) in *.
  unfold insertChild.
  step_with ltac:(apply get_node_ok; exact Hp).
  rewrite bind_lift, Ht.
  step_with ltac:(exact E1).
  step_with ltac:(apply read_childNodes_ok; exact C1).
  destruct (Z.eqb_spec (Z.of_nat i) (Z.of_nat (length cs))); [lia|].
  destruct (Z.gtb_spec (Z.of_nat i) (Z.of_nat (length cs))); [lia|].
  do 2 step_update.
  rewrite nthZ_of_nat.
  destruct i as [|j].
  - simpl (0 >? 0). cbv iota.
    step_with ltac:(reflexivity).
    step_with ltac:(apply read_childNodes_ok; autorewrite with views; exact C1).
    rewrite (splice_insert_one cs 0 c) by lia.
    eexists. split; [apply update_ok; len|].
    repeat split; intros; autorewrite with views; auto.
    + destruct (decide (r = p)); [reflexivity|]. auto.
    + destruct (decide (r = c)); [reflexivity|]. auto.
    + destruct (decide (before cs 0 = Some r)) as [E|_]; [discriminate E|].
      destruct (decide (r = c)); [reflexivity|]. auto.
  - destruct (Z.gtb_spec (Z.of_nat (S j)) 0); [|lia].
    replace (Z.of_nat (S j) - 1) with (Z.of_nat j) by lia.
    rewrite nthZ_of_nat.
    assert (Hj : exists b, cs !! j = Some b) by (apply lookup_lt_is_Some; lia).
    destruct Hj as [b Hj]. rewrite Hj. specialize (Hb b Hj).
    step_update.
    step_with ltac:(apply read_childNodes_ok; autorewrite with views; exact C1).
    rewrite (splice_insert_one cs (S j) c) by lia.
    eexists. split; [apply update_ok; len|].
    repeat split; intros; autorewrite with views; auto.
    + destruct (decide (r = p)); [reflexivity|]. auto.
    + destruct (decide (r = c)); [reflexivity|]. auto.
    + simpl before. rewrite Hj.
      destruct (decide (Some b = Some r)) as [E|E], (decide (r = b)) as [E'|E'];
        try congruence.
      destruct (decide (r = c)); [reflexivity|]. auto.
Qed.

(** A successful [appendChild] had a non-text parent and an allocated
    child. *)
Lemma appendChild_inv (h h' : Heap) (p c : ref) :
  appendChild (Some p) (Some c) h = (Ok tt, h') ->
  is_general h p /\ (c < length h)%nat.
Proof.
  intros H. unfold appendChild in H.
  destruct (h !! p) as [pn|] eqn:Hp.
  2:{ unfold bind at 1, get_node in H. rewrite Hp in H. discriminate. }
  erewrite bind_ok in H by (apply get_node_ok; exact Hp).
  rewrite bind_lift in H.
  destruct (isTextNode pn) as [[|]| | |] eqn:Ht; try discriminate.
  split; [exists pn; auto|].
  destruct (ensure_childNodes_ok p h pn Hp) as (h1 & E1 & _ & L1 & C1 & _).
  erewrite bind_ok in H by exact E1.
  erewrite bind_ok in H by (apply read_childNodes_ok; exact C1).
  destruct (le_lt_dec (length h) c) as [Hge|]; [exfalso|assumption].
  destruct (last_elem (kids h p)) as [l|].
  - destruct (le_lt_dec (length h1) l) as [Hl|Hl].
    + rewrite (bind_stuck _ _ _ _ (update_stuck _ _ _ Hl)) in H. discriminate.
    + erewrite bind_ok in H by (apply update_ok; exact Hl).
      erewrite bind_stuck in H; [discriminate|].
      apply update_stuck. len.
  - erewrite bind_ok in H by reflexivity.
    erewrite bind_stuck in H; [discriminate|].
    apply update_stuck. len.
Qed.

(** A successful [insertChild] had a non-text parent, an allocated child and
    an index not above the child count. *)
Lemma insertChild_inv (h h' : Heap) (p c : ref) (childIndex : Z) :
  insertChild (Some p) (Some c) childIndex h = (Ok tt, h') ->
  is_general h p /\ (c < length h)%nat /\ childIndex <= Z.of_nat (length (kids h p)).
Proof.
  intros H.
  destruct (Z.eqb_spec childIndex (Z.of_nat (length (kids h p)))) as [->|Hne].
  { rewrite insertChild_at_end in H. apply appendChild_inv in H as [? ?].
    repeat split; auto. lia. }
  unfold insertChild in H.
  destruct (h !! p) as [pn|] eqn:Hp.
  2:{ unfold bind at 1, get_node in H. rewrite Hp in H. discriminate. }
  erewrite bind_ok in H by (apply get_node_ok; exact Hp).
  rewrite bind_lift in H.
  destruct (isTextNode pn) as [[|]| | |] eqn:Ht; try discriminate.
  split; [exists pn; auto|].
  destruct (ensure_childNodes_ok p h pn Hp) as (h1 & E1 & _ & L1 & C1 & _).
  erewrite bind_ok in H by exact E1.
  erewrite bind_ok in H by (apply read_childNodes_ok; exact C1).
  destruct (Z.eqb_spec childIndex (Z.of_nat (length (kids h p)))); [lia|].
  destruct (Z.gtb_spec childIndex (Z.of_nat (length (kids h p)))); [discriminate|].
  split; [|lia].
  destruct (le_lt_dec (length h) c) as [Hge|]; [exfalso|assumption].
  erewrite bind_stuck in H; [discriminate|].
  apply update_stuck. lia.
Qed.

Lemma lookup_inserted {A} (l : list A) (i j : nat) (x : A) :
  (i <= length l)%nat ->
  (take i l ++ x :: drop i l) !! j
  = if decide (j < i)%nat then l !! j
    else if decide (j = i) then Some x else l !! Nat.pred j.
Proof.
  intros Hi.
  assert (Hlen : length (take i l) = i) by (rewrite length_take; lia).
  destruct (decide (j < i)%nat) as [Hlt|Hge].
  - rewrite lookup_app_l by lia. apply lookup_take_lt. exact Hlt.
  - rewrite lookup_app_r by lia. rewrite Hlen.
    destruct (decide (j = i)) as [->|Hne].
    + rewrite Nat.sub_diag. reflexivity.
    + destruct (j - i)%nat as [|k] eqn:Ek; [lia|]. simpl.
      rewrite lookup_drop. f_equal. lia.
Qed.

Lemma sibling_inv_append (h h' : Heap) (p c : ref) :
  sibling_inv h p -> c ∉ kids h p ->
  appendChild (Some p) (Some c) h = (Ok tt, h') ->
  sibling_inv h' p.
Proof.
  intros Hinv Hnotin H.
  pose proof (sibling_inv_NoDup h p Hinv) as Hnd.
  destruct (appendChild_inv _ _ _ _ H) as [Hg Hc].
  destruct (appendChild_ok h p c Hg Hc) as (h2 & E & L & _ & C & _ & N).
  { intros l Hl. rewrite last_lookup in Hl. apply (Hinv _ _ Hl). }
  rewrite E in H. injection H as <-.
  set (cs := kids h p) in *.
  assert (Hk : kids h2 p = cs ++ [c]).
  { unfold kids at 1. rewrite C, decide_True by reflexivity. reflexivity. }
  unfold sibling_inv. rewrite Hk. intros i x Hi.
  destruct (decide (i < length cs)%nat) as [Hlt|Hge].
  - rewrite lookup_app_l in Hi by exact Hlt.
    destruct (Hinv i x Hi) as [Hx Nx]. split; [lia|].
    assert (x <> c) by (intros ->; apply Hnotin, list_elem_of_lookup; eauto).
    rewrite N, decide_False by assumption.
    destruct (decide (last cs = Some x)) as [El|El].
    + rewrite last_lookup in El.
      pose proof (NoDup_lookup _ _ _ _ Hnd Hi El) as ->.
      rewrite lookup_app_r by lia.
      replace (S (Nat.pred (length cs)) - length cs)%nat with 0%nat by lia. reflexivity.
    + assert (S i < length cs)%nat.
      { destruct (decide (S i = length cs)) as [Ei|]; [|lia].
        exfalso. apply El. rewrite last_lookup, <- Ei. exact Hi. }
      rewrite lookup_app_l by assumption. exact Nx.
  - assert (i = length cs) as ->.
    { apply lookup_lt_Some in Hi. rewrite length_app in Hi. simpl in Hi. lia. }
    rewrite lookup_app_r in Hi by lia. rewrite Nat.sub_diag in Hi.
    injection Hi as <-. split; [lia|].
    rewrite N, decide_True by reflexivity.
    symmetry. apply lookup_ge_None. rewrite length_app. simpl. lia.
Qed.

Lemma sibling_inv_insert (h h' : Heap) (p c : ref) (childIndex : Z) :
  sibling_inv h p -> c ∉ kids h p -> 0 <= childIndex ->
  insertChild (Some p) (Some c) childIndex h = (Ok tt, h') ->
  sibling_inv h' p.
Proof.
  intros Hinv Hnotin Hpos H.
  pose proof (sibling_inv_NoDup h p Hinv) as Hnd.
  destruct (insertChild_inv _ _ _ _ _ H) as (Hg & Hc & Hle).
  destruct (Z.eqb_spec childIndex (Z.of_nat (length (kids h p)))) as [->|Hne].
  { rewrite insertChild_at_end in H. eapply sibling_inv_append; eauto. }
  assert (Hidx : exists i, childIndex = Z.of_nat i /\ (i < length (kids h p))%nat).
  { exists (Z.to_nat childIndex). lia. }
  destruct Hidx as (i & -> & Hi).
  destruct (insertChild_ok h p c i Hg Hc Hi) as (h2 & E & L & _ & C & _ & N).
  { intros b Hb. apply before_lookup in Hb as (j & _ & Hj). apply (Hinv _ _ Hj). }
  rewrite E in H. injection H as <-.
  set (cs := kids h p) in *.
  assert (Hk : kids h2 p = take i cs ++ c :: drop i cs).
  { unfold kids at 1. rewrite C, decide_True by reflexivity. reflexivity. }
  unfold sibling_inv. rewrite Hk. intros j x Hj.
  rewrite !lookup_inserted in * by lia.
  assert (Hbc : before cs i <> Some c).
  { intros Hb. apply Hnotin. eapply before_elem. exact Hb. }
  destruct (decide (j < i)%nat) as [Hlt|Hge].
  - destruct (Hinv j x Hj) as [Hx Nx]. split; [lia|].
    assert (x <> c) by (intros ->; apply Hnotin, list_elem_of_lookup; eauto).
    rewrite N.
    destruct (decide (before cs i = Some x)) as [Eb|Eb].
    + apply before_lookup in Eb as (j' & -> & Hj').
      pose proof (NoDup_lookup _ _ _ _ Hnd Hj Hj') as ->.
      rewrite decide_False by lia. rewrite decide_True by reflexivity. reflexivity.
    + rewrite (decide_False (P := x = c)) by assumption.
      assert (S j < i)%nat.
      { destruct (decide (S j = i)) as [Ei|]; [|lia].
        exfalso. apply Eb. rewrite <- Ei. exact Hj. }
      rewrite decide_True by assumption. exact Nx.
  - destruct (decide (j = i)) as [->|Hne'].
    + injection Hj as <-. split; [lia|].
      rewrite N. rewrite decide_False by exact Hbc.
      rewrite decide_True by reflexivity.
      rewrite decide_False by lia. rewrite decide_False by lia. reflexivity.
    + destruct j as [|j]; [lia|]. simpl in Hj.
      destruct (Hinv j x Hj) as [Hx Nx]. split; [lia|].
      assert (x <> c) by (intros ->; apply Hnotin, list_elem_of_lookup; eauto).
      rewrite N.
      destruct (decide (before cs i = Some x)) as [Eb|Eb].
      { apply before_lookup in Eb as (j' & -> & Hj').
        pose proof (NoDup_lookup _ _ _ _ Hnd Hj Hj'). lia. }
      rewrite (decide_False (P := x = c)) by assumption.
      rewrite decide_False by lia. rewrite decide_False by lia. exact Nx.
Qed.

Lemma sibling_inv_remove (h h' : Heap) (p : ref) (sel : ChildOrIndex) (res : option ref) :
  sibling_inv h p ->
  removeChild (Some p) (Some sel) h = (Ok res, h') ->
  sibling_inv h' p.
Proof.
  intros Hinv H.
  pose proof (sibling_inv_NoDup h p Hinv) as Hnd.
  destruct (removeChild_inv _ _ _ _ _ H) as (cs & i & c & Hcs & Hsel & Hi & Hc & Hb).
  destruct (removeChild_ok h p sel cs i c Hcs Hsel Hi Hc Hb)
    as (h2 & E & _ & L & _ & C & _ & N).
  rewrite E in H. injection H as _ <-.
  unfold sibling_inv in Hinv.
  rewrite (kids_childrenOf _ _ _ Hcs) in *.
  assert (Hk : kids h2 p = delete i cs).
  { unfold kids at 1. rewrite C, decide_True by reflexivity. reflexivity. }
  unfold sibling_inv. rewrite Hk. intros j x Hj.
  destruct (decide (j < i)%nat) as [Hlt|Hge].
  - rewrite list_lookup_delete_lt in Hj by exact Hlt.
    destruct (Hinv j x Hj) as [Hx Nx]. split; [lia|].
    assert (x <> c).
    { intros ->. pose proof (NoDup_lookup _ _ _ _ Hnd Hj Hi). lia. }
    rewrite N, decide_False by assumption.
    destruct (decide (before cs i = Some x)) as [Eb|Eb].
    + apply before_lookup in Eb as (j' & -> & Hj').
      pose proof (NoDup_lookup _ _ _ _ Hnd Hj Hj') as ->.
      rewrite list_lookup_delete_ge by lia.
      destruct (Hinv _ _ Hi) as [_ Nc]. exact Nc.
    + assert (S j < i)%nat.
      { destruct (decide (S j = i)) as [Ei|]; [|lia].
        exfalso. apply Eb. rewrite <- Ei. exact Hj. }
      rewrite list_lookup_delete_lt by assumption. exact Nx.
  - rewrite list_lookup_delete_ge in Hj by lia.
    destruct (Hinv _ x Hj) as [Hx Nx]. split; [lia|].
    assert (x <> c).
    { intros ->. pose proof (NoDup_lookup _ _ _ _ Hnd Hj Hi). lia. }
    rewrite N, decide_False by assumption.
    destruct (decide (before cs i = Some x)) as [Eb|Eb].
    { apply before_lookup in Eb as (j' & -> & Hj').
      pose proof (NoDup_lookup _ _ _ _ Hnd Hj Hj'). lia. }
    rewrite list_lookup_delete_ge by lia. exact Nx.
Qed.

(** C3 (as the code has it): when the children of [parent] satisfy the
    sibling-link invariant, it holds again after every successful
    [removeChild] on [parent], after every successful [appendChild] of a
    node that is not already a child of [parent], and after every
    successful [insertChild] of such a node at a non-negative index. *)
Theorem mutations_keep_sibling_inv :
  forall (h : Heap) (p : ref),
    sibling_inv h p ->
    (forall c h', c ∉ kids h p ->
        appendChild (Some p) (Some c) h = (Ok tt, h') -> sibling_inv h' p) /\
    (forall c childIndex h', c ∉ kids h p -> 0 <= childIndex ->
        insertChild (Some p) (Some c) childIndex h = (Ok tt, h') -> sibling_inv h' p) /\
    (forall sel res h',
        removeChild (Some p) (Some sel) h = (Ok res, h') -> sibling_inv h' p).
Proof.
  intros h p Hinv. split; [|split].
  - intros c h' Hc H. eapply sibling_inv_append; eauto.
  - intros c i h' Hc Hi H. eapply sibling_inv_insert; eauto.
  - intros sel res h' H. eapply sibling_inv_remove; eauto.
Qed.

Lemma sample_sibling_inv : sibling_inv sample_heap_detached 0%nat.
Proof.
  unfold sibling_inv.
  change (kids sample_heap_detached 0%nat) with [1%nat; 2%nat; 4%nat].
  intros i x Hi.
  destruct i as [|[|[|i]]]; simpl in Hi; try discriminate;
    injection Hi as <-; (split; [vm_compute; lia|reflexivity]).
Qed.

(** Inserting the detached node in the middle of [p]'s children, and
    removing [b] from them. *)
Lemma mutations_keep_sibling_inv_witness :
  sibling_inv (snd (insertChild (Some 0%nat) (Some 5%nat) 1 sample_heap_detached)) 0%nat /\
  sibling_inv (snd (appendChild (Some 0%nat) (Some 5%nat) sample_heap_detached)) 0%nat /\
  sibling_inv (snd (removeChild (Some 0%nat) (Some (ByIndex 1)) sample_heap_detached)) 0%nat.
Proof.
  destruct (mutations_keep_sibling_inv sample_heap_detached 0%nat sample_sibling_inv)
    as (Ha & Hi & Hr).
  assert (Hnotin : 5%nat ∉ kids sample_heap_detached 0%nat).
  { change (kids sample_heap_detached 0%nat) with [1%nat; 2%nat; 4%nat].
    intros Hin. repeat (apply elem_of_cons in Hin as [Hin|Hin]; [discriminate|]).
    apply elem_of_nil in Hin. exact Hin. }
  split; [|split].
  - apply (Hi 5%nat 1); [exact Hnotin|lia|vm_compute; reflexivity].
  - apply (Ha 5%nat); [exact Hnotin|vm_compute; reflexivity].
  - apply (Hr (ByIndex 1) (Some 2%nat)). vm_compute. reflexivity.
Defined.

(** C3 as stated fails: [appendChild] of a node that is already a child,
    and [insertChild] at a negative index, both succeed and leave the
    children of the parent with broken sibling links. *)
Lemma sibling_inv_broken :
  sibling_inv sample_heap_detached 0%nat /\
  (exists h', appendChild (Some 0%nat) (Some 1%nat) sample_heap_detached = (Ok tt, h') /\
              kids h' 0%nat = [1%nat; 2%nat; 4%nat; 1%nat] /\
              nextOf h' 1%nat = None /\
              ~ sibling_inv h' 0%nat) /\
  (exists h', insertChild (Some 0%nat) (Some 5%nat) (-1) sample_heap_detached = (Ok tt, h') /\
              kids h' 0%nat = [1%nat; 2%nat; 5%nat; 4%nat] /\
              nextOf h' 2%nat = Some 4%nat /\
              ~ sibling_inv h' 0%nat).
Proof.
  split; [exact sample_sibling_inv|]. split.
  - eexists. split; [vm_compute; reflexivity|].
    split; [reflexivity|]. split; [reflexivity|].
    intros Hinv. destruct (Hinv 0%nat 1%nat eq_refl) as [_ N]. discriminate N.
  - eexists. split; [vm_compute; reflexivity|].
    split; [reflexivity|]. split; [reflexivity|].
    intros Hinv. destruct (Hinv 1%nat 2%nat eq_refl) as [_ N]. discriminate N.
Qed.

(** ** Descendant paths *)

Lemma getDescendantPath_loop_ok (h : Heap) (root node : ref) (path : list Z) :
  descends h root node path ->
  forall (fuel : nat) (acc : list Z),
    (length path <= fuel)%nat ->
    getDescendantPath_loop fuel root node acc h = (Ok (acc ++ rev path), h).
Proof.
  induction 1 as [|node parent cs path Hne Hpar Hcs Hd IH]; intros fuel acc Hfuel.
  - destruct fuel; simpl; rewrite Nat.eqb_refl, app_nil_r; reflexivity.
  - rewrite length_app in Hfuel. simpl in Hfuel.
    destruct fuel as [|fuel]; [lia|]. simpl.
    destruct (Nat.eqb_spec node root) as [|_]; [congruence|].
    assert (Hn : exists n, h !! node = Some n /\ parentNode n = Some parent).
    { unfold parentOf in Hpar. destruct (h !! node) as [n|]; [eauto|discriminate]. }
    destruct Hn as (n & Hn & Hnp).
    step_with ltac:(apply get_node_ok; exact Hn).
    rewrite Hnp.
    step_with ltac:(apply read_childNodes_ok; exact Hcs).
    rewrite IH by lia. rewrite rev_app_distr. simpl.
    rewrite <- app_assoc. reflexivity.
Qed.

Lemma getDescendantPath_ok (h : Heap) (root node : ref) (path : list Z) (fuel : nat) :
  descends h root node path -> (length path <= fuel)%nat ->
  getDescendantPath fuel root node h = (Ok path, h).
Proof.
  intros Hd Hfuel. unfold getDescendantPath.
  step_with ltac:(apply getDescendantPath_loop_ok; eassumption).
  simpl. rewrite rev_involutive. reflexivity.
Qed.

(** The first index of a path is the index in [root.childNodes] of a node
    whose parent is [root]. *)
Lemma descends_head (h : Heap) (root node : ref) (k : Z) (rest : list Z) :
  descends h root node (k :: rest) ->
  exists cs a, childrenOf h root = Some cs /\ parentOf h a = Some root /\
               indexOf cs a = k.
Proof.
  intros Hd. remember (k :: rest) as path eqn:Ep. revert k rest Ep.
  induction Hd as [|node parent cs path Hne Hpar Hcs Hd IH]; intros k rest Ep.
  - discriminate.
  - destruct path as [|k' path'].
    + inversion Hd; subst.
      * simpl in Ep. injection Ep as <- _. eauto.
      * exfalso.
        match goal with
        | H : ?l ++ _ = [] |- _ => destruct l; discriminate H
        | H : [] = ?l ++ _ |- _ => destruct l; discriminate H
        end.
    + simpl in Ep. injection Ep as -> _. eapply IH. reflexivity.
Qed.

(** ** Shallow clone *)

Lemma alter_last (h : Heap) (n : XmlNode) (f : XmlNode -> XmlNode) :
  alter f (length h) (h ++ [n]) = h ++ [f n].
Proof.
  induction h as [|x h IH]; simpl; [reflexivity|].
  f_equal. exact IH.
Qed.

Lemma cloneNode_shallow_ok (fuel : nat) (h : Heap) (r : ref) (n : XmlNode) :
  h !! r = Some n ->
  cloneNode fuel (Some r) false h = (Ok (length h), h ++ [shallow_copy n]).
Proof.
  intros Hr. unfold cloneNode. change (negb false) with true. cbv iota.
  step_with ltac:(apply get_node_ok; exact Hr).
  step_with ltac:(reflexivity).
  assert (Hlen : forall m, (length h < length (h ++ [m]))%nat).
  { intros m. rewrite length_app. simpl. lia. }
  step_with ltac:(apply update_ok; apply Hlen). rewrite alter_last.
  step_with ltac:(apply update_ok; apply Hlen). rewrite alter_last.
  step_with ltac:(apply update_ok; apply Hlen). rewrite alter_last.
  reflexivity.
Qed.

Section Extend.
Context (h : Heap) (n : XmlNode) (r : ref) (Hr : (r < length h)%nat).

Lemma childrenOf_extend : childrenOf (h ++ [n]) r = childrenOf h r.
Proof. unfold childrenOf. rewrite lookup_app_l by exact Hr. reflexivity. Qed.

Lemma kids_extend : kids (h ++ [n]) r = kids h r.
Proof. unfold kids. rewrite childrenOf_extend. reflexivity. Qed.

Lemma parentOf_extend : parentOf (h ++ [n]) r = parentOf h r.
Proof. unfold parentOf. rewrite lookup_app_l by exact Hr. reflexivity. Qed.

Lemma nextOf_extend : nextOf (h ++ [n]) r = nextOf h r.
Proof. unfold nextOf. rewrite lookup_app_l by exact Hr. reflexivity. Qed.

Lemma scalarsOf_extend : scalarsOf (h ++ [n]) r = scalarsOf h r.
Proof. unfold scalarsOf. rewrite lookup_app_l by exact Hr. reflexivity. Qed.
End Extend.

Lemma lookup_fresh (h : Heap) (n : XmlNode) : (h ++ [n]) !! length h = Some n.
Proof. rewrite lookup_app_r by lia. rewrite Nat.sub_diag. reflexivity. Qed.

(** ** Moving children from one parent to another *)

Lemma NoDup_delete_notin (cs : list ref) (i : nat) (x : ref) :
  NoDup cs -> cs !! i = Some x -> (x ∉ delete i cs) /\ NoDup (delete i cs).
Proof.
  intros Hnd Hi. rewrite delete_take_drop.
  rewrite <- (take_drop_middle cs i x Hi) in Hnd.
  apply NoDup_app in Hnd as (Ht & Hd & Hr).
  apply NoDup_cons in Hr as [Hx Hr].
  split.
  - intros Hin. apply elem_of_app in Hin as [Hin|Hin]; [|contradiction].
    apply (Hd x Hin). left.
  - apply NoDup_app. split; [exact Ht|]. split; [|exact Hr].
    intros y Hy Hy'. apply (Hd y Hy). right. exact Hy'.
Qed.

Lemma elem_of_delete (cs : list ref) (i : nat) (x : ref) : x ∈ delete i cs -> x ∈ cs.
Proof.
  rewrite delete_take_drop. intros Hin.
  apply elem_of_app in Hin as [Hin|Hin].
  - eapply subseteq_take. exact Hin.
  - eapply subseteq_drop. exact Hin.
Qed.

(** [remove(x)] for a child [x] of a well-formed parent. *)
Lemma remove_ok (h : Heap) (p x : ref) (i : nat) :
  NoDup (kids h p) ->
  (forall y, y ∈ kids h p -> parentOf h y = Some p) ->
  kids h p !! i = Some x ->
  exists h',
    remove (Some x) h = (Ok tt, h') /\
    length h' = length h /\
    (forall r, scalarsOf h' r = scalarsOf h r) /\
    (forall r, childrenOf h' r
               = if decide (r = p) then Some (delete i (kids h p)) else childrenOf h r) /\
    (forall r, parentOf h' r = if decide (r = x) then None else parentOf h r).
Proof.
  intros Hnd Hpar Hi.
  assert (Hx : parentOf h x = Some p) by (apply Hpar, list_elem_of_lookup; eauto).
  assert (Hcs : childrenOf h p = Some (kids h p)).
  { unfold kids in *. destruct (childrenOf h p); [reflexivity|discriminate]. }
  assert (Hn : exists n, h !! x = Some n /\ parentNode n = Some p).
  { unfold parentOf in Hx. destruct (h !! x) as [n|]; [eauto|discriminate]. }
  destruct Hn as (n & Hn & Hnp).
  destruct (removeChild_ok h p (ByNode x) (kids h p) i x Hcs)
    as (h' & E & _ & L & S & C & P & _).
  - simpl. apply indexOf_NoDup; assumption.
  - exact Hi.
  - eapply parentOf_allocated. exact Hx.
  - intros b Hb. eapply parentOf_allocated. apply Hpar. eapply before_elem. exact Hb.
  - exists h'. split; [|auto].
    unfold remove. step_with ltac:(apply get_node_ok; exact Hn).
    rewrite Hnp. step_with ltac:(exact E). reflexivity.
Qed.

Lemma move_child (h : Heap) (root clone : ref) (i : nat) (cur : ref) :
  split_state h root clone ->
  kids h root !! i = Some cur ->
  exists h1 h',
    remove (Some cur) h = (Ok tt, h1) /\
    appendChild (Some clone) (Some cur) h1 = (Ok tt, h') /\
    split_state h' root clone /\
    kids h' root = delete i (kids h root) /\
    kids h' clone = kids h clone ++ [cur] /\
    length h' = length h /\
    (forall r, scalarsOf h' r = scalarsOf h r) /\
    (forall r, r <> cur -> parentOf h' r = parentOf h r).
Proof.
  intros [Hroot Hclone Hne Hcont Hnd Hpar Hmoved] Hi.
  destruct (remove_ok h root cur i Hnd Hpar Hi) as (h1 & E1 & L1 & S1 & C1 & P1).
  assert (Hcur : (cur < length h)%nat).
  { eapply parentOf_allocated. apply Hpar, list_elem_of_lookup. eauto. }
  assert (Hk1 : kids h1 clone = kids h clone).
  { unfold kids. rewrite C1, decide_False by congruence. reflexivity. }
  destruct (appendChild_ok h1 clone cur) as (h2 & E2 & L2 & S2 & C2 & P2 & _).
  - eapply is_general_scalars; [apply S1|exact Hclone].
  - lia.
  - intros l Hl. rewrite Hk1, last_lookup in Hl. rewrite L1.
    eapply parentOf_allocated. apply Hmoved, list_elem_of_lookup. eauto.
  - assert (Hkr : kids h2 root = delete i (kids h root)).
    { unfold kids at 1. rewrite C2, decide_False by assumption.
      rewrite C1, decide_True by reflexivity. reflexivity. }
    assert (Hkc : kids h2 clone = kids h clone ++ [cur]).
    { unfold kids at 1. rewrite C2, decide_True by reflexivity.
      rewrite Hk1. reflexivity. }
    destruct (NoDup_delete_notin _ _ _ Hnd Hi) as [Hnotin Hnd'].
    exists h1, h2. split; [exact E1|]. split; [exact E2|].
    split; [|repeat split].
    + constructor.
      * eapply is_general_scalars; [|exact Hroot]. rewrite S2. apply S1.
      * eapply is_general_scalars; [|exact Hclone]. rewrite S2. apply S1.
      * exact Hne.
      * rewrite C2, decide_False by assumption.
        rewrite C1, decide_True by reflexivity. rewrite Hkr. reflexivity.
      * rewrite Hkr. exact Hnd'.
      * intros x Hx. rewrite Hkr in Hx.
        assert (x <> cur) by (intros ->; contradiction).
        rewrite P2, decide_False by assumption.
        rewrite P1, decide_False by assumption.
        apply Hpar. eapply elem_of_delete. exact Hx.
      * intros x Hx. rewrite Hkc in Hx. rewrite P2.
        destruct (decide (x = cur)) as [|Hxc]; [reflexivity|].
        rewrite P1, decide_False by assumption.
        apply elem_of_app in Hx as [Hx|Hx]; [apply Hmoved; exact Hx|].
        apply list_elem_of_singleton in Hx. contradiction.
    + exact Hkr.
    + exact Hkc.
    + lia.
    + intros r. rewrite S2. apply S1.
    + intros r Hr. rewrite P2, decide_False by assumption.
      rewrite P1, decide_False by assumption. reflexivity.
Qed.

Lemma splitAfter_loop_eq (fuel : nat) (root clone : ref) (childIndex : option Z) :
  splitAfter_loop fuel root clone childIndex
  = (cs <- read_childNodes root ;;
     match childIndex with
     | Some i =>
         if i <? Z.of_nat (length cs) then
           match fuel with
           | O => out_of_fuel
           | S fuel' =>
               remove (nthZ cs i) ;;;
               appendChild (Some clone) (nthZ cs i) ;;;
               splitAfter_loop fuel' root clone childIndex
           end
         else ret tt
     | None => ret tt
     end).
Proof. destruct fuel; reflexivity. Qed.

Lemma splitAfter_loop_ok (root clone : ref) (pre post : list ref) :
  forall (h : Heap) (fuel : nat),
    split_state h root clone ->
    kids h root = pre ++ post ->
    (length post <= fuel)%nat ->
    exists h',
      splitAfter_loop fuel root clone (Some (Z.of_nat (length pre))) h = (Ok tt, h') /\
      split_state h' root clone /\
      kids h' root = pre /\
      kids h' clone = kids h clone ++ post /\
      length h' = length h /\
      (forall r, scalarsOf h' r = scalarsOf h r) /\
      (forall r, r ∉ post -> parentOf h' r = parentOf h r).
Proof.
  induction post as [|x post IH]; intros h fuel Hss Hk Hfuel.
  - exists h. rewrite app_nil_r in *.
    split; [|split; [exact Hss|repeat split; auto]].
    assert (Hstep : forall f, splitAfter_loop f root clone (Some (Z.of_nat (length pre))) h
                              = (Ok tt, h)).
    { intros f. rewrite splitAfter_loop_eq.
      erewrite bind_ok by (apply read_childNodes_ok; apply (ss_container _ _ _ Hss)).
      rewrite Hk. destruct (Z.ltb_spec (Z.of_nat (length pre)) (Z.of_nat (length pre)));
        [lia|reflexivity]. }
    apply Hstep.
  - destruct fuel as [|fuel]; [simpl in Hfuel; lia|]. simpl in Hfuel.
    assert (Hi : kids h root !! length pre = Some x).
    { rewrite Hk, lookup_app_r by lia. rewrite Nat.sub_diag. reflexivity. }
    destruct (move_child h root clone (length pre) x Hss Hi)
      as (h1 & h2 & E1 & E2 & Hss2 & Hkr & Hkc & L2 & S2 & P2).
    assert (Hkr' : kids h2 root = pre ++ post).
    { rewrite Hkr, Hk, delete_take_drop, take_app_length.
      rewrite drop_app_ge by lia.
      replace (S (length pre) - length pre)%nat with 1%nat by lia. reflexivity. }
    destruct (IH h2 fuel Hss2 Hkr' ltac:(lia))
      as (h3 & E3 & Hss3 & Hkr3 & Hkc3 & L3 & S3 & P3).
    exists h3. split; [|split; [exact Hss3|repeat split]].
    + rewrite splitAfter_loop_eq.
      erewrite bind_ok by (apply read_childNodes_ok; apply (ss_container _ _ _ Hss)).
      destruct (Z.ltb_spec (Z.of_nat (length pre)) (Z.of_nat (length (kids h root))));
        [|rewrite Hk, length_app in *; simpl in *; lia].
      rewrite nthZ_of_nat, Hi.
      erewrite bind_ok by exact E1.
      erewrite bind_ok by exact E2.
      exact E3.
    + exact Hkr3.
    + rewrite Hkc3, Hkc, <- app_assoc. reflexivity.
    + lia.
    + intros r. rewrite S3. apply S2.
    + intros r Hr. apply not_elem_of_cons in Hr as [Hne Hr].
      rewrite P3 by exact Hr. apply P2. exact Hne.
Qed.

Lemma split_state_init (h : Heap) (root : ref) (n : XmlNode) (cs : list ref) :
  h !! root = Some n -> isTextNode n = Ok false ->
  childrenOf h root = Some cs -> NoDup cs ->
  (forall x, x ∈ cs -> parentOf h x = Some root) ->
  split_state (h ++ [shallow_copy n]) root (length h) /\
  kids (h ++ [shallow_copy n]) root = cs /\
  kids (h ++ [shallow_copy n]) (length h) = [] /\
  scalarsOf (h ++ [shallow_copy n]) (length h) = scalarsOf h root /\
  (forall x, (x < length h)%nat ->
             parentOf (h ++ [shallow_copy n]) x = parentOf h x).
Proof.
  intros Hr Ht Hcs Hnd Hpar.
  assert (Hlt : (root < length h)%nat) by (apply lookup_lt_is_Some; eauto).
  assert (Hkr : kids (h ++ [shallow_copy n]) root = cs).
  { rewrite kids_extend by exact Hlt. apply kids_childrenOf. exact Hcs. }
  assert (Hkc : kids (h ++ [shallow_copy n]) (length h) = []).
  { unfold kids, childrenOf. rewrite lookup_fresh. reflexivity. }
  split; [|split; [exact Hkr|split; [exact Hkc|split]]].
  - constructor.
    + exists n. split; [|exact Ht]. rewrite lookup_app_l by exact Hlt. exact Hr.
    + exists (shallow_copy n). split; [apply lookup_fresh|].
      rewrite <- Ht. apply isTextNode_scalars. reflexivity.
    + lia.
    + rewrite Hkr, childrenOf_extend by exact Hlt. exact Hcs.
    + rewrite Hkr. exact Hnd.
    + intros x Hx. rewrite Hkr in Hx.
      rewrite parentOf_extend; [apply Hpar; exact Hx|].
      eapply parentOf_allocated. apply Hpar. exact Hx.
    + intros x Hx. rewrite Hkc in Hx. apply elem_of_nil in Hx. destruct Hx.
  - unfold scalarsOf. rewrite lookup_fresh, Hr. reflexivity.
  - intros x Hx. apply parentOf_extend. exact Hx.
Qed.

(** C1 (as the code has it): for a non-text [root] of a well-formed tree
    (its children are distinct and name it as their parent) and a marker
    whose top-level ancestor is the child of [root] at index [k],
    [splitByChild(root, marker, true, removeMarkerNode)] returns a fresh
    shallow clone of [root] that holds, in order, the children of [root]
    at the indices strictly above [k], now with the clone as parent; [root]
    keeps, in place, its children up to and including index [k], or, when
    [removeMarkerNode] is set, the children below index [k] only. *)
Theorem splitByChild_after_marker :
  forall (h : Heap) (root marker : ref) (k : nat) (rest : list Z)
         (removeMarkerNode : bool) (fuel : nat),
    is_general h root ->
    NoDup (kids h root) ->
    (forall x, x ∈ kids h root -> parentOf h x = Some root) ->
    descends h root marker (Z.of_nat k :: rest) ->
    (length (kids h root) + length rest < fuel)%nat ->
    exists h',
      splitByChild fuel root marker true removeMarkerNode h = (Ok (length h), h') /\
      kids h' (length h) = drop (S k) (kids h root) /\
      kids h' root = (if removeMarkerNode then take k (kids h root)
                      else take (S k) (kids h root)) /\
      scalarsOf h' (length h) = scalarsOf h root /\
      (forall x, x ∈ drop (S k) (kids h root) -> parentOf h' x = Some (length h)) /\
      (forall x, x ∈ kids h' root -> parentOf h' x = Some root).
Proof.
  intros h root marker k rest rm fuel (n & Hn & Ht) Hnd Hpar Hd Hfuel.
  destruct (descends_head _ _ _ _ _ Hd) as (cs & a & Hcs & Ha & Hidx).
  pose proof (kids_childrenOf _ _ _ Hcs) as Hk. rewrite Hk in *.
  pose proof (indexOf_lookup _ _ _ Hidx) as Hka.
  pose proof (lookup_lt_Some _ _ _ Hka) as Hklen.
  destruct (split_state_init h root n cs Hn Ht Hcs Hnd Hpar)
    as (Hss & Hkr & Hkc & Hsc & Hpe).
  set (h1 := h ++ [shallow_copy n]) in *.
  assert (Hsplit : kids h1 root = take (S k) cs ++ drop (S k) cs)
    by (rewrite take_drop; exact Hkr).
  assert (Hlen : length (take (S k) cs) = S k) by (rewrite length_take; lia).
  destruct (splitAfter_loop_ok root (length h) (take (S k) cs) (drop (S k) cs)
              h1 fuel Hss Hsplit)
    as (h2 & E2 & Hss2 & Hkr2 & Hkc2 & L2 & S2 & P2).
  { rewrite length_drop. lia. }
  rewrite Hkc in Hkc2. simpl in Hkc2. rewrite Hlen in E2.
  assert (Hrun : splitByChild fuel root marker true rm h
                 = ((if rm then cs' <- read_childNodes root ;; remove (last_elem cs')
                     else ret tt) ;;; ret (length h)) h2).
  { unfold splitByChild.
    erewrite bind_ok by (apply getDescendantPath_ok; [exact Hd|simpl; lia]).
    erewrite bind_ok by (apply cloneNode_shallow_ok; exact Hn).
    simpl head. simpl option_map.
    replace (Z.of_nat k + 1) with (Z.of_nat (S k)) by lia.
    unfold bind at 1. unfold bind at 1. fold h1. rewrite E2. reflexivity. }
  rewrite Hrun. clear Hrun.
  assert (Hmoved : forall x, x ∈ drop (S k) cs -> parentOf h2 x = Some (length h)).
  { intros x Hx. apply (ss_moved _ _ _ Hss2). rewrite Hkc2. exact Hx. }
  destruct rm.
  - assert (Hlast : last_elem (take (S k) cs) = Some a).
    { unfold last_elem. rewrite last_lookup, Hlen. simpl.
      rewrite lookup_take_lt by lia. exact Hka. }
    assert (Hka2 : kids h2 root !! k = Some a).
    { rewrite Hkr2, lookup_take_lt by lia. exact Hka. }
    destruct (remove_ok h2 root a k) as (h3 & E3 & L3 & S3 & C3 & P3).
    { apply (ss_nodup _ _ _ Hss2). }
    { apply (ss_parent _ _ _ Hss2). }
    { exact Hka2. }
    assert (Hnotin : a ∉ drop (S k) cs).
    { intros Hin. apply list_elem_of_lookup in Hin as [j Hj].
      rewrite lookup_drop in Hj.
      pose proof (NoDup_lookup _ _ _ _ Hnd Hka Hj). lia. }
    assert (Hkr3 : kids h3 root = take k cs).
    { unfold kids at 1. rewrite C3, decide_True by reflexivity. simpl.
      rewrite Hkr2. rewrite delete_take_drop.
      rewrite take_take, Nat.min_l by lia.
      rewrite drop_ge by lia. apply app_nil_r. }
    exists h3. split; [|split; [|split; [exact Hkr3|split; [|split]]]].
    + pose proof (ss_container _ _ _ Hss2) as Hc2. rewrite Hkr2 in Hc2.
      erewrite bind_ok; [reflexivity|].
      erewrite bind_ok by (apply read_childNodes_ok; exact Hc2).
      rewrite Hlast. exact E3.
    + unfold kids at 1. rewrite C3, decide_False by (apply not_eq_sym, (ss_distinct _ _ _ Hss2)).
      fold (kids h2 (length h)). exact Hkc2.
    + rewrite S3, S2. exact Hsc.
    + intros x Hx. rewrite P3.
      rewrite decide_False by (intros ->; contradiction).
      apply Hmoved. exact Hx.
    + intros x Hx. rewrite Hkr3 in Hx. rewrite P3.
      assert (x <> a).
      { intros ->. apply elem_of_take in Hx as (j & Hj & Hlt).
        pose proof (NoDup_lookup _ _ _ _ Hnd Hka Hj). lia. }
      rewrite decide_False by assumption.
      apply (ss_parent _ _ _ Hss2). rewrite Hkr2.
      apply elem_of_take in Hx as (j & Hj & Hlt).
      apply elem_of_take. exists j. split; [exact Hj|lia].
  - exists h2. split; [reflexivity|].
    split; [exact Hkc2|]. split; [exact Hkr2|]. split; [|split].
    + rewrite S2. exact Hsc.
    + exact Hmoved.
    + apply (ss_parent _ _ _ Hss2).
Qed.

(** In [<p>a<b>x</b>c</p>], [x] descends from [p] through [b], the child of
    [p] at index 1. *)
Lemma sample_descends : descends sample_heap 0%nat 3%nat [1; 0].
Proof.
  apply (descends_child sample_heap 0%nat 3%nat 2%nat [3%nat] [1]);
    [discriminate|reflexivity|reflexivity|].
  apply (descends_child sample_heap 0%nat 2%nat 0%nat [1%nat; 2%nat; 4%nat] []);
    [discriminate|reflexivity|reflexivity|].
  apply descends_here.
Qed.

Lemma sample_well_formed :
  is_general sample_heap 0%nat /\
  NoDup (kids sample_heap 0%nat) /\
  (forall x, x ∈ kids sample_heap 0%nat -> parentOf sample_heap x = Some 0%nat).
Proof.
  split; [eexists; split; reflexivity|].
  change (kids sample_heap 0%nat) with [1%nat; 2%nat; 4%nat]. split.
  - repeat (apply NoDup_cons; split;
            [intros Hin; repeat (apply elem_of_cons in Hin as [Hin|Hin]; [discriminate|]);
             apply elem_of_nil in Hin; exact Hin|]).
    apply NoDup_nil. exact I.
  - intros x Hx.
    repeat (apply elem_of_cons in Hx as [->|Hx]; [reflexivity|]).
    apply elem_of_nil in Hx. destruct Hx.
Qed.

(** Splitting [<p>a<b>x</b>c</p>] after [x], removing the marker's
    ancestor [b]: the clone gets [c], [p] keeps [a]. *)
Lemma splitByChild_after_marker_witness :
  exists h',
    splitByChild 10 0%nat 3%nat true true sample_heap = (Ok 5%nat, h') /\
    kids h' 5%nat = [4%nat] /\ kids h' 0%nat = [1%nat].
Proof.
  destruct sample_well_formed as (Hg & Hnd & Hpar).
  destruct (splitByChild_after_marker sample_heap 0%nat 3%nat 1%nat [0] true 10%nat
              Hg Hnd Hpar sample_descends)
    as (h' & E & Kc & Kr & _).
  { vm_compute. lia. }
  exists h'. split; [exact E|]. split; [exact Kc|exact Kr].
Defined.

(** C1 as stated fails: the child at the index of the marker's ancestor is
    not moved into the clone. *)
Lemma splitByChild_after_keeps_ancestor :
  descends sample_heap 0%nat 3%nat [1; 0] /\
  exists h',
    splitByChild 10 0%nat 3%nat true false sample_heap = (Ok 5%nat, h') /\
    kids h' 5%nat = [4%nat] /\
    kids h' 0%nat = [1%nat; 2%nat] /\
    kids h' 5%nat <> drop 1 (kids sample_heap 0%nat).
Proof.
  split; [exact sample_descends|].
  eexists. split; [vm_compute; reflexivity|].
  split; [reflexivity|]. split; [reflexivity|]. discriminate.
Qed.

(** ** The before-marker loop when the marker's ancestor is the first child *)

Lemma splitBefore_loop_exhausts (root clone : ref) (cs : list ref) :
  forall (h : Heap) (fuel : nat),
    split_state h root clone ->
    kids h root = cs ->
    (length cs < fuel)%nat ->
    exists h',
      splitBefore_loop fuel root clone None h
        = (Throw (MissingArgumentError "node"), h') /\
      kids h' root = [] /\
      kids h' clone = kids h clone ++ cs /\
      split_state h' root clone /\
      (forall r, scalarsOf h' r = scalarsOf h r).
Proof.
  induction cs as [|x cs IH]; intros h fuel Hss Hk Hfuel;
    (destruct fuel as [|fuel]; [simpl in Hfuel; lia|]); simpl in Hfuel.
  - exists h. split; [|rewrite app_nil_r; auto].
    cbn [splitBefore_loop].
    pose proof (ss_container _ _ _ Hss) as Hc. rewrite Hk in Hc.
    erewrite bind_ok by (apply read_childNodes_ok; exact Hc).
    reflexivity.
  - assert (Hi : kids h root !! 0%nat = Some x) by (rewrite Hk; reflexivity).
    destruct (move_child h root clone 0 x Hss Hi)
      as (h1 & h2 & E1 & E2 & Hss2 & Hkr & Hkc & L2 & S2 & P2).
    rewrite Hk in Hkr. simpl in Hkr.
    destruct (IH h2 fuel Hss2 Hkr ltac:(lia)) as (h3 & E3 & Hkr3 & Hkc3 & Hss3 & S3).
    exists h3. split; [|split; [exact Hkr3|split; [|split; [exact Hss3|]]]].
    + cbn [splitBefore_loop].
      pose proof (ss_container _ _ _ Hss) as Hc. rewrite Hk in Hc.
      erewrite bind_ok by (apply read_childNodes_ok; exact Hc).
      change (nthZ (x :: cs) 0) with (Some x).
      erewrite bind_ok by exact E1.
      erewrite bind_ok by exact E2.
      rewrite bool_decide_eq_false_2 by discriminate.
      exact E3.
    + rewrite Hkc3, Hkc, <- app_assoc. reflexivity.
    + intros r. rewrite S3. apply S2.
Qed.

(** C10: for a non-text [root] of a well-formed tree and a marker whose
    top-level ancestor is the first child of [root],
    [splitByChild(root, marker, false, removeMarkerNode)] throws the
    missing-argument error of [remove]; [root] has at least one child, and
    in the store at the throw all of them, the marker's ancestor included,
    are the children of the fresh clone and [root] has none left. *)
Theorem splitByChild_before_first_child :
  forall (h : Heap) (root marker : ref) (rest : list Z)
         (removeMarkerNode : bool) (fuel : nat),
    is_general h root ->
    NoDup (kids h root) ->
    (forall x, x ∈ kids h root -> parentOf h x = Some root) ->
    descends h root marker (0 :: rest) ->
    (length (kids h root) + length rest < fuel)%nat ->
    exists h',
      splitByChild fuel root marker false removeMarkerNode h
        = (Throw (MissingArgumentError "node"), h') /\
      kids h root <> [] /\
      kids h' root = [] /\
      kids h' (length h) = kids h root /\
      scalarsOf h' (length h) = scalarsOf h root /\
      (forall x, x ∈ kids h root -> parentOf h' x = Some (length h)).
Proof.
  intros h root marker rest rm fuel (n & Hn & Ht) Hnd Hpar Hd Hfuel.
  destruct (descends_head _ _ _ _ _ Hd) as (cs & a & Hcs & Ha & Hidx).
  pose proof (kids_childrenOf _ _ _ Hcs) as Hk. rewrite Hk in *.
  pose proof (indexOf_lookup cs a 0 Hidx) as Hka.
  destruct (split_state_init h root n cs Hn Ht Hcs Hnd Hpar)
    as (Hss & Hkr & Hkc & Hsc & Hpe).
  set (h1 := h ++ [shallow_copy n]) in *.
  destruct (splitBefore_loop_exhausts root (length h) cs h1 fuel Hss Hkr)
    as (h2 & E2 & Hkr2 & Hkc2 & Hss2 & S2); [lia|].
  rewrite Hkc in Hkc2. simpl in Hkc2.
  exists h2. split; [|split; [|split; [exact Hkr2|split; [exact Hkc2|split]]]].
  - unfold splitByChild.
    erewrite bind_ok by (apply getDescendantPath_ok; [exact Hd|simpl; lia]).
    erewrite bind_ok by (apply cloneNode_shallow_ok; exact Hn).
    simpl head. simpl option_map. fold h1.
    apply bind_throw.
    pose proof (ss_container _ _ _ Hss) as Hc. rewrite Hkr in Hc.
    erewrite bind_ok by (apply read_childNodes_ok; exact Hc).
    apply bind_throw. simpl from_option.
    rewrite nthZ_neg by lia. exact E2.
  - intros ->. discriminate Hka.
  - rewrite S2. exact Hsc.
  - intros x Hx. apply (ss_moved _ _ _ Hss2). rewrite Hkc2. exact Hx.
Qed.

(** Splitting [<p>a<b>x</b>c</p>] before its first child [a]. *)
Lemma splitByChild_before_first_child_witness :
  exists h',
    splitByChild 10 0%nat 1%nat false false sample_heap
      = (Throw (MissingArgumentError "node"), h') /\
    kids h' 0%nat = [] /\ kids h' 5%nat = [1%nat; 2%nat; 4%nat].
Proof.
  destruct sample_well_formed as (Hg & Hnd & Hpar).
  destruct (splitByChild_before_first_child sample_heap 0%nat 1%nat [] false 10%nat
              Hg Hnd Hpar)
    as (h' & E & _ & Kr & Kc & _).
  { apply (descends_child sample_heap 0%nat 1%nat 0%nat [1%nat; 2%nat; 4%nat] []);
      [discriminate|reflexivity|reflexivity|apply descends_here]. }
  { vm_compute. lia. }
  exists h'. split; [exact E|]. split; [exact Kr|exact Kc].
Defined.

(** ** Deep clone *)

Lemma serialize_S (fuel : nat) (h : Heap) (r : ref) :
  serialize (S fuel) h r
  = match h !! r with
    | None => Stuck
    | Some node =>
        obind (isTextNode node) (fun isText =>
        if isText then
          obind (encodeValue (textContent node)) (fun s => Ok (orEmpty s))
        else
          let attrs :=
            match attributes node with
            | Some (a :: al) => " " +:+ join " " (map serializeAttribute (a :: al))
            | _ => EmptyString
            end in
          let children := default [] (childNodes node) in
          let hasChildren := negb (Nat.eqb (length children) 0) in
          let suffix := if hasChildren then EmptyString else "/" in
          let openTag := "<" +:+ nodeName node +:+ attrs +:+ suffix +:+ ">" in
          if hasChildren then
            obind (mapO (serialize fuel h) children) (fun xs =>
            let closeTag := "</" +:+ nodeName node +:+ ">" in
            Ok (openTag +:+ join EmptyString xs +:+ closeTag))
          else Ok openTag)
    end.
Proof. reflexivity. Qed.

Lemma mapO_ext {A B} (f g : A -> outcome B) (l : list A) :
  (forall x, x ∈ l -> f x = g x) -> mapO f l = mapO g l.
Proof.
  induction l as [|x l IH]; intros H; simpl; [reflexivity|].
  rewrite (H x) by left. rewrite IH; [reflexivity|].
  intros y Hy. apply H. right. exact Hy.
Qed.

Lemma mapO_Forall2 {A A' B} (f : A -> outcome B) (g : A' -> outcome B)
    (l : list A) (l' : list A') :
  Forall2 (fun x y => f x = g y) l l' -> mapO f l = mapO g l'.
Proof.
  induction 1 as [|x y l l' Hxy _ IH]; simpl; [reflexivity|].
  rewrite Hxy, IH. reflexivity.
Qed.

(** [serialize] reads the type, name, content, attributes and child array
    of the nodes it visits, nothing else. *)
Lemma serialize_agree (S : ref -> Prop) (h1 h2 : Heap) :
  (forall r, S r ->
     exists n1 n2, h1 !! r = Some n1 /\ h2 !! r = Some n2 /\
                   scalars n2 = scalars n1 /\ childNodes n2 = childNodes n1 /\
                   forall x, x ∈ default [] (childNodes n1) -> S x) ->
  forall f r, S r -> serialize f h2 r = serialize f h1 r.
Proof.
  intros Hagree f. induction f as [|f IH]; intros r Hr; [reflexivity|].
  destruct (Hagree r Hr) as (n1 & n2 & H1 & H2 & Hs & Hc & Hclosed).
  rewrite !serialize_S, H1, H2.
  rewrite (isTextNode_scalars n2 n1 Hs). rewrite Hc.
  unfold scalars in Hs. injection Hs as _ Hname Htext Hattr.
  rewrite Hname, Htext, Hattr. cbv zeta.
  rewrite (mapO_ext (serialize f h2) (serialize f h1)); [reflexivity|].
  intros x Hx. apply IH. apply Hclosed. exact Hx.
Qed.

Lemma tree_at_prefix (d : nat) (h ext : Heap) (r : ref) :
  tree_at d h r -> tree_at d (h ++ ext) r.
Proof.
  revert r. induction d as [|d IH]; intros r; simpl; [auto|].
  intros (n & Hn & Hb & Hc). exists n.
  split; [apply lookup_app_l_Some; exact Hn|]. split; [exact Hb|].
  intros x Hx. apply IH, Hc, Hx.
Qed.

Lemma serialize_prefix (d : nat) (h ext : Heap) (r : ref) (f : nat) :
  tree_at d h r -> serialize f (h ++ ext) r = serialize f h r.
Proof.
  intros Ht.
  apply (serialize_agree (fun x => exists d, tree_at d h x)); [|eauto].
  intros x [[|d'] Hx]; simpl in Hx; [destruct Hx|].
  destruct Hx as (n & Hn & _ & Hc).
  exists n, n. split; [exact Hn|]. split; [apply lookup_app_l_Some; exact Hn|].
  split; [reflexivity|]. split; [reflexivity|].
  intros y Hy. exists d'. apply Hc, Hy.
Qed.

(** [serialize] returns or throws on a tree, given fuel for its height. *)
Lemma mapO_total {A B} (f : A -> outcome B) (l : list A) :
  (forall x, x ∈ l -> (exists s, f x = Ok s) \/ (exists e, f x = Throw e)) ->
  (exists s, mapO f l = Ok s) \/ (exists e, mapO f l = Throw e).
Proof.
  induction l as [|x l IH]; intros H; simpl; [left; eauto|].
  destruct (H x ltac:(left)) as [[s ->]|[e ->]]; simpl; [|right; eauto].
  destruct IH as [[ss ->]|[e ->]]; simpl; [|left; eauto|right; eauto].
  intros y Hy. apply H. right. exact Hy.
Qed.

Lemma serialize_total (d : nat) (h : Heap) (r : ref) :
  tree_at d h r ->
  forall f, (d <= f)%nat ->
            (exists s, serialize f h r = Ok s) \/ (exists e, serialize f h r = Throw e).
Proof.
  revert r. induction d as [|d IH]; intros r Ht f Hf; simpl in Ht; [destruct Ht|].
  destruct Ht as (n & Hn & [b Hb] & Hc).
  destruct f as [|f]; [lia|]. rewrite serialize_S, Hn, Hb. simpl.
  destruct b.
  - destruct (textContent n); simpl; eauto.
  - destruct (negb (length (default [] (childNodes n)) =? 0)%nat); [|left; eauto].
    destruct (mapO_total (serialize f h) (default [] (childNodes n))) as [[ss ->]|[e ->]];
      simpl; eauto.
    intros x Hx. apply IH; [apply Hc, Hx|lia].
Qed.

Lemma linked_range (d : nat) (h : Heap) (lo hi : nat) (c : ref) :
  linked d h lo hi c -> (lo <= c < hi)%nat /\ (hi <= length h)%nat.
Proof. destruct d; simpl; [intros []|]. intros (H1 & H2 & _). auto. Qed.

Lemma kept_kids (lo hi : nat) (h1 h2 : Heap) (r : ref) :
  kept lo hi h1 h2 -> (lo <= r < hi)%nat -> (hi <= length h1)%nat ->
  kids h2 r = kids h1 r.
Proof.
  intros [_ Hk] Hr Hhi.
  destruct (lookup_lt_is_Some_2 h1 r ltac:(lia)) as [n1 Hn1].
  destruct (Hk r n1 Hr Hn1) as (n2 & Hn2 & _ & Hc & _).
  unfold kids, childrenOf. rewrite Hn1, Hn2. simpl. rewrite Hc. reflexivity.
Qed.

Lemma kept_same (lo hi : nat) (h1 h2 : Heap) (r : ref) :
  kept lo hi h1 h2 -> (lo < r < hi)%nat -> (hi <= length h1)%nat ->
  h2 !! r = h1 !! r.
Proof.
  intros [_ Hk] Hr Hhi.
  destruct (lookup_lt_is_Some_2 h1 r ltac:(lia)) as [n1 Hn1].
  destruct (Hk r n1 ltac:(lia) Hn1) as (n2 & Hn2 & _ & _ & Heq).
  rewrite Hn1, Hn2, Heq by lia. reflexivity.
Qed.

Lemma linked_kept (d : nat) (h1 h2 : Heap) (lo hi : nat) (c : ref) :
  kept lo hi h1 h2 -> linked d h1 lo hi c -> linked d h2 lo hi c.
Proof.
  intros Hk. revert c. induction d as [|d IH]; intros c; simpl; [auto|].
  intros (Hc & Hhi & Hsib & Hch).
  pose proof (kept_kids lo hi h1 h2 c Hk Hc Hhi) as Hkids.
  assert (Hkid : forall x, x ∈ kids h1 c -> (lo < x < hi)%nat).
  { intros x Hx. destruct (Hch x Hx) as (Hlt & _ & Hl).
    apply linked_range in Hl. lia. }
  split; [exact Hc|]. split; [destruct Hk; lia|]. split.
  - unfold sibling_inv. rewrite Hkids. intros i x Hi.
    destruct (Hsib i x Hi) as [Hx Hn].
    assert (Hin : x ∈ kids h1 c) by (apply list_elem_of_lookup; eauto).
    split; [destruct Hk; lia|].
    unfold nextOf. rewrite (kept_same lo hi h1 h2 x Hk (Hkid x Hin) Hhi). exact Hn.
  - rewrite Hkids. intros x Hx. destruct (Hch x Hx) as (Hlt & Hp & Hl).
    split; [exact Hlt|]. split; [|apply IH; exact Hl].
    unfold parentOf. rewrite (kept_same lo hi h1 h2 x Hk (Hkid x Hx) Hhi). exact Hp.
Qed.

Lemma serialize_kept (d : nat) (h1 h2 : Heap) (lo hi : nat) (c : ref) (f : nat) :
  kept lo hi h1 h2 -> linked d h1 lo hi c ->
  serialize f h2 c = serialize f h1 c.
Proof.
  intros Hk Hl.
  apply (serialize_agree (fun x => exists d, linked d h1 lo hi x)); [|eauto].
  intros x [[|d'] Hx]; [destruct Hx|].
  destruct (linked_range _ _ _ _ _ Hx) as [Hr Hhi].
  simpl in Hx. destruct Hx as (_ & _ & _ & Hch).
  destruct (lookup_lt_is_Some_2 h1 x ltac:(lia)) as [n1 Hn1].
  destruct Hk as [_ Hk]. destruct (Hk x n1 Hr Hn1) as (n2 & Hn2 & Hs & Hc & _).
  exists n1, n2. repeat split; auto.
  intros y Hy. exists d'. apply Hch.
  unfold kids, childrenOf. rewrite Hn1. exact Hy.
Qed.

Lemma linked_weaken (d : nat) (h : Heap) (lo hi lo' hi' : nat) (c : ref) :
  (lo' <= lo)%nat -> (hi <= hi')%nat -> (hi' <= length h)%nat ->
  linked d h lo hi c -> linked d h lo' hi' c.
Proof.
  intros Hlo Hhi Hlen. revert c. induction d as [|d IH]; intros c; simpl; [auto|].
  intros (Hc & _ & Hsib & Hch).
  split; [lia|]. split; [exact Hlen|]. split; [exact Hsib|].
  intros x Hx. destruct (Hch x Hx) as (Hlt & Hp & Hl). auto.
Qed.

Lemma lookup_link_prev (prev : option ref) (a : ref) (h : Heap) (r : ref) :
  link_prev prev a h !! r
  = if decide (prev = Some r) then set_nextSibling (Some a) <$> h !! r else h !! r.
Proof.
  unfold link_prev. destruct prev as [p|].
  - rewrite list_lookup_alter.
    destruct (decide (p = r)) as [->|Hne].
    + rewrite decide_True by reflexivity. reflexivity.
    + rewrite decide_False by congruence. reflexivity.
  - rewrite decide_False by discriminate. reflexivity.
Qed.

Lemma length_link_prev (prev : option ref) (a : ref) (h : Heap) :
  length (link_prev prev a h) = length h.
Proof. unfold link_prev. destruct prev; [apply length_alter|reflexivity]. Qed.

Lemma prefix_alter (h hc : Heap) (f : XmlNode -> XmlNode) (i : nat) :
  h `prefix_of` hc -> (length h <= i)%nat -> h `prefix_of` alter f i hc.
Proof.
  intros [k ->] Hi. exists (alter f (i - length h)%nat k).
  replace i with (length h + (i - length h))%nat at 1 by lia.
  apply alter_app_r.
Qed.

Lemma prefix_lookup (h hc : Heap) (r : ref) :
  h `prefix_of` hc -> (r < length h)%nat -> hc !! r = h !! r.
Proof. intros [k ->] Hr. apply lookup_app_l. exact Hr. Qed.

Section CloneStep.
Context (h : Heap) (d : nat) (c : ref) (hc : Heap) (dcs done : list ref).
Context (ext : Heap) (x : ref).
Context (Hcp : clone_progress h d c hc dcs done).
Context (Hx : tree_at d h x).

Local Abbreviation a := (length hc).
Local Abbreviation hA := (hc ++ ext).
Local Abbreviation hD := (step_heap c hc ext dcs).

Context (Hlinked : linked d hA a (length hA) a).
Context (Hparent : parentOf hA a = None).
Context (Hnext : nextOf hA a = None).
Context (Hser : forall f, serialize f hA a = serialize f hc x).

Lemma step_bound (i : nat) (cc : ref) :
  dcs !! i = Some cc -> (c < cc < length hc)%nat.
Proof.
  intros Hi. destruct (cp_links _ _ _ _ _ _ Hcp i cc Hi) as (Hlt & _ & _ & Hl).
  apply linked_range in Hl as [Hr Hhi].
  destruct (dcs !! S i) as [y|] eqn:Ey; simpl in *; lia.
Qed.

Lemma step_last (i : nat) (cc : ref) :
  dcs !! i = Some cc -> last dcs = Some cc -> S i = length dcs.
Proof.
  intros Hi Hl. rewrite last_lookup in Hl.
  pose proof (lookup_lt_Some _ _ _ Hi) as Hlt.
  destruct (decide (i = Nat.pred (length dcs))) as [->|Hne]; [lia|].
  pose proof (cp_incr _ _ _ _ _ _ Hcp i (Nat.pred (length dcs)) cc cc ltac:(lia) Hi Hl).
  lia.
Qed.

Lemma step_length : length hD = length hA.
Proof. unfold step_heap. rewrite length_link_prev, !length_alter. reflexivity. Qed.

Lemma step_a : (c < a < length hA)%nat.
Proof.
  pose proof (cp_fresh _ _ _ _ _ _ Hcp). apply linked_range in Hlinked.
  lia.
Qed.

Lemma step_lookup (r : ref) :
  hD !! r
  = if decide (last dcs = Some r) then set_nextSibling (Some a) <$> hc !! r
    else if decide (r = a) then set_parentNode (Some c) <$> hA !! a
    else if decide (r = c) then set_childNodes (Some (dcs ++ [a])) <$> hc !! c
    else hA !! r.
Proof.
  pose proof step_a as Ha. pose proof (cp_fresh _ _ _ _ _ _ Hcp) as Hc.
  unfold step_heap. rewrite lookup_link_prev.
  destruct (decide (last dcs = Some r)) as [Hl|Hl].
  - assert (Hr : (c < r < length hc)%nat).
    { rewrite last_lookup in Hl. eapply step_bound. exact Hl. }
    rewrite !list_lookup_alter_ne by lia.
    rewrite lookup_app_l by lia. reflexivity.
  - rewrite list_lookup_alter.
    destruct (decide (a = r)) as [<-|Hne].
    + rewrite decide_True by reflexivity.
      rewrite list_lookup_alter_ne by lia. reflexivity.
    + rewrite decide_False by congruence.
      rewrite list_lookup_alter.
      destruct (decide (c = r)) as [<-|Hne'].
      * rewrite decide_True by reflexivity.
        rewrite lookup_app_l by lia. reflexivity.
      * rewrite decide_False by congruence. reflexivity.
Qed.

Lemma step_kept_old (i : nat) (cc : ref) :
  dcs !! i = Some cc ->
  kept cc (default (length hc) (dcs !! S i)) hc hD.
Proof.
  intros Hi. pose proof step_a as Ha.
  destruct (cp_links _ _ _ _ _ _ Hcp i cc Hi) as (Hlt & _ & _ & Hl).
  apply linked_range in Hl as [Hr Hhi].
  split.
  { rewrite step_length. rewrite length_app. lia. }
  intros r n1 Hrange Hn1. rewrite step_lookup.
  destruct (decide (last dcs = Some r)) as [Hlast|Hlast].
  - rewrite Hn1. eexists. split; [reflexivity|]. repeat split.
    intros Hgt. exfalso.
    rewrite last_lookup in Hlast.
    destruct (dcs !! S i) as [y|] eqn:Ey; simpl in *.
    + pose proof (lookup_lt_Some _ _ _ Ey) as Hlen.
      destruct (decide (S i = Nat.pred (length dcs))) as [E|E].
      * rewrite E in Ey. congruence || (rewrite Hlast in Ey; injection Ey as <-; lia).
      * pose proof (cp_incr _ _ _ _ _ _ Hcp (S i) (Nat.pred (length dcs)) y r
                      ltac:(lia) Ey Hlast). lia.
    + apply lookup_ge_None in Ey. pose proof (lookup_lt_Some _ _ _ Hi).
      replace (Nat.pred (length dcs)) with i in Hlast by lia.
      rewrite Hi in Hlast. injection Hlast as <-. lia.
  - rewrite decide_False by lia.
    rewrite decide_False by lia.
    rewrite lookup_app_l by lia. rewrite Hn1.
    exists n1. repeat split.
Qed.

Lemma step_kept_new : kept a (length hA) hA hD.
Proof.
  pose proof step_a as Ha.
  split; [rewrite step_length; lia|].
  intros r n1 Hrange Hn1. rewrite step_lookup.
  destruct (decide (last dcs = Some r)) as [Hlast|Hlast].
  { exfalso. rewrite last_lookup in Hlast.
    pose proof (step_bound _ _ Hlast). lia. }
  destruct (decide (r = a)) as [->|Hne].
  - rewrite Hn1. eexists. split; [reflexivity|]. repeat split. lia.
  - rewrite decide_False by lia. rewrite Hn1. exists n1. repeat split.
Qed.

Lemma step_progress : clone_progress h d c hD (dcs ++ [a]) (done ++ [x]).
Proof.
  pose proof step_a as Ha. pose proof (cp_fresh _ _ _ _ _ _ Hcp) as Hc.
  pose proof (cp_prefix _ _ _ _ _ _ Hcp) as Hpre.
  assert (HlenD : length hD = length hA) by apply step_length.
  constructor.
  - unfold step_heap, link_prev.
    assert (Hpre' : h `prefix_of` alter (set_parentNode (Some c)) a
                                   (alter (set_childNodes (Some (dcs ++ [a]))) c hA)).
    { apply prefix_alter; [|lia]. apply prefix_alter; [|lia].
      apply prefix_app_r. exact Hpre. }
    destruct (last dcs) as [p|] eqn:Hl; [|exact Hpre'].
    apply prefix_alter; [exact Hpre'|].
    rewrite last_lookup in Hl. pose proof (step_bound _ _ Hl). lia.
  - lia.
  - unfold childrenOf. rewrite step_lookup.
    rewrite decide_False.
    2:{ intros Hl. rewrite last_lookup in Hl. pose proof (step_bound _ _ Hl). lia. }
    rewrite decide_False by lia. rewrite decide_True by reflexivity.
    destruct (lookup_lt_is_Some_2 hc c ltac:(lia)) as [n ->]. reflexivity.
  - apply Forall2_app.
    + pose proof (cp_serialize _ _ _ _ _ _ Hcp) as Hfa.
      apply Forall2_same_length_lookup in Hfa as [Hlen Hfa].
      apply Forall2_same_length_lookup. split; [exact Hlen|].
      intros i cc ch Hi Hch f. rewrite <- (Hfa i cc ch Hi Hch f).
      destruct (cp_links _ _ _ _ _ _ Hcp i cc Hi) as (_ & _ & _ & Hl).
      eapply serialize_kept; [apply step_kept_old; exact Hi|exact Hl].
    + constructor; [|constructor]. intros f.
      rewrite (serialize_kept d hA hD a (length hA) a f step_kept_new Hlinked).
      rewrite Hser. destruct Hpre as [k ->]. eapply serialize_prefix. exact Hx.
  - intros i j y z Hij Hy Hz.
    apply lookup_app_Some in Hy as [Hy|[Hge Hy]].
    + apply lookup_app_Some in Hz as [Hz|[Hge Hz]].
      * eapply (cp_incr _ _ _ _ _ _ Hcp); eauto.
      * apply list_lookup_singleton_Some in Hz as [_ <-].
        pose proof (step_bound _ _ Hy). lia.
    + apply list_lookup_singleton_Some in Hy as [Hi _].
      apply lookup_lt_Some in Hz. rewrite length_app in Hz. simpl in Hz. lia.
  - intros i cc Hi.
    apply lookup_app_Some in Hi as [Hi|[Hge Hi]].
    + pose proof (step_bound _ _ Hi) as Hb.
      pose proof (lookup_lt_Some _ _ _ Hi) as Hilen.
      destruct (cp_links _ _ _ _ _ _ Hcp i cc Hi) as (Hlt & Hp & Hn & Hl).
      assert (Hnode : exists n, hc !! cc = Some n) by (apply lookup_lt_is_Some; lia).
      destruct Hnode as [n Hnode].
      assert (Hhi : default (length hD) ((dcs ++ [a]) !! S i)
                    = default (length hc) (dcs !! S i)).
      { destruct (decide (S i < length dcs)%nat) as [Hs|Hs].
        - rewrite lookup_app_l by exact Hs. destruct (lookup_lt_is_Some_2 dcs (S i) Hs) as [y ->].
          reflexivity.
        - rewrite lookup_app_r by lia.
          replace (S i - length dcs)%nat with 0%nat by lia. simpl.
          rewrite (lookup_ge_None_2 dcs (S i)) by lia. reflexivity. }
      split; [exact Hlt|]. split; [|split].
      * unfold parentOf in *. rewrite step_lookup, Hnode in *.
        destruct (decide (last dcs = Some cc)); [exact Hp|].
        rewrite decide_False by lia. rewrite decide_False by lia.
        rewrite lookup_app_l by lia. rewrite Hnode. exact Hp.
      * unfold nextOf in *. rewrite step_lookup, Hnode in *.
        destruct (decide (last dcs = Some cc)) as [Hlast|Hlast].
        -- pose proof (step_last _ _ Hi Hlast) as Hs.
           rewrite lookup_app_r by lia. rewrite Hs, Nat.sub_diag. reflexivity.
        -- rewrite decide_False by lia. rewrite decide_False by lia.
           rewrite lookup_app_l by lia. rewrite Hnode.
           simpl in *. rewrite Hn.
           destruct (decide (S i < length dcs)%nat) as [Hs|Hs];
             [rewrite lookup_app_l by exact Hs; reflexivity|].
           exfalso. apply Hlast. rewrite last_lookup.
           replace (Nat.pred (length dcs)) with i by lia. exact Hi.
      * rewrite Hhi. eapply linked_kept; [apply step_kept_old; exact Hi|exact Hl].
    + apply list_lookup_singleton_Some in Hi as [Hi <-].
      assert (i = length dcs) as -> by lia.
      split; [lia|].
      assert (Hnode : exists n, hA !! a = Some n) by (apply lookup_lt_is_Some; lia).
      destruct Hnode as [n Hnode].
      assert (HD : hD !! a = Some (set_parentNode (Some c) n)).
      { rewrite step_lookup. rewrite decide_False.
        - rewrite decide_True by reflexivity. rewrite Hnode. reflexivity.
        - intros Hl. rewrite last_lookup in Hl. pose proof (step_bound _ _ Hl).
          lia. }
      split; [unfold parentOf; rewrite HD; reflexivity|]. split.
      * unfold nextOf in *. rewrite HD. rewrite Hnode in Hnext. simpl in *.
        rewrite Hnext. symmetry. apply lookup_ge_None.
        rewrite length_app. simpl. lia.
      * rewrite (lookup_ge_None_2 (dcs ++ [a])) by (rewrite length_app; simpl; lia).
        simpl. rewrite HlenD.
        eapply linked_kept; [apply step_kept_new|exact Hlinked].
Qed.
End CloneStep.

Lemma set_childNodes_same (n : XmlNode) (cs : option (list ref)) :
  childNodes n = cs -> set_childNodes cs n = n.
Proof. destruct n. simpl. intros ->. reflexivity. Qed.

Lemma cloneChildren_ok (h : Heap) (d fuel : nat) (c : ref) :
  clone_ok d fuel ->
  forall (todo : list ref) (hc : Heap) (dcs done : list ref),
    clone_progress h d c hc dcs done ->
    (forall x, x ∈ todo -> tree_at d h x) ->
    exists hf dcs',
      cloneChildren (cloneNodeDeep fuel) c (last dcs) todo hc = (Ok tt, hf) /\
      clone_progress h d c hf dcs' (done ++ todo) /\
      (forall n, hc !! c = Some n -> hf !! c = Some (set_childNodes (Some dcs') n)).
Proof.
  intros Hrec todo. induction todo as [|x todo IH]; intros hc dcs done Hcp Htodo.
  - exists hc, dcs. rewrite app_nil_r. split; [reflexivity|]. split; [exact Hcp|].
    intros n Hn. rewrite set_childNodes_same; [exact Hn|].
    pose proof (cp_children _ _ _ _ _ _ Hcp) as Hc. unfold childrenOf in Hc.
    rewrite Hn in Hc. exact Hc.
  - assert (Hx : tree_at d h x) by (apply Htodo; left).
    pose proof (cp_prefix _ _ _ _ _ _ Hcp) as Hpre.
    pose proof (cp_fresh _ _ _ _ _ _ Hcp) as Hc.
    assert (Hx' : tree_at d hc x).
    { destruct Hpre as [k ->]. apply tree_at_prefix. exact Hx. }
    destruct (Hrec hc x Hx') as (ext & E & Hl & Hp & Hn & Hs).
    pose proof (step_progress h d c hc dcs done ext x Hcp Hx Hl Hp Hn Hs) as Hcp'.
    pose proof (step_a h d c hc dcs done ext Hcp Hl) as Ha.
    destruct (IH _ _ _ Hcp') as (hf & dcs' & E' & Hcpf & Hnode).
    { intros y Hy. apply Htodo. right. exact Hy. }
    exists hf, dcs'. split; [|split].
    + cbn [cloneChildren].
      erewrite bind_ok by exact E.
      erewrite bind_ok.
      2:{ apply push_child_ok. rewrite <- (cp_children _ _ _ _ _ _ Hcp).
          unfold childrenOf. rewrite lookup_app_l by lia. reflexivity. }
      erewrite bind_ok by (apply update_ok; len).
      assert (Hprev : forall hC : Heap, length hC = length (hc ++ ext) ->
                (match last dcs with
                 | Some prev => update prev (set_nextSibling (Some (length hc)))
                 | None => ret tt
                 end) hC = (Ok tt, link_prev (last dcs) (length hc) hC)).
      { intros hC HlenC. unfold link_prev.
        destruct (last dcs) as [p|] eqn:Hlast; [|reflexivity].
        apply update_ok. rewrite last_lookup in Hlast.
        pose proof (step_bound h d c hc dcs done Hcp _ _ Hlast).
        rewrite HlenC, length_app. lia. }
      erewrite bind_ok by (apply Hprev; rewrite !length_alter; reflexivity).
      rewrite last_snoc in E'. exact E'.
    + rewrite <- app_assoc in Hcpf. exact Hcpf.
    + intros n Hnc.
      rewrite (Hnode (set_childNodes (Some (dcs ++ [length hc])) n)); [reflexivity|].
      rewrite (step_lookup h d c hc dcs done ext Hcp Hl).
      rewrite decide_False.
      2:{ intros Hlast. rewrite last_lookup in Hlast.
          pose proof (step_bound h d c hc dcs done Hcp _ _ Hlast). lia. }
      rewrite decide_False by lia. rewrite decide_True by reflexivity.
      rewrite Hnc. reflexivity.
Qed.

Lemma map_copy_attributes (al : list XmlAttribute) :
  map (fun a => mkAttr (name a) (value a)) al = al.
Proof.
  induction al as [|[nm v] al IH]; simpl; [reflexivity|]. rewrite IH. reflexivity.
Qed.

(** [serialize] on a node and on a copy of it whose children serialize
    alike. *)
Lemma serialize_copy (f : nat) (h h' : Heap) (x c : ref) (n nc : XmlNode) (b : bool) :
  h !! x = Some n -> h' !! c = Some nc ->
  nodeType nc = nodeType n -> nodeName nc = nodeName n ->
  isTextNode n = Ok b ->
  (b = true -> textContent nc = textContent n) ->
  (b = false -> attributes nc = attributes n) ->
  Forall2 (fun cc ch => serialize f h' cc = serialize f h ch)
          (default [] (childNodes nc)) (default [] (childNodes n)) ->
  serialize (S f) h' c = serialize (S f) h x.
Proof.
  intros Hn Hnc Hty Hnm Hb Htext Hattr Hch.
  rewrite !serialize_S, Hn, Hnc.
  assert (Hb' : isTextNode nc = Ok b).
  { rewrite <- Hb. unfold isTextNode. rewrite Hty, Hnm. reflexivity. }
  rewrite Hb, Hb'. simpl. destruct b.
  - rewrite Htext by reflexivity. reflexivity.
  - rewrite Hattr, Hnm by reflexivity.
    rewrite (Forall2_length _ _ _ Hch).
    rewrite (mapO_Forall2 _ _ _ _ Hch). reflexivity.
Qed.

Lemma cloneNodeDeep_S (fuel : nat) (original : ref) :
  cloneNodeDeep (S fuel) original
  = (o <- get_node original ;;
     clone <- alloc (mkNode (nodeType o) (nodeName o) VUndefined None None None None) ;;
     isText <- lift (isTextNode o) ;;
     update clone (clone_text_or_attributes isText o) ;;;
     match childNodes o with
     | Some children =>
         update clone (set_childNodes (Some [])) ;;;
         cloneChildren (cloneNodeDeep fuel) clone None children
     | None => ret tt
     end ;;;
     ret clone).
Proof. reflexivity. Qed.

Lemma clone_node_fields (b : bool) (n : XmlNode) :
  let cn := clone_text_or_attributes b n
              (mkNode (nodeType n) (nodeName n) VUndefined None None None None) in
  nodeType cn = nodeType n /\ nodeName cn = nodeName n /\
  (b = true -> textContent cn = textContent n) /\
  (b = false -> attributes cn = attributes n) /\
  parentNode cn = None /\ childNodes cn = None /\ nextSibling cn = None.
Proof.
  destruct b; simpl.
  - repeat split; auto. discriminate.
  - destruct (attributes n) as [al|] eqn:Ea; simpl; repeat split; auto; try discriminate.
    intros _. rewrite map_copy_attributes. reflexivity.
Qed.

Lemma cloneNodeDeep_ok (d : nat) : forall fuel, (d <= fuel)%nat -> clone_ok d fuel.
Proof.
  induction d as [|d IH]; intros fuel Hfuel hh x Ht; simpl in Ht; [destruct Ht|].
  destruct fuel as [|fuel]; [lia|].
  specialize (IH fuel ltac:(lia)).
  destruct Ht as (n & Hn & [b Hb] & Hch).
  set (base := mkNode (nodeType n) (nodeName n) VUndefined None None None None).
  set (cn := clone_text_or_attributes b n base).
  destruct (clone_node_fields b n) as (Hty & Hnm & Htext & Hattr & Hpar & Hcs & Hnx).
  fold base in Hty, Hnm, Htext, Hattr, Hpar, Hcs, Hnx.
  fold cn in Hty, Hnm, Htext, Hattr, Hpar, Hcs, Hnx.
  assert (Hlen1 : forall m : XmlNode, (length hh < length (hh ++ [m]))%nat).
  { intros m. rewrite length_app. simpl. lia. }
  assert (Hstart : cloneNodeDeep (S fuel) x hh
             = (match childNodes n with
                | Some children =>
                    update (length hh) (set_childNodes (Some [])) ;;;
                    cloneChildren (cloneNodeDeep fuel) (length hh) None children
                | None => ret tt
                end ;;; ret (length hh)) (hh ++ [cn])).
  { rewrite cloneNodeDeep_S.
    erewrite bind_ok by (apply get_node_ok; exact Hn).
    erewrite bind_ok by reflexivity.
    rewrite bind_lift, Hb.
    erewrite bind_ok by (apply update_ok; apply Hlen1).
    rewrite alter_last. reflexivity. }
  rewrite Hstart. clear Hstart.
  destruct (childNodes n) as [children|] eqn:Echildren.
  - (* the node has a child array *)
    set (cn0 := set_childNodes (Some []) cn).
    assert (Hc0 : (hh ++ [cn0]) !! length hh = Some cn0) by apply lookup_fresh.
    assert (Hcp : clone_progress hh d (length hh) (hh ++ [cn0]) [] []).
    { constructor.
      - apply prefix_app_r. reflexivity.
      - pose proof (Hlen1 cn0). lia.
      - unfold childrenOf. rewrite Hc0. reflexivity.
      - constructor.
      - intros i j y z _ Hy. discriminate Hy.
      - intros i cc Hi. discriminate Hi. }
    destruct (cloneChildren_ok hh d fuel (length hh) IH children _ _ _ Hcp)
      as (hf & dcs & E & Hcpf & Hnode).
    { intros y Hy. apply Hch. exact Hy. }
    specialize (Hnode cn0 Hc0). simpl in E.
    destruct (cp_prefix _ _ _ _ _ _ Hcpf) as [ext Hext].
    pose proof (cp_fresh _ _ _ _ _ _ Hcpf) as Hfresh.
    exists ext. rewrite <- Hext. split; [|split; [|split; [|split]]].
    + erewrite bind_ok; [reflexivity|].
      erewrite bind_ok by (apply update_ok; apply Hlen1).
      rewrite alter_last. exact E.
    + assert (Hk : kids hf (length hh) = dcs).
      { apply kids_childrenOf. apply (cp_children _ _ _ _ _ _ Hcpf). }
      simpl. split; [lia|]. split; [lia|]. split.
      * unfold sibling_inv. rewrite Hk. intros i cc Hi.
        destruct (cp_links _ _ _ _ _ _ Hcpf i cc Hi) as (_ & _ & Hnext & Hl).
        split; [|exact Hnext].
        apply linked_range in Hl as [Hr Hhi]. lia.
      * rewrite Hk. intros cc Hin. apply list_elem_of_lookup in Hin as [i Hi].
        destruct (cp_links _ _ _ _ _ _ Hcpf i cc Hi) as (Hlt & Hp & _ & Hl).
        split; [exact Hlt|]. split; [exact Hp|].
        pose proof (linked_range _ _ _ _ _ Hl) as [Hr Hhi].
        eapply linked_weaken; [| | |exact Hl]; lia.
    + unfold parentOf. rewrite Hnode. exact Hpar.
    + unfold nextOf. rewrite Hnode. exact Hnx.
    + intros [|f]; [reflexivity|].
      eapply serialize_copy; eauto.
      simpl. rewrite Echildren. simpl.
      eapply Forall2_impl; [apply (cp_serialize _ _ _ _ _ _ Hcpf)|].
      intros cc ch H. apply H.
  - (* no child array *)
    exists [cn]. split; [reflexivity|].
    assert (Hc : (hh ++ [cn]) !! length hh = Some cn) by apply lookup_fresh.
    split; [|split; [|split]].
    + simpl. split; [pose proof (Hlen1 cn); lia|]. split; [lia|].
      assert (Hk : kids (hh ++ [cn]) (length hh) = []).
      { unfold kids, childrenOf. rewrite Hc. simpl. rewrite Hcs. reflexivity. }
      split.
      * unfold sibling_inv. rewrite Hk. intros i y Hi. discriminate Hi.
      * rewrite Hk. intros y Hy. apply elem_of_nil in Hy. destruct Hy.
    + unfold parentOf. rewrite Hc. exact Hpar.
    + unfold nextOf. rewrite Hc. exact Hnx.
    + intros [|f]; [reflexivity|].
      eapply serialize_copy; eauto.
      rewrite Hcs, Echildren. constructor.
Qed.

Lemma alter_id_at {A} (f : A -> A) (l : list A) (i : nat) (x : A) :
  l !! i = Some x -> f x = x -> alter f i l = l.
Proof.
  intros Hi Hf. apply list_eq. intros j. rewrite list_lookup_alter.
  destruct (decide (i = j)) as [<-|]; [|reflexivity].
  rewrite Hi. simpl. rewrite Hf. reflexivity.
Qed.

Lemma set_parentNode_same (n : XmlNode) (v : option ref) :
  parentNode n = v -> set_parentNode v n = n.
Proof. destruct n. simpl. intros ->. reflexivity. Qed.

(** C7: for a node [n] that is the root of a tree (finite, every node with
    matching type and name), [cloneNode(n, true)] returns a new node; the
    store is the old one followed by the objects of the clone, so every
    node of the clone is a fresh object and no original is written;
    [serialize] gives on the clone what it gives on [n] (and it does give
    a result on [n]); inside the clone the children of every node name it
    as their parent and are chained by [nextSibling]; the clone itself has
    no parent. *)
Theorem cloneNode_deep_spec :
  forall (d : nat) (h : Heap) (n : ref) (fuel : nat),
    tree_at d h n -> (d <= fuel)%nat ->
    exists ext,
      cloneNode fuel (Some n) true h = (Ok (length h), h ++ ext) /\
      (forall f, serialize f (h ++ ext) (length h) = serialize f h n) /\
      ((exists s, serialize fuel h n = Ok s) \/ (exists e, serialize fuel h n = Throw e)) /\
      linked d (h ++ ext) (length h) (length (h ++ ext)) (length h) /\
      parentOf (h ++ ext) (length h) = None.
Proof.
  intros d h n fuel Ht Hfuel.
  destruct (cloneNodeDeep_ok d fuel Hfuel h n Ht) as (ext & E & Hl & Hp & _ & Hs).
  exists ext. split; [|split; [exact Hs|split; [|split; [exact Hl|exact Hp]]]].
  - unfold cloneNode. change (negb true) with false. cbv iota.
    erewrite bind_ok by exact E.
    pose proof (linked_range _ _ _ _ _ Hl) as [Hr _].
    erewrite bind_ok by (apply update_ok; lia).
    destruct (lookup_lt_is_Some_2 (h ++ ext) (length h) ltac:(lia)) as [m Hm].
    rewrite (alter_id_at _ _ _ m Hm); [reflexivity|].
    apply set_parentNode_same. unfold parentOf in Hp. rewrite Hm in Hp. exact Hp.
  - apply (serialize_total d); assumption.
Qed.

Ltac solve_tree_at :=
  simpl; eexists; split; [reflexivity|]; split; [eexists; reflexivity|];
  let y := fresh "y" in
  let Hy := fresh "Hy" in
  intros y Hy; cbn in Hy;
  repeat (apply elem_of_cons in Hy as [->|Hy]; [solve_tree_at|]);
  apply elem_of_nil in Hy; destruct Hy.

Lemma sample_tree_at : tree_at 3 sample_heap 0%nat.
Proof. solve_tree_at. Qed.

(** Deep clone of [<p>a<b>x</b>c</p>]. *)
Lemma cloneNode_deep_spec_witness :
  exists ext,
    cloneNode 5 (Some 0%nat) true sample_heap = (Ok 5%nat, sample_heap ++ ext) /\
    serialize 5 (sample_heap ++ ext) 5%nat = Ok "<p>a<b>x</b>c</p>" /\
    parentOf (sample_heap ++ ext) 5%nat = None.
Proof.
  destruct (cloneNode_deep_spec 3 sample_heap 0%nat 5 sample_tree_at) as
    (ext & E & Hs & _ & _ & Hp).
  { lia. }
  exists ext. split; [exact E|]. split; [|exact Hp].
  change (length sample_heap) with 5%nat in Hs. rewrite Hs. reflexivity.
Defined.

(** * Further properties *)

(** ** Escaping *)

Lemma append_cons (c : ascii) (a b : string) : String c a +:+ b = String c (a +:+ b).
Proof. reflexivity. Qed.

Lemma append_nil (b : string) : EmptyString +:+ b = b.
Proof. reflexivity. Qed.

Lemma In_append (c : ascii) (a b : string) :
  In c (list_ascii_of_string (a +:+ b))
  <-> In c (list_ascii_of_string a) \/ In c (list_ascii_of_string b).
Proof.
  induction a as [|x a IH]; [rewrite append_nil; simpl; tauto|].
  rewrite append_cons. simpl. rewrite IH. tauto.
Qed.

(** The six cases of the callback of [str.replace]. *)
Lemma encodeChar_cases (c : ascii) :
  (c = "<"%char /\ encodeChar c = "&lt;") \/
  (c = ">"%char /\ encodeChar c = "&gt;") \/
  (c = "&"%char /\ encodeChar c = "&amp;") \/
  (c = "'"%char /\ encodeChar c = "&apos;") \/
  (c = dquote /\ encodeChar c = "&quot;") \/
  (c <> "<"%char /\ c <> ">"%char /\ c <> "&"%char /\ c <> "'"%char /\ c <> dquote /\
   encodeChar c = String c EmptyString).
Proof.
  unfold encodeChar.
  destruct (Ascii.eqb_spec c "<"); [auto|].
  destruct (Ascii.eqb_spec c ">"); [auto|].
  destruct (Ascii.eqb_spec c "&"); [auto 6|].
  destruct (Ascii.eqb_spec c "'"); [auto 8|].
  destruct (Ascii.eqb_spec c dquote); [auto 10|].
  do 5 right. auto 10.
Qed.

(** X1: the result of [encodeValue] on a string contains none of the
    characters [<], [>], ['] and the double quote. *)
Theorem encodeValue_output_has_no_markup :
  forall (s r : string) (c : ascii),
    encodeValue (VString s) = Ok r ->
    In c (list_ascii_of_string r) ->
    c <> "<"%char /\ c <> ">"%char /\ c <> "'"%char /\ c <> dquote.
Proof.
  intros s r c [= <-]. induction s as [|x s IH]; simpl; [intros []|].
  rewrite In_append. intros [Hin|Hin]; [|exact (IH Hin)].
  clear IH.
  destruct (encodeChar_cases x)
    as [[_ E]|[[_ E]|[[_ E]|[[_ E]|[[_ E]|(H1 & H2 & H3 & H4 & H5 & E)]]]]];
    rewrite E in Hin; simpl in Hin;
    repeat (destruct Hin as [<-|Hin]; [repeat split; discriminate || assumption|]);
    destruct Hin.
Qed.

Lemma encodeValue_output_has_no_markup_witness :
  "l"%char <> "<"%char /\ "l"%char <> ">"%char /\ "l"%char <> "'"%char /\ "l"%char <> dquote.
Proof.
  apply (encodeValue_output_has_no_markup "a<b" "a&lt;b" "l").
  - reflexivity.
  - simpl. auto 10.
Defined.

Lemma replaceSpecial_injective (s1 s2 : string) :
  replaceSpecial s1 = replaceSpecial s2 -> s1 = s2.
Proof.
  revert s2. induction s1 as [|c1 s1 IH]; intros [|c2 s2] H.
  - reflexivity.
  - exfalso. simpl in H.
    destruct (encodeChar_cases c2)
      as [[_ E]|[[_ E]|[[_ E]|[[_ E]|[[_ E]|(_ & _ & _ & _ & _ & E)]]]]];
      rewrite E in H; discriminate H.
  - exfalso. simpl in H.
    destruct (encodeChar_cases c1)
      as [[_ E]|[[_ E]|[[_ E]|[[_ E]|[[_ E]|(_ & _ & _ & _ & _ & E)]]]]];
      rewrite E in H; discriminate H.
  - simpl in H.
    destruct (encodeChar_cases c1)
      as [[C1 E1]|[[C1 E1]|[[C1 E1]|[[C1 E1]|[[C1 E1]|(A1 & A2 & A3 & A4 & A5 & E1)]]]]];
    destruct (encodeChar_cases c2)
      as [[C2 E2]|[[C2 E2]|[[C2 E2]|[[C2 E2]|[[C2 E2]|(B1 & B2 & B3 & B4 & B5 & E2)]]]]];
    rewrite E1, E2 in H; rewrite ?append_cons, ?append_nil in H;
    try discriminate H;
    try (injection H as H; subst; f_equal; apply IH; assumption);
    try (injection H as Hc H; subst; try congruence; f_equal; apply IH; assumption);
    try (injection H as Hc H; exfalso; congruence).
Qed.

(** X2: [encodeValue] loses nothing: two strings with the same encoding are
    the same string. *)
Theorem encodeValue_injective :
  forall s1 s2 : string,
    encodeValue (VString s1) = encodeValue (VString s2) -> s1 = s2.
Proof.
  intros s1 s2 H. simpl in H. injection H as H. apply replaceSpecial_injective. exact H.
Qed.

Lemma encodeValue_injective_witness : "a<" = "a<".
Proof. apply encodeValue_injective. reflexivity. Defined.

(** ** Guards of appendChild and insertChild *)

(** X3: [appendChild] and [insertChild] (at any index) throw before they
    write anything when the parent is absent, when the parent is a text
    node, when its type and name disagree, and when the child is absent. *)
Theorem append_insert_guards :
  forall (h : Heap) (p : ref) (n : XmlNode) (child : option ref) (i : Z),
    h !! p = Some n ->
    appendChild None child h = (Throw (MissingArgumentError "parent"), h) /\
    insertChild None child i h = (Throw (MissingArgumentError "parent"), h) /\
    (isTextNode n = Ok true ->
       appendChild (Some p) child h
         = (Throw (Error "Appending children to text nodes is forbidden"), h) /\
       insertChild (Some p) child i h
         = (Throw (Error "Appending children to text nodes is forbidden"), h)) /\
    (forall e, isTextNode n = Throw e ->
       appendChild (Some p) child h = (Throw e, h) /\
       insertChild (Some p) child i h = (Throw e, h)) /\
    (isTextNode n = Ok false ->
       appendChild (Some p) None h = (Throw (MissingArgumentError "child"), h) /\
       insertChild (Some p) None i h = (Throw (MissingArgumentError "child"), h)).
Proof.
  intros h p n child i Hp.
  split; [reflexivity|]. split; [reflexivity|].
  split; [|split].
  - intros Ht. unfold appendChild, insertChild.
    rewrite !(bind_ok _ _ _ _ _ (get_node_ok _ _ _ Hp)), !bind_lift, Ht. split; reflexivity.
  - intros e Ht. unfold appendChild, insertChild.
    rewrite !(bind_ok _ _ _ _ _ (get_node_ok _ _ _ Hp)), !bind_lift, Ht. split; reflexivity.
  - intros Ht. unfold appendChild, insertChild.
    rewrite !(bind_ok _ _ _ _ _ (get_node_ok _ _ _ Hp)), !bind_lift, Ht. split; reflexivity.
Qed.

(** On [<p>a<b>x</b>c</p>]: nothing can be appended to the text node [a]. *)
Lemma append_insert_guards_witness :
  appendChild (Some 1%nat) (Some 3%nat) sample_heap
  = (Throw (Error "Appending children to text nodes is forbidden"), sample_heap).
Proof.
  destruct (append_insert_guards sample_heap 1%nat
              (mkNode Text TEXT_NODE_NAME (VString "a") None (Some 0%nat) None (Some 2%nat))
              (Some 3%nat) 0 eq_refl) as (_ & _ & H & _).
  apply H. reflexivity.
Defined.

(** ** What appendChild and insertChild write *)

(** X4: for a non-text parent [p] whose children are allocated and any
    allocated node [c], [appendChild(p, c)] succeeds; afterwards the child
    sequence of [p] is the old one followed by [c], [c] names [p] as its
    parent and has no next sibling, the former last child (if it is not [c])
    points to [c], and no other child sequence, link or content has
    changed. *)
Theorem appendChild_spec :
  forall (h : Heap) (p c : ref),
    is_general h p ->
    (c < length h)%nat ->
    (forall x, x ∈ kids h p -> (x < length h)%nat) ->
    exists h',
      appendChild (Some p) (Some c) h = (Ok tt, h') /\
      kids h' p = kids h p ++ [c] /\
      parentOf h' c = Some p /\
      nextOf h' c = None /\
      (forall l, last (kids h p) = Some l -> l <> c -> nextOf h' l = Some c) /\
      (forall r, r <> p -> childrenOf h' r = childrenOf h r) /\
      (forall r, r <> c -> parentOf h' r = parentOf h r) /\
      (forall r, r <> c -> last (kids h p) <> Some r -> nextOf h' r = nextOf h r) /\
      (forall r, scalarsOf h' r = scalarsOf h r) /\
      length h' = length h.
Proof.
  intros h p c Hg Hc Hall.
  destruct (appendChild_ok h p c Hg Hc) as (h' & E & L & S & C & P & N).
  { intros l Hl. apply Hall. rewrite last_lookup in Hl.
    apply list_elem_of_lookup. eauto. }
  exists h'. split; [exact E|]. split; [|split; [|split; [|split; [|split; [|split; [|split]]]]]].
  - unfold kids at 1. rewrite C, decide_True by reflexivity. reflexivity.
  - rewrite P, decide_True by reflexivity. reflexivity.
  - rewrite N, decide_True by reflexivity. reflexivity.
  - intros l Hl Hne. rewrite N, decide_False by assumption.
    rewrite decide_True by assumption. reflexivity.
  - intros r Hr. rewrite C, decide_False by assumption. reflexivity.
  - intros r Hr. rewrite P, decide_False by assumption. reflexivity.
  - intros r Hr Hl. rewrite N, decide_False by assumption.
    rewrite decide_False by assumption. reflexivity.
  - split; [exact S|exact L].
Qed.

Lemma sample_detached_general : is_general sample_heap_detached 0%nat.
Proof. eexists. split; reflexivity. Qed.

Lemma sample_detached_allocated :
  forall x, x ∈ kids sample_heap_detached 0%nat -> (x < length sample_heap_detached)%nat.
Proof.
  intros x Hx. change (kids sample_heap_detached 0%nat) with [1%nat; 2%nat; 4%nat] in Hx.
  change (length sample_heap_detached) with 6%nat.
  repeat (apply elem_of_cons in Hx as [->|Hx]; [lia|]).
  apply elem_of_nil in Hx. destruct Hx.
Qed.

(** Appending the detached node 5 to [p] of [<p>a<b>x</b>c</p>]. *)
Lemma appendChild_spec_witness :
  exists h',
    appendChild (Some 0%nat) (Some 5%nat) sample_heap_detached = (Ok tt, h') /\
    kids h' 0%nat = [1%nat; 2%nat; 4%nat; 5%nat] /\
    nextOf h' 4%nat = Some 5%nat.
Proof.
  destruct (appendChild_spec sample_heap_detached 0%nat 5%nat sample_detached_general)
    as (h' & E & K & _ & _ & Hl & _).
  { vm_compute. lia. }
  { exact sample_detached_allocated. }
  exists h'. split; [exact E|]. split; [exact K|].
  apply Hl; [reflexivity|discriminate].
Defined.

(** X5: for a non-text parent [p] whose children are allocated, an
    allocated node [c] that is not one of them and an index [i] below the
    child count, [insertChild(p, c, i)] succeeds; afterwards [c] sits at
    index [i] with the old children around it in their order, [c] names [p]
    as its parent and points to the child that was at index [i], the child
    before index [i] (if any) points to [c], and no other child sequence,
    link or content has changed. *)
Theorem insertChild_spec :
  forall (h : Heap) (p c : ref) (i : nat),
    is_general h p ->
    (c < length h)%nat ->
    (forall x, x ∈ kids h p -> (x < length h)%nat) ->
    c ∉ kids h p ->
    (i < length (kids h p))%nat ->
    exists h',
      insertChild (Some p) (Some c) (Z.of_nat i) h = (Ok tt, h') /\
      kids h' p = take i (kids h p) ++ c :: drop i (kids h p) /\
      kids h' p !! i = Some c /\
      parentOf h' c = Some p /\
      nextOf h' c = kids h p !! i /\
      (forall b, before (kids h p) i = Some b -> nextOf h' b = Some c) /\
      (forall r, r <> p -> childrenOf h' r = childrenOf h r) /\
      (forall r, r <> c -> parentOf h' r = parentOf h r) /\
      (forall r, r <> c -> before (kids h p) i <> Some r -> nextOf h' r = nextOf h r) /\
      (forall r, scalarsOf h' r = scalarsOf h r).
Proof.
  intros h p c i Hg Hc Hall Hnotin Hi.
  destruct (insertChild_ok h p c i Hg Hc Hi) as (h' & E & L & S & C & P & N).
  { intros b Hb. apply Hall. eapply before_elem. exact Hb. }
  assert (Hbc : before (kids h p) i <> Some c).
  { intros Hb. apply Hnotin. eapply before_elem. exact Hb. }
  assert (Hk : kids h' p = take i (kids h p) ++ c :: drop i (kids h p)).
  { unfold kids at 1. rewrite C, decide_True by reflexivity. reflexivity. }
  exists h'. split; [exact E|]. split; [exact Hk|].
  split; [|split; [|split; [|split; [|split; [|split; [|split]]]]]].
  - rewrite Hk, lookup_inserted by lia. rewrite decide_False by lia.
    rewrite decide_True by reflexivity. reflexivity.
  - rewrite P, decide_True by reflexivity. reflexivity.
  - rewrite N. destruct (decide (before (kids h p) i = Some c)); [contradiction|].
    rewrite decide_True by reflexivity. reflexivity.
  - intros b Hb. rewrite N, decide_True by assumption. reflexivity.
  - intros r Hr. rewrite C, decide_False by assumption. reflexivity.
  - intros r Hr. rewrite P, decide_False by assumption. reflexivity.
  - intros r Hr Hb. rewrite N.
    destruct (decide (before (kids h p) i = Some r)); [contradiction|].
    rewrite decide_False by assumption. reflexivity.
  - exact S.
Qed.

Lemma sample_detached_notin : 5%nat ∉ kids sample_heap_detached 0%nat.
Proof.
  change (kids sample_heap_detached 0%nat) with [1%nat; 2%nat; 4%nat].
  intros Hin. repeat (apply elem_of_cons in Hin as [Hin|Hin]; [discriminate|]).
  apply elem_of_nil in Hin. exact Hin.
Qed.

(** Inserting the detached node 5 before [b] in [<p>a<b>x</b>c</p>]. *)
Lemma insertChild_spec_witness :
  exists h',
    insertChild (Some 0%nat) (Some 5%nat) 1 sample_heap_detached = (Ok tt, h') /\
    kids h' 0%nat = [1%nat; 5%nat; 2%nat; 4%nat] /\
    nextOf h' 5%nat = Some 2%nat /\ nextOf h' 1%nat = Some 5%nat.
Proof.
  destruct (insertChild_spec sample_heap_detached 0%nat 5%nat 1 sample_detached_general)
    as (h' & E & K & _ & _ & N & B & _).
  { vm_compute. lia. }
  { exact sample_detached_allocated. }
  { exact sample_detached_notin. }
  { vm_compute. lia. }
  exists h'. split; [exact E|]. split; [exact K|]. split; [exact N|].
  apply B. reflexivity.
Defined.

(** ** insertChild at a negative index *)

(** X6: [insertChild] has no lower bound check.  For a non-text parent [p]
    and an allocated node [c], a negative index [i] does not throw: [c] is
    spliced in at position [max (count + i) 0] (JavaScript counts a negative
    [splice] start from the end), it names [p] as parent, its [nextSibling]
    is cleared, and no other node's [nextSibling] is written. *)
Theorem insertChild_negative_index :
  forall (h : Heap) (p c : ref) (i : Z),
    is_general h p ->
    (c < length h)%nat ->
    i < 0 ->
    exists h',
      insertChild (Some p) (Some c) i h = (Ok tt, h') /\
      kids h' p = take (Z.to_nat (Z.max (Z.of_nat (length (kids h p)) + i) 0)) (kids h p)
                  ++ c :: drop (Z.to_nat (Z.max (Z.of_nat (length (kids h p)) + i) 0))
                            (kids h p) /\
      parentOf h' c = Some p /\
      nextOf h' c = None /\
      (forall r, r <> c -> nextOf h' r = nextOf h r).
Proof.
  intros h p c i (pn & Hp & Ht) Hc Hi.
  destruct (ensure_childNodes_ok p h pn Hp)
    as (h1 & E1 & _ & L1 & C1 & C1' & S1 & P1 & N1).
  assert (Hplen : (p < length h)%nat) by (apply lookup_lt_is_Some; eauto).
  set (cs := kids h p) in *.
  unfold insertChild.
  step_with ltac:(apply get_node_ok; exact Hp).
  rewrite bind_lift, Ht.
  step_with ltac:(exact E1).
  step_with ltac:(apply read_childNodes_ok; exact C1).
  destruct (Z.eqb_spec i (Z.of_nat (length cs))); [lia|].
  destruct (Z.gtb_spec i (Z.of_nat (length cs))); [lia|].
  do 2 step_update.
  rewrite (nthZ_neg cs i) by lia.
  destruct (Z.gtb_spec i 0); [lia|].
  step_with ltac:(reflexivity).
  step_with ltac:(apply read_childNodes_ok; autorewrite with views; exact C1).
  eexists. split; [apply update_ok; len|].
  split; [|split; [|split]].
  - unfold kids at 1. autorewrite with views. rewrite decide_True by reflexivity.
    unfold splice, splice_start. simpl.
    destruct (Z.ltb_spec i 0); [|lia]. rewrite Nat.add_0_r. reflexivity.
  - autorewrite with views. rewrite decide_True by reflexivity. reflexivity.
  - autorewrite with views. rewrite decide_True by reflexivity. reflexivity.
  - intros r Hr. autorewrite with views. rewrite decide_False by assumption. apply N1.
Qed.

(** Index -1 on [<p>a<b>x</b>c</p>] puts the node before the last child. *)
Lemma insertChild_negative_index_witness :
  exists h',
    insertChild (Some 0%nat) (Some 5%nat) (-1) sample_heap_detached = (Ok tt, h') /\
    kids h' 0%nat = [1%nat; 2%nat; 5%nat; 4%nat] /\
    nextOf h' 5%nat = None.
Proof.
  destruct (insertChild_negative_index sample_heap_detached 0%nat 5%nat (-1)
              sample_detached_general)
    as (h' & E & K & _ & N & _).
  { vm_compute. lia. }
  { lia. }
  exists h'. split; [exact E|]. split; [exact K|exact N].
Defined.

(** ** remove *)

Lemma remove_via_removeChild (h h1 : Heap) (p x : ref) (res : option ref) :
  parentOf h x = Some p ->
  removeChild (Some p) (Some (ByNode x)) h = (Ok res, h1) ->
  remove (Some x) h = (Ok tt, h1).
Proof.
  intros Hx E.
  assert (Hn : exists n, h !! x = Some n /\ parentNode n = Some p).
  { unfold parentOf in Hx. destruct (h !! x) as [n|]; [eauto|discriminate]. }
  destruct Hn as (n & Hn & Hnp).
  unfold remove. step_with ltac:(apply get_node_ok; exact Hn).
  rewrite Hnp. step_with ltac:(exact E). reflexivity.
Qed.

(** X7: [remove] of an absent node and of a node without a parent throws
    and leaves the store as it was.  For a child [x] of a well-formed parent
    (children distinct and naming it as parent), [remove(x)] detaches [x]:
    the other children keep their order, [x] has no parent afterwards, and
    a second [remove(x)] throws 'Node has no parent'. *)
Theorem remove_spec :
  forall (h : Heap) (p x : ref) (i : nat),
    NoDup (kids h p) ->
    (forall y, y ∈ kids h p -> parentOf h y = Some p) ->
    kids h p !! i = Some x ->
    remove None h = (Throw (MissingArgumentError "node"), h) /\
    (forall r n, h !! r = Some n -> parentNode n = None ->
                 remove (Some r) h = (Throw (Error "Node has no parent"), h)) /\
    exists h1,
      remove (Some x) h = (Ok tt, h1) /\
      kids h1 p = delete i (kids h p) /\
      (x ∉ kids h1 p) /\
      parentOf h1 x = None /\
      (forall r, r <> x -> parentOf h1 r = parentOf h r) /\
      remove (Some x) h1 = (Throw (Error "Node has no parent"), h1).
Proof.
  intros h p x i Hnd Hpar Hi.
  assert (Hthrow : forall hh r n, hh !! r = Some n -> parentNode n = None ->
                     remove (Some r) hh = (Throw (Error "Node has no parent"), hh)).
  { intros hh r n Hr Hn. unfold remove.
    rewrite (bind_ok _ _ _ _ _ (get_node_ok _ _ _ Hr)), Hn. reflexivity. }
  split; [reflexivity|]. split; [apply Hthrow|].
  destruct (remove_ok h p x i Hnd Hpar Hi) as (h1 & E & L & S & C & P).
  assert (Hk : kids h1 p = delete i (kids h p)).
  { unfold kids at 1. rewrite C, decide_True by reflexivity. reflexivity. }
  assert (Hp1 : parentOf h1 x = None) by (rewrite P, decide_True by reflexivity; reflexivity).
  exists h1. split; [exact E|]. split; [exact Hk|].
  split; [|split; [exact Hp1|split]].
  - rewrite Hk. apply (NoDup_delete_notin _ _ _ Hnd Hi).
  - intros r Hr. rewrite P, decide_False by assumption. reflexivity.
  - assert (Hx : (x < length h1)%nat).
    { rewrite L. eapply parentOf_allocated. apply Hpar, list_elem_of_lookup. eauto. }
    destruct (lookup_lt_is_Some_2 h1 x Hx) as [n Hn].
    apply (Hthrow h1 x n Hn). unfold parentOf in Hp1. rewrite Hn in Hp1. exact Hp1.
Qed.

(** Removing [b] from [<p>a<b>x</b>c</p>], twice. *)
Lemma remove_spec_witness :
  exists h1,
    remove (Some 2%nat) sample_heap = (Ok tt, h1) /\
    kids h1 0%nat = [1%nat; 4%nat] /\
    remove (Some 2%nat) h1 = (Throw (Error "Node has no parent"), h1).
Proof.
  destruct sample_well_formed as (_ & Hnd & Hpar).
  destruct (remove_spec sample_heap 0%nat 2%nat 1 Hnd Hpar eq_refl)
    as (_ & _ & h1 & E & K & _ & _ & _ & E2).
  exists h1. split; [exact E|]. split; [exact K|exact E2].
Defined.

(** ** removeChild by index and by node *)

(** X8: for a child [c] of [p] whose first occurrence among the children
    is at index [i], [removeChild(p, i)] and [removeChild(p, c)] are the
    same computation: same outcome, same store. *)
Theorem removeChild_index_and_node_agree :
  forall (h : Heap) (p c : ref) (i : nat),
    kids h p !! i = Some c ->
    c ∉ take i (kids h p) ->
    removeChild (Some p) (Some (ByIndex (Z.of_nat i))) h
    = removeChild (Some p) (Some (ByNode c)) h.
Proof.
  intros h p c i Hi Hfirst.
  assert (Hcs : childrenOf h p = Some (kids h p)).
  { unfold kids in *. destruct (childrenOf h p); [reflexivity|discriminate]. }
  rewrite (removeChild_resolved h p (ByIndex (Z.of_nat i)) (kids h p) i c Hcs eq_refl Hi).
  rewrite (removeChild_resolved h p (ByNode c) (kids h p) i c Hcs); [reflexivity| |exact Hi].
  simpl. apply indexOf_first; assumption.
Qed.

Lemma removeChild_index_and_node_agree_witness :
  removeChild (Some 0%nat) (Some (ByIndex 1)) sample_heap
  = removeChild (Some 0%nat) (Some (ByNode 2%nat)) sample_heap.
Proof.
  apply (removeChild_index_and_node_agree sample_heap 0%nat 2%nat 1).
  - reflexivity.
  - change (take 1 (kids sample_heap 0%nat)) with [1%nat].
    intros Hin. apply list_elem_of_singleton in Hin. discriminate Hin.
Defined.

(** ** insertChild followed by removeChild *)

Lemma delete_inserted {A} (l : list A) (i : nat) (x : A) :
  (i <= length l)%nat -> delete i (take i l ++ x :: drop i l) = l.
Proof.
  intros Hi.
  assert (Hlen : length (take i l) = i) by (rewrite length_take; lia).
  rewrite delete_take_drop.
  rewrite take_app_length' by (symmetry; exact Hlen).
  rewrite drop_app_ge by lia. rewrite Hlen.
  replace (S i - i)%nat with 1%nat by lia. simpl. rewrite drop_0.
  apply take_drop.
Qed.

Lemma before_inserted (l : list ref) (i : nat) (x : ref) :
  (i <= length l)%nat -> before (take i l ++ x :: drop i l) i = before l i.
Proof.
  intros Hi. destruct i as [|j]; [reflexivity|]. simpl.
  rewrite lookup_app_l by (rewrite length_take; lia).
  apply lookup_take_lt. lia.
Qed.

Lemma before_length (l : list ref) : before l (length l) = last l.
Proof. rewrite last_lookup. destruct l; reflexivity. Qed.

(** X9: on a parent [p] whose children satisfy the sibling-link invariant,
    inserting a node [c] that is not one of them at any index up to the
    child count and then removing the child at that index gives [c] back and
    undoes the insertion: the child sequence of [p] and the [parentNode] and
    [nextSibling] of every node other than [c] are what they were, the
    invariant holds, and [c] is left without parent and next sibling. *)
Theorem insertChild_removeChild_restores :
  forall (h : Heap) (p c : ref) (i : nat),
    is_general h p ->
    (c < length h)%nat ->
    sibling_inv h p ->
    c ∉ kids h p ->
    (i <= length (kids h p))%nat ->
    exists h1 h2,
      insertChild (Some p) (Some c) (Z.of_nat i) h = (Ok tt, h1) /\
      removeChild (Some p) (Some (ByIndex (Z.of_nat i))) h1 = (Ok (Some c), h2) /\
      kids h2 p = kids h p /\
      sibling_inv h2 p /\
      parentOf h2 c = None /\
      nextOf h2 c = None /\
      (forall r, r <> c -> parentOf h2 r = parentOf h r /\ nextOf h2 r = nextOf h r).
Proof.
  intros h p c i Hg Hc Hinv Hnotin Hi.
  assert (Hall : forall x, x ∈ kids h p -> (x < length h)%nat).
  { intros x Hx. apply list_elem_of_lookup in Hx as [j Hj]. apply (Hinv j x Hj). }
  assert (Hbc : before (kids h p) i <> Some c).
  { intros Hb. apply Hnotin. eapply before_elem. exact Hb. }
  set (cs := kids h p) in *.
  set (cs1 := take i cs ++ c :: drop i cs).
  (* the insertion *)
  assert (Hins : exists h1,
             insertChild (Some p) (Some c) (Z.of_nat i) h = (Ok tt, h1) /\
             length h1 = length h /\
             childrenOf h1 p = Some cs1 /\
             (forall r, parentOf h1 r = if decide (r = c) then Some p else parentOf h r) /\
             (forall r, nextOf h1 r
                        = if decide (r = c) then cs !! i
                          else if decide (before cs i = Some r) then Some c
                               else nextOf h r)).
  { destruct (decide (i = length cs)) as [Heq|Hne].
    - replace (Z.of_nat i) with (Z.of_nat (length (kids h p))) by (fold cs; lia).
      rewrite insertChild_at_end.
      destruct (appendChild_ok h p c Hg Hc) as (h1 & E & L & _ & C & P & N).
      { intros l Hl. apply Hall. rewrite last_lookup in Hl.
        apply list_elem_of_lookup. eauto. }
      exists h1. split; [exact E|]. split; [exact L|]. split; [|split; [exact P|]].
      + rewrite C, decide_True by reflexivity. unfold cs1.
        rewrite take_ge, drop_ge by lia. reflexivity.
      + intros r. rewrite N.
        destruct (decide (r = c)); [symmetry; apply lookup_ge_None; lia|].
        fold cs. rewrite Heq, before_length. reflexivity.
    - destruct (insertChild_ok h p c i Hg Hc ltac:(fold cs; lia))
        as (h1 & E & L & _ & C & P & N).
      { intros b Hb. apply Hall. eapply before_elem. exact Hb. }
      exists h1. split; [exact E|]. split; [exact L|]. split; [|split; [exact P|]].
      + rewrite C, decide_True by reflexivity. reflexivity.
      + intros r. rewrite N. fold cs.
        destruct (decide (before cs i = Some r)) as [Hb|Hb].
        * rewrite decide_False by (intros ->; contradiction). reflexivity.
        * reflexivity. }
  destruct Hins as (h1 & E1 & L1 & C1 & P1 & N1).
  assert (Hi1 : cs1 !! i = Some c).
  { unfold cs1. rewrite lookup_inserted by lia. rewrite decide_False by lia.
    rewrite decide_True by reflexivity. reflexivity. }
  destruct (removeChild_ok h1 p (ByIndex (Z.of_nat i)) cs1 i c C1 eq_refl Hi1)
    as (h2 & E2 & _ & L2 & _ & C2 & P2 & N2).
  { lia. }
  { intros b Hb. unfold cs1 in Hb. rewrite before_inserted in Hb by lia.
    rewrite L1. apply Hall. eapply before_elem. exact Hb. }
  assert (Hk2 : kids h2 p = cs).
  { unfold kids at 1. rewrite C2, decide_True by reflexivity. simpl.
    unfold cs1. apply delete_inserted. lia. }
  assert (Hlinks : forall r, r <> c ->
             parentOf h2 r = parentOf h r /\ nextOf h2 r = nextOf h r).
  { intros r Hr. split.
    - rewrite P2, decide_False by assumption. rewrite P1, decide_False by assumption.
      reflexivity.
    - rewrite N2, decide_False by assumption.
      unfold cs1. rewrite before_inserted by lia.
      destruct (decide (before cs i = Some r)) as [Hb|Hb].
      + rewrite N1, decide_True by reflexivity.
        apply before_lookup in Hb as (j & -> & Hj).
        destruct (Hinv j r Hj) as [_ Hn]. symmetry. exact Hn.
      + rewrite N1, decide_False by assumption.
        rewrite decide_False by assumption. reflexivity. }
  exists h1, h2. split; [exact E1|]. split; [exact E2|]. split; [exact Hk2|].
  split; [|split; [|split; [|exact Hlinks]]].
  - unfold sibling_inv. rewrite Hk2. intros j x Hj.
    destruct (Hinv j x Hj) as [Hx Hn]. split; [lia|].
    assert (x <> c) by (intros ->; apply Hnotin, list_elem_of_lookup; eauto).
    rewrite (proj2 (Hlinks x H)). exact Hn.
  - rewrite P2, decide_True by reflexivity. reflexivity.
  - rewrite N2, decide_True by reflexivity. reflexivity.
Qed.

(** On [<p>a<b>x</b>c</p>] with the detached node 5, at index 1. *)
Lemma insertChild_removeChild_restores_witness :
  exists h1 h2,
    insertChild (Some 0%nat) (Some 5%nat) 1 sample_heap_detached = (Ok tt, h1) /\
    removeChild (Some 0%nat) (Some (ByIndex 1)) h1 = (Ok (Some 5%nat), h2) /\
    kids h2 0%nat = [1%nat; 2%nat; 4%nat] /\
    nextOf h2 1%nat = Some 2%nat.
Proof.
  destruct (insertChild_removeChild_restores sample_heap_detached 0%nat 5%nat 1
              sample_detached_general)
    as (h1 & h2 & E1 & E2 & K & _ & _ & _ & Hl).
  { vm_compute. lia. }
  { exact sample_sibling_inv. }
  { exact sample_detached_notin. }
  { vm_compute. lia. }
  exists h1, h2. split; [exact E1|]. split; [exact E2|]. split; [exact K|].
  rewrite (proj2 (Hl 1%nat ltac:(discriminate))). reflexivity.
Defined.

(** ** removeSiblings between two siblings *)

Lemma removeSiblings_loop_eq (fuel : nat) (from to : option ref) (removed : list ref) :
  removeSiblings_loop fuel from to removed
  = if bool_decide (from = to) then ret removed
    else
      match fuel with
      | O => out_of_fuel
      | S fuel' =>
          match from with
          | None => throw NativeTypeError
          | Some removeMe =>
              n <- get_node removeMe ;;
              remove (Some removeMe) ;;;
              removeSiblings_loop fuel' (nextSibling n) to (removed ++ [removeMe])
          end
      end.
Proof. destruct fuel; reflexivity. Qed.

Lemma nextOf_node (h : Heap) (x : ref) :
  (x < length h)%nat -> exists n, h !! x = Some n /\ nextSibling n = nextOf h x.
Proof.
  intros Hx. destruct (lookup_lt_is_Some_2 h x Hx) as [n Hn].
  exists n. unfold nextOf. rewrite Hn. auto.
Qed.

Lemma removeSiblings_loop_ok (p to : ref) (pre post : list ref) :
  forall (mid : list ref) (h : Heap) (removed : list ref) (fuel : nat),
    kids h p = pre ++ mid ++ to :: post ->
    sibling_inv h p ->
    (forall y, y ∈ kids h p -> parentOf h y = Some p) ->
    (length mid <= fuel)%nat ->
    exists h',
      removeSiblings_loop fuel (head (mid ++ [to])) (Some to) removed h
        = (Ok (removed ++ mid), h') /\
      kids h' p = pre ++ to :: post /\
      sibling_inv h' p /\
      (forall y, y ∈ kids h' p -> parentOf h' y = Some p) /\
      (forall x, x ∈ mid -> parentOf h' x = None /\ nextOf h' x = None) /\
      (forall r, r ∉ mid -> parentOf h' r = parentOf h r) /\
      (forall r, r ∉ mid -> last pre <> Some r -> nextOf h' r = nextOf h r).
Proof.
  induction mid as [|x mid IH]; intros h removed fuel Hk Hinv Hpar Hfuel.
  - exists h. rewrite removeSiblings_loop_eq. simpl.
    rewrite bool_decide_eq_true_2 by reflexivity. rewrite app_nil_r.
    split; [reflexivity|]. split; [exact Hk|]. split; [exact Hinv|]. split; [exact Hpar|].
    split; [|split; auto].
    intros x Hx. apply elem_of_nil in Hx. destruct Hx.
  - destruct fuel as [|fuel]; [simpl in Hfuel; lia|]. simpl in Hfuel.
    pose proof (sibling_inv_NoDup h p Hinv) as Hnd.
    set (cs := kids h p) in *.
    assert (Hix : cs !! length pre = Some x).
    { rewrite Hk, lookup_app_r by lia. rewrite Nat.sub_diag. reflexivity. }
    assert (Hito : cs !! (length pre + S (length mid))%nat = Some to).
    { rewrite Hk, lookup_app_r by lia.
      replace (length pre + S (length mid) - length pre)%nat with (S (length mid)) by lia.
      simpl. rewrite lookup_app_r by lia. rewrite Nat.sub_diag. reflexivity. }
    assert (Hxto : x <> to).
    { intros ->. pose proof (NoDup_lookup _ _ _ _ Hnd Hix Hito). lia. }
    destruct (Hinv _ _ Hix) as [Hxlen Hxnext].
    destruct (nextOf_node h x Hxlen) as (n & Hn & Hnn).
    assert (Hcs : childrenOf h p = Some cs).
    { unfold cs, kids in *. destruct (childrenOf h p); [reflexivity|discriminate]. }
    destruct (removeChild_ok h p (ByNode x) cs (length pre) x Hcs)
      as (h1 & E1 & _ & L1 & S1 & C1 & P1 & N1).
    { simpl. apply indexOf_NoDup; assumption. }
    { exact Hix. }
    { exact Hxlen. }
    { intros b Hb. apply before_lookup in Hb as (j & _ & Hj). apply (Hinv _ _ Hj). }
    pose proof (sibling_inv_remove _ _ _ _ _ Hinv E1) as Hinv1.
    assert (Hk1 : kids h1 p = pre ++ mid ++ to :: post).
    { unfold kids at 1. rewrite C1, decide_True by reflexivity. simpl.
      rewrite Hk, delete_take_drop, take_app_length.
      rewrite drop_app_ge by lia.
      replace (S (length pre) - length pre)%nat with 1%nat by lia. reflexivity. }
    assert (Hxnot : x ∉ pre ++ mid ++ to :: post).
    { rewrite <- Hk1. unfold kids. rewrite C1, decide_True by reflexivity. simpl.
      apply (NoDup_delete_notin _ _ _ Hnd Hix). }
    assert (Hbefore : before cs (length pre) = last pre).
    { rewrite <- before_length. destruct (length pre) as [|j] eqn:El; [reflexivity|].
      simpl. rewrite Hk. apply lookup_app_l. lia. }
    destruct (IH h1 (removed ++ [x]) fuel Hk1 Hinv1) as
      (h2 & E2 & Hk2 & Hinv2 & Hpar2 & Hdet2 & Pf2 & Nf2).
    { intros y Hy. rewrite Hk1 in Hy.
      assert (y <> x) by (intros ->; contradiction).
      rewrite P1, decide_False by assumption. apply Hpar.
      rewrite Hk. apply elem_of_app in Hy as [Hy|Hy]; [apply elem_of_app; auto|].
      apply elem_of_app. right. right. exact Hy. }
    { lia. }
    assert (Hxmid : x ∉ mid).
    { intros Hin. apply Hxnot. apply elem_of_app. right. apply elem_of_app. left. exact Hin. }
    assert (Hxlast : last pre <> Some x).
    { intros Hl. apply Hxnot. apply elem_of_app. left.
      rewrite last_lookup in Hl. apply list_elem_of_lookup. eauto. }
    exists h2. split; [|split; [exact Hk2|split; [exact Hinv2|split; [exact Hpar2|split; [|split]]]]].
    + rewrite removeSiblings_loop_eq. cbn [head app].
      rewrite bool_decide_eq_false_2 by (intros [= Heq]; exact (Hxto Heq)).
      erewrite bind_ok by (apply get_node_ok; exact Hn).
      erewrite bind_ok by (eapply remove_via_removeChild; [|exact E1];
                           apply Hpar, list_elem_of_lookup; eauto).
      rewrite Hnn, Hxnext.
      replace (cs !! S (length pre)) with (head (mid ++ [to])).
      * rewrite <- app_assoc in E2. exact E2.
      * rewrite Hk, lookup_app_r by lia.
        replace (S (length pre) - length pre)%nat with 1%nat by lia. simpl.
        destruct mid; reflexivity.
    + intros y Hy. apply elem_of_cons in Hy as [->|Hy]; [|apply Hdet2; exact Hy].
      rewrite Pf2, Nf2 by assumption.
      rewrite P1, N1, !decide_True by reflexivity. auto.
    + intros r Hr. apply not_elem_of_cons in Hr as [Hne Hr].
      rewrite Pf2 by assumption. rewrite P1, decide_False by assumption. reflexivity.
    + intros r Hr Hl. apply not_elem_of_cons in Hr as [Hne Hr].
      rewrite Nf2 by assumption. rewrite N1, decide_False by assumption.
      rewrite Hbefore. rewrite decide_False by assumption. reflexivity.
Qed.

Lemma split_between {A} (l : list A) (i j : nat) (y : A) :
  (i < j)%nat -> l !! j = Some y ->
  l = take (S i) l ++ take (j - i - 1) (drop (S i) l) ++ y :: drop (S j) l.
Proof.
  intros Hij Hj.
  rewrite <- (take_drop (S i) l) at 1. f_equal.
  rewrite <- (take_drop (j - i - 1) (drop (S i) l)) at 1. f_equal.
  rewrite drop_drop.
  replace (S i + (j - i - 1))%nat with j by lia.
  apply drop_S. exact Hj.
Qed.

(** X10: for two children [from] and [to] of a well-formed parent (sibling
    links and parent links in order), [from] before [to],
    [removeSiblings(from, to)] returns, in order, the children strictly
    between them; afterwards the parent keeps the other children in their
    order, its sibling links are in order again (so [from] points to [to]),
    and every removed node has neither parent nor next sibling. *)
Theorem removeSiblings_between :
  forall (h : Heap) (p from to : ref) (i j fuel : nat),
    sibling_inv h p ->
    (forall y, y ∈ kids h p -> parentOf h y = Some p) ->
    kids h p !! i = Some from ->
    kids h p !! j = Some to ->
    (i < j)%nat ->
    (j - i - 1 <= fuel)%nat ->
    exists h',
      removeSiblings fuel (Some from) (Some to) h
        = (Ok (take (j - i - 1) (drop (S i) (kids h p))), h') /\
      kids h' p = take (S i) (kids h p) ++ drop j (kids h p) /\
      sibling_inv h' p /\
      nextOf h' from = Some to /\
      (forall x, x ∈ take (j - i - 1) (drop (S i) (kids h p)) ->
                 parentOf h' x = None /\ nextOf h' x = None) /\
      (forall r, r ∉ take (j - i - 1) (drop (S i) (kids h p)) ->
                 parentOf h' r = parentOf h r).
Proof.
  intros h p from to i j fuel Hinv Hpar Hi Hj Hij Hfuel.
  pose proof (sibling_inv_NoDup h p Hinv) as Hnd.
  set (cs := kids h p) in *.
  set (pre := take (S i) cs). set (mid := take (j - i - 1) (drop (S i) cs)).
  set (post := drop (S j) cs).
  assert (Hk : cs = pre ++ mid ++ to :: post) by (apply split_between; assumption).
  assert (Hmidlen : length mid = (j - i - 1)%nat).
  { unfold mid. rewrite length_take, length_drop.
    apply lookup_lt_Some in Hj. lia. }
  destruct (removeSiblings_loop_ok p to pre post mid h [] fuel Hk Hinv Hpar)
    as (h' & E & Hk' & Hinv' & _ & Hdet & Pf & _); [lia|].
  assert (Hdropj : drop j cs = to :: post) by (apply drop_S; exact Hj).
  assert (Hk'' : kids h' p = pre ++ drop j cs) by (rewrite Hdropj; exact Hk').
  exists h'. split; [|split; [exact Hk''|split; [exact Hinv'|split; [|split]]]].
  - unfold removeSiblings.
    rewrite bool_decide_eq_false_2.
    2:{ intros [= ->]. pose proof (NoDup_lookup _ _ _ _ Hnd Hi Hj). lia. }
    destruct (Hinv _ _ Hi) as [Hflen Hfnext].
    destruct (nextOf_node h from Hflen) as (n & Hn & Hnn).
    erewrite bind_ok by (apply get_node_ok; exact Hn).
    rewrite Hnn, Hfnext.
    replace (cs !! S i) with (head (mid ++ [to])); [exact E|].
    rewrite Hk. unfold pre at 1.
    rewrite lookup_app_r by (rewrite length_take; apply lookup_lt_Some in Hi; lia).
    rewrite length_take. apply lookup_lt_Some in Hi.
    replace (S i - S i `min` length cs)%nat with 0%nat by lia.
    destruct mid; reflexivity.
  - assert (Hlenpre : length pre = S i).
    { unfold pre. rewrite length_take. apply lookup_lt_Some in Hi. lia. }
    assert (Hfi : kids h' p !! i = Some from).
    { rewrite Hk'. rewrite lookup_app_l by lia. unfold pre.
      rewrite lookup_take_lt by lia. exact Hi. }
    destruct (Hinv' _ _ Hfi) as [_ Hn]. rewrite Hn, Hk'.
    rewrite lookup_app_r by lia. rewrite Hlenpre, Nat.sub_diag. reflexivity.
  - exact Hdet.
  - exact Pf.
Qed.

(** Between [a] and [c] of [<p>a<b>x</b>c</p>] there is [b]. *)
Lemma removeSiblings_between_witness :
  exists h',
    removeSiblings 5 (Some 1%nat) (Some 4%nat) sample_heap = (Ok [2%nat], h') /\
    kids h' 0%nat = [1%nat; 4%nat] /\
    nextOf h' 1%nat = Some 4%nat.
Proof.
  assert (Hinv : sibling_inv sample_heap 0%nat).
  { unfold sibling_inv. change (kids sample_heap 0%nat) with [1%nat; 2%nat; 4%nat].
    intros i x Hi.
    destruct i as [|[|[|i]]]; simpl in Hi; try discriminate;
      injection Hi as <-; (split; [vm_compute; lia|reflexivity]). }
  destruct sample_well_formed as (_ & _ & Hpar).
  destruct (removeSiblings_between sample_heap 0%nat 1%nat 4%nat 0 2 5 Hinv Hpar)
    as (h' & E & K & _ & N & _).
  { reflexivity. }
  { reflexivity. }
  { lia. }
  { lia. }
  exists h'. split; [exact E|]. split; [exact K|exact N].
Defined.

(** ** The before-marker loop when the marker's ancestor is a later child *)

Lemma splitBefore_loop_stops (root clone s : ref) (post : list ref) :
  forall (pre : list ref) (h : Heap) (fuel : nat),
    split_state h root clone ->
    kids h root = pre ++ s :: post ->
    s ∉ pre ->
    (length pre < fuel)%nat ->
    exists h',
      splitBefore_loop fuel root clone (Some s) h = (Ok tt, h') /\
      split_state h' root clone /\
      kids h' root = post /\
      kids h' clone = kids h clone ++ pre ++ [s] /\
      length h' = length h /\
      (forall r, scalarsOf h' r = scalarsOf h r) /\
      (forall r, r ∉ pre ++ [s] -> parentOf h' r = parentOf h r).
Proof.
  induction pre as [|x pre IH]; intros h fuel Hss Hk Hs Hfuel;
    (destruct fuel as [|fuel]; [simpl in Hfuel; lia|]); simpl in Hfuel.
  - simpl in Hk.
    assert (Hi : kids h root !! 0%nat = Some s) by (rewrite Hk; reflexivity).
    destruct (move_child h root clone 0 s Hss Hi)
      as (h1 & h2 & E1 & E2 & Hss2 & Hkr & Hkc & L2 & S2 & P2).
    rewrite Hk in Hkr. simpl in Hkr.
    exists h2. split; [|split; [exact Hss2|split; [exact Hkr|split; [exact Hkc|split; [exact L2|split; [exact S2|]]]]]].
    + cbn [splitBefore_loop].
      pose proof (ss_container _ _ _ Hss) as Hc. rewrite Hk in Hc.
      erewrite bind_ok by (apply read_childNodes_ok; exact Hc).
      change (nthZ (s :: post) 0) with (Some s).
      erewrite bind_ok by exact E1.
      erewrite bind_ok by exact E2.
      rewrite bool_decide_eq_true_2 by reflexivity. reflexivity.
    + intros r Hr. apply P2. intros ->. apply Hr. simpl. apply list_elem_of_here.
  - simpl in Hk. apply not_elem_of_cons in Hs as [Hsx Hs].
    assert (Hi : kids h root !! 0%nat = Some x) by (rewrite Hk; reflexivity).
    destruct (move_child h root clone 0 x Hss Hi)
      as (h1 & h2 & E1 & E2 & Hss2 & Hkr & Hkc & L2 & S2 & P2).
    rewrite Hk in Hkr. simpl in Hkr.
    destruct (IH h2 fuel Hss2 Hkr Hs ltac:(lia))
      as (h3 & E3 & Hss3 & Hkr3 & Hkc3 & L3 & S3 & P3).
    exists h3. split; [|split; [exact Hss3|split; [exact Hkr3|split; [|split; [lia|split]]]]].
    + cbn [splitBefore_loop].
      pose proof (ss_container _ _ _ Hss) as Hc. rewrite Hk in Hc.
      erewrite bind_ok by (apply read_childNodes_ok; exact Hc).
      change (nthZ (x :: pre ++ s :: post) 0) with (Some x).
      erewrite bind_ok by exact E1.
      erewrite bind_ok by exact E2.
      rewrite bool_decide_eq_false_2 by (intros [= Heq]; apply Hsx; symmetry; exact Heq).
      exact E3.
    + rewrite Hkc3, Hkc, <- app_assoc. reflexivity.
    + intros r. rewrite S3. apply S2.
    + intros r Hr. simpl in Hr. apply not_elem_of_cons in Hr as [Hne Hr].
      rewrite P3 by exact Hr. apply P2. exact Hne.
Qed.

(** X11: for a non-text [root] of a well-formed tree (its children are
    distinct and name it as their parent) and a marker whose top-level
    ancestor is the child of [root] at an index [k] of at least 1,
    [splitByChild(root, marker, false, removeMarkerNode)] returns a fresh
    shallow clone of [root] that holds, in order, the children of [root]
    below index [k], now with the clone as parent; [root] keeps the children
    from index [k] on, or, when [removeMarkerNode] is set, those above index
    [k] only. *)
Theorem splitByChild_before_marker :
  forall (h : Heap) (root marker : ref) (k : nat) (rest : list Z)
         (removeMarkerNode : bool) (fuel : nat),
    is_general h root ->
    NoDup (kids h root) ->
    (forall x, x ∈ kids h root -> parentOf h x = Some root) ->
    descends h root marker (Z.of_nat k :: rest) ->
    (1 <= k)%nat ->
    (length (kids h root) + length rest < fuel)%nat ->
    exists h',
      splitByChild fuel root marker false removeMarkerNode h = (Ok (length h), h') /\
      kids h' (length h) = take k (kids h root) /\
      kids h' root = (if removeMarkerNode then drop (S k) (kids h root)
                      else drop k (kids h root)) /\
      scalarsOf h' (length h) = scalarsOf h root /\
      (forall x, x ∈ take k (kids h root) -> parentOf h' x = Some (length h)) /\
      (forall x, x ∈ kids h' root -> parentOf h' x = Some root).
Proof.
  intros h root marker k rest rm fuel (n & Hn & Ht) Hnd Hpar Hd Hk1 Hfuel.
  destruct (descends_head _ _ _ _ _ Hd) as (cs & a & Hcs & Ha & Hidx).
  pose proof (kids_childrenOf _ _ _ Hcs) as Hk. rewrite Hk in *.
  pose proof (indexOf_lookup _ _ _ Hidx) as Hka.
  pose proof (lookup_lt_Some _ _ _ Hka) as Hklen.
  destruct k as [|k]; [lia|]. clear Hk1.
  destruct (lookup_lt_is_Some_2 cs k ltac:(lia)) as [s Hks].
  destruct (split_state_init h root n cs Hn Ht Hcs Hnd Hpar)
    as (Hss & Hkr & Hkc & Hsc & Hpe).
  set (h1 := h ++ [shallow_copy n]) in *.
  assert (Htake : take (S k) cs = take k cs ++ [s]) by (apply take_S_r; exact Hks).
  assert (Hsplit : kids h1 root = take k cs ++ s :: drop (S k) cs).
  { rewrite Hkr. rewrite <- (take_drop (S k) cs) at 1.
    rewrite Htake, <- app_assoc. reflexivity. }
  assert (Hsnot : s ∉ take k cs).
  { intros Hin. apply elem_of_take in Hin as (j & Hj & Hlt).
    pose proof (NoDup_lookup _ _ _ _ Hnd Hks Hj). lia. }
  destruct (splitBefore_loop_stops root (length h) s (drop (S k) cs) (take k cs)
              h1 fuel Hss Hsplit Hsnot)
    as (h2 & E2 & Hss2 & Hkr2 & Hkc2 & L2 & S2 & P2).
  { rewrite length_take. lia. }
  rewrite Hkc in Hkc2. simpl in Hkc2. rewrite <- Htake in Hkc2.
  assert (Hrun : splitByChild fuel root marker false rm h
                 = ((if rm then cs' <- read_childNodes root ;; remove (nthZ cs' 0)
                     else ret tt) ;;; ret (length h)) h2).
  { unfold splitByChild.
    erewrite bind_ok by (apply getDescendantPath_ok; [exact Hd|simpl; lia]).
    erewrite bind_ok by (apply cloneNode_shallow_ok; exact Hn).
    simpl head. simpl option_map. cbv iota.
    replace (Z.of_nat (S k) + -1) with (Z.of_nat k) by lia.
    pose proof (ss_container _ _ _ Hss) as Hc1. rewrite Hkr in Hc1.
    unfold bind at 1.
    erewrite bind_ok by (apply read_childNodes_ok; exact Hc1).
    simpl from_option. rewrite nthZ_of_nat, Hks.
    unfold bind at 1. fold h1. rewrite E2. reflexivity. }
  rewrite Hrun. clear Hrun.
  assert (Hmoved : forall x, x ∈ take (S k) cs -> parentOf h2 x = Some (length h)).
  { intros x Hx. apply (ss_moved _ _ _ Hss2). rewrite Hkc2. exact Hx. }
  assert (Hdrop : drop (S k) cs = a :: drop (S (S k)) cs) by (apply drop_S; exact Hka).
  destruct rm.
  - assert (Hka2 : kids h2 root !! 0%nat = Some a) by (rewrite Hkr2, Hdrop; reflexivity).
    destruct (remove_ok h2 root a 0) as (h3 & E3 & L3 & S3 & C3 & P3).
    { apply (ss_nodup _ _ _ Hss2). }
    { apply (ss_parent _ _ _ Hss2). }
    { exact Hka2. }
    assert (Hnotin : a ∉ take (S k) cs).
    { intros Hin. apply elem_of_take in Hin as (j & Hj & Hlt).
      pose proof (NoDup_lookup _ _ _ _ Hnd Hka Hj). lia. }
    assert (Hkr3 : kids h3 root = drop (S (S k)) cs).
    { unfold kids at 1. rewrite C3, decide_True by reflexivity. simpl.
      rewrite Hkr2, Hdrop. reflexivity. }
    exists h3. split; [|split; [|split; [exact Hkr3|split; [|split]]]].
    + pose proof (ss_container _ _ _ Hss2) as Hc2. rewrite Hkr2 in Hc2.
      erewrite bind_ok; [reflexivity|].
      erewrite bind_ok by (apply read_childNodes_ok; exact Hc2).
      rewrite Hdrop. change (nthZ (a :: drop (S (S k)) cs) 0) with (Some a). exact E3.
    + unfold kids at 1. rewrite C3, decide_False by (apply not_eq_sym, (ss_distinct _ _ _ Hss2)).
      fold (kids h2 (length h)). exact Hkc2.
    + rewrite S3, S2. exact Hsc.
    + intros x Hx. rewrite P3.
      rewrite decide_False by (intros ->; contradiction).
      apply Hmoved. exact Hx.
    + intros x Hx. rewrite Hkr3 in Hx. rewrite P3.
      assert (x <> a).
      { intros ->. apply list_elem_of_lookup in Hx as [j Hj].
        rewrite lookup_drop in Hj.
        pose proof (NoDup_lookup _ _ _ _ Hnd Hka Hj). lia. }
      rewrite decide_False by assumption.
      apply (ss_parent _ _ _ Hss2). rewrite Hkr2, Hdrop.
      apply list_elem_of_further. exact Hx.
  - exists h2. split; [reflexivity|].
    split; [exact Hkc2|]. split; [exact Hkr2|]. split; [|split].
    + rewrite S2. exact Hsc.
    + exact Hmoved.
    + apply (ss_parent _ _ _ Hss2).
Qed.

(** In [<p>a<b>x</b>c</p>], splitting before [x] moves [a] to the clone and
    [p] keeps [b] and [c]. *)
Lemma splitByChild_before_marker_witness :
  exists h',
    splitByChild 10 0%nat 3%nat false false sample_heap = (Ok 5%nat, h') /\
    kids h' 5%nat = [1%nat] /\
    kids h' 0%nat = [2%nat; 4%nat].
Proof.
  destruct sample_well_formed as (Hg & Hnd & Hpar).
  destruct (splitByChild_before_marker sample_heap 0%nat 3%nat 1 [0] false 10
              Hg Hnd Hpar sample_descends)
    as (h' & E & Kc & Kr & _).
  { lia. }
  { vm_compute. lia. }
  exists h'. split; [exact E|]. split; [exact Kc|exact Kr].
Defined.

(** ** A marker outside the tree of the root *)

Lemma getDescendantPath_loop_outside (h : Heap) (root node : ref) (d : nat) :
  outside h root node d ->
  forall (fuel : nat) (acc : list Z),
    (d < fuel)%nat ->
    getDescendantPath_loop fuel root node acc h
    = (Throw (Error "Argument descendant is not a descendant of root"), h).
Proof.
  induction 1 as [node n Hne Hn Hp|node parent cs d Hne Hpar Hcs Ho IH];
    intros fuel acc Hfuel; (destruct fuel as [|fuel]; [lia|]); simpl;
    (destruct (Nat.eqb_spec node root) as [|_]; [congruence|]).
  - step_with ltac:(apply get_node_ok; exact Hn).
    rewrite Hp. reflexivity.
  - assert (Hn : exists n, h !! node = Some n /\ parentNode n = Some parent).
    { unfold parentOf in Hpar. destruct (h !! node) as [n|]; [eauto|discriminate]. }
    destruct Hn as (n & Hn & Hnp).
    step_with ltac:(apply get_node_ok; exact Hn).
    rewrite Hnp.
    step_with ltac:(apply read_childNodes_ok; exact Hcs).
    apply IH. lia.
Qed.

(** X12: when the [parentNode] chain of the marker ends without meeting
    [root], [splitByChild] throws the error of [getDescendantPath],
    "Argument descendant is not a descendant of root", whatever the two
    flags, before it clones or moves anything: the store is unchanged. *)
Theorem splitByChild_marker_outside :
  forall (h : Heap) (root marker : ref) (d fuel : nat)
         (afterMarker removeMarkerNode : bool),
    outside h root marker d ->
    (d < fuel)%nat ->
    getDescendantPath fuel root marker h
      = (Throw (Error "Argument descendant is not a descendant of root"), h) /\
    splitByChild fuel root marker afterMarker removeMarkerNode h
      = (Throw (Error "Argument descendant is not a descendant of root"), h).
Proof.
  intros h root marker d fuel am rm Ho Hfuel.
  assert (E : getDescendantPath fuel root marker h
              = (Throw (Error "Argument descendant is not a descendant of root"), h)).
  { unfold getDescendantPath.
    erewrite bind_throw by (eapply getDescendantPath_loop_outside; eassumption).
    reflexivity. }
  split; [exact E|].
  unfold splitByChild. erewrite bind_throw by exact E. reflexivity.
Qed.

(** The detached text node at address 5 is not below [b] (address 2), and
    neither is [a] (address 1), whose chain ends at [p]. *)
Lemma splitByChild_marker_outside_witness :
  splitByChild 5 2%nat 5%nat true false sample_heap_detached
    = (Throw (Error "Argument descendant is not a descendant of root"),
       sample_heap_detached) /\
  splitByChild 5 2%nat 1%nat false true sample_heap
    = (Throw (Error "Argument descendant is not a descendant of root"), sample_heap).
Proof.
  split.
  - refine (proj2 (splitByChild_marker_outside sample_heap_detached 2%nat 5%nat 0 5
                     true false _ _)); [|lia].
    eapply outside_top; [discriminate|reflexivity|reflexivity].
  - refine (proj2 (splitByChild_marker_outside sample_heap 2%nat 1%nat 1 5
                     false true _ _)); [|lia].
    eapply outside_up with (parent := 0%nat); [discriminate|reflexivity|reflexivity|].
    eapply outside_top; [discriminate|reflexivity|reflexivity].
Defined.

(** ** The root as its own marker *)

(** X13: with [root] itself as the marker the path is empty and the child
    index is [NaN].  For a non-text [root] with a child array of distinct
    children that name it as their parent: splitting after the marker moves
    nothing and returns a fresh childless shallow clone; with
    [removeMarkerNode] it also detaches the last child of [root]; splitting
    before the marker moves every child to the clone and then throws the
    missing-argument error of [remove]. *)
Theorem splitByChild_marker_is_root :
  forall (h : Heap) (root : ref) (n : XmlNode) (fuel : nat),
    h !! root = Some n ->
    isTextNode n = Ok false ->
    childrenOf h root = Some (kids h root) ->
    NoDup (kids h root) ->
    (forall x, x ∈ kids h root -> parentOf h x = Some root) ->
    splitByChild fuel root root true false h = (Ok (length h), h ++ [shallow_copy n]) /\
    (forall cs z, kids h root = cs ++ [z] ->
       exists h',
         splitByChild fuel root root true true h = (Ok (length h), h') /\
         kids h' root = cs /\
         parentOf h' z = None /\
         kids h' (length h) = []) /\
    ((length (kids h root) < fuel)%nat ->
     forall removeMarkerNode,
       exists h',
         splitByChild fuel root root false removeMarkerNode h
           = (Throw (MissingArgumentError "node"), h') /\
         kids h' root = [] /\
         kids h' (length h) = kids h root).
Proof.
  intros h root n fuel Hn Ht Hcs Hnd Hpar.
  destruct (split_state_init h root n (kids h root) Hn Ht Hcs Hnd Hpar)
    as (Hss & Hkr & Hkc & Hsc & Hpe).
  set (h1 := h ++ [shallow_copy n]) in *.
  pose proof (ss_container _ _ _ Hss) as Hc1.
  assert (Hpath : getDescendantPath fuel root root h = (Ok [], h)).
  { apply getDescendantPath_ok; [apply descends_here|simpl; lia]. }
  assert (Hloop : splitAfter_loop fuel root (length h) None h1 = (Ok tt, h1)).
  { rewrite splitAfter_loop_eq.
    erewrite bind_ok by (apply read_childNodes_ok; exact Hc1). reflexivity. }
  split; [|split].
  - unfold splitByChild.
    erewrite bind_ok by exact Hpath.
    erewrite bind_ok by (apply cloneNode_shallow_ok; exact Hn).
    simpl head. simpl option_map. cbv iota.
    fold h1. erewrite bind_ok; [reflexivity|].
    erewrite bind_ok by exact Hloop. reflexivity.
  - intros cs z Hk.
    assert (Hz : kids h1 root !! length cs = Some z).
    { rewrite Hkr, Hk, lookup_app_r by lia. rewrite Nat.sub_diag. reflexivity. }
    destruct (remove_ok h1 root z (length cs)) as (h2 & E2 & L2 & S2 & C2 & P2).
    { apply (ss_nodup _ _ _ Hss). }
    { apply (ss_parent _ _ _ Hss). }
    { exact Hz. }
    exists h2. split; [|split; [|split]].
    + unfold splitByChild.
      erewrite bind_ok by exact Hpath.
      erewrite bind_ok by (apply cloneNode_shallow_ok; exact Hn).
      simpl head. simpl option_map. cbv iota.
      fold h1. erewrite bind_ok; [reflexivity|].
      erewrite bind_ok by exact Hloop.
      erewrite bind_ok by (apply read_childNodes_ok; exact Hc1).
      rewrite Hkr, Hk. unfold last_elem. rewrite last_snoc. exact E2.
    + unfold kids at 1. rewrite C2, decide_True by reflexivity. simpl.
      rewrite Hkr, Hk, delete_take_drop, take_app_length.
      rewrite drop_app_ge by lia.
      replace (S (length cs) - length cs)%nat with 1%nat by lia.
      simpl. apply app_nil_r.
    + rewrite P2, decide_True by reflexivity. reflexivity.
    + unfold kids at 1. rewrite C2, decide_False by (apply not_eq_sym, (ss_distinct _ _ _ Hss)).
      fold (kids h1 (length h)). exact Hkc.
  - intros Hfuel rm.
    destruct (splitBefore_loop_exhausts root (length h) (kids h root) h1 fuel Hss Hkr Hfuel)
      as (h2 & E2 & Hkr2 & Hkc2 & Hss2 & S2).
    exists h2. split; [|split; [exact Hkr2|rewrite Hkc2, Hkc; reflexivity]].
    unfold splitByChild.
    erewrite bind_ok by exact Hpath.
    erewrite bind_ok by (apply cloneNode_shallow_ok; exact Hn).
    simpl head. simpl option_map. cbv iota.
    fold h1. erewrite bind_throw; [reflexivity|].
    erewrite bind_ok by (apply read_childNodes_ok; exact Hc1).
    simpl from_option.
    erewrite bind_throw by exact E2. reflexivity.
Qed.

(** [<p>a<b>x</b>c</p>] split at [p] itself: nothing moves; with
    [removeMarkerNode] the last child [c] is detached. *)
Lemma splitByChild_marker_is_root_witness :
  exists n,
    sample_heap !! 0%nat = Some n /\
    splitByChild 5 0%nat 0%nat true false sample_heap
      = (Ok 5%nat, sample_heap ++ [shallow_copy n]) /\
    exists h',
      splitByChild 5 0%nat 0%nat true true sample_heap = (Ok 5%nat, h') /\
      kids h' 0%nat = [1%nat; 2%nat] /\
      parentOf h' 4%nat = None.
Proof.
  destruct sample_well_formed as ((n & Hn & Ht) & Hnd & Hpar).
  destruct (splitByChild_marker_is_root sample_heap 0%nat n 5 Hn Ht eq_refl Hnd Hpar)
    as (E1 & E2 & _).
  destruct (E2 [1%nat; 2%nat] 4%nat eq_refl) as (h' & E & K & P & _).
  exists n. split; [exact Hn|]. split; [exact E1|].
  exists h'. split; [exact E|]. split; [exact K|exact P].
Defined.

(** ** Shallow clone *)

(** X14: [cloneNode(node, false)] returns a new object, at a fresh address,
    that has the type, name, text and attributes of [node] and neither
    parent, nor child array, nor next sibling, whatever [node] has; the
    objects that were in the store are untouched.  Without a node
    [cloneNode] throws the missing-argument error, for both values of
    [deep], and leaves the store as it is. *)
Theorem cloneNode_shallow_spec :
  forall (fuel : nat) (h : Heap) (r : ref),
    (r < length h)%nat ->
    (exists h',
       cloneNode fuel (Some r) false h = (Ok (length h), h') /\
       length h' = S (length h) /\
       take (length h) h' = h /\
       scalarsOf h' (length h) = scalarsOf h r /\
       parentOf h' (length h) = None /\
       childrenOf h' (length h) = None /\
       nextOf h' (length h) = None) /\
    (forall deep, cloneNode fuel None deep h = (Throw (MissingArgumentError "node"), h)).
Proof.
  intros fuel h r Hr. split; [|intros deep; reflexivity].
  destruct (lookup_lt_is_Some_2 h r Hr) as [n Hn].
  exists (h ++ [shallow_copy n]).
  split; [apply cloneNode_shallow_ok; exact Hn|].
  split; [rewrite length_app; simpl; lia|].
  split; [apply take_app_length|].
  unfold scalarsOf, parentOf, childrenOf, nextOf.
  rewrite lookup_fresh, Hn. simpl. auto.
Qed.

(** The shallow clone of [b] in [<p>a<b>x</b>c</p>] is a childless,
    parentless [b]. *)
Lemma cloneNode_shallow_spec_witness :
  exists h',
    cloneNode 0 (Some 2%nat) false sample_heap = (Ok 5%nat, h') /\
    scalarsOf h' 5%nat = scalarsOf sample_heap 2%nat /\
    parentOf h' 5%nat = None /\
    childrenOf h' 5%nat = None.
Proof.
  destruct (cloneNode_shallow_spec 0 sample_heap 2%nat) as ((h' & E & _ & _ & S & P & C & _) & _).
  { vm_compute. lia. }
  exists h'. split; [exact E|]. split; [exact S|]. split; [exact P|exact C].
Defined.

(** ** insertBefore *)

(** X15: for a reference node [r] that is the child at index [i] of a
    non-text parent [p] with distinct children, and an allocated node [c]
    that is not a child of [p], [insertBefore(c, r)] does what
    [insertChild(p, c, i)] does: [c] becomes the child at index [i],
    directly before [r], with [p] as its parent and [r] as its next sibling,
    and the child that preceded [r] now points to [c]. *)
Theorem insertBefore_spec :
  forall (h : Heap) (p r c : ref) (i : nat),
    is_general h p ->
    NoDup (kids h p) ->
    kids h p !! i = Some r ->
    parentOf h r = Some p ->
    (c < length h)%nat ->
    (c ∉ kids h p) ->
    (forall b, before (kids h p) i = Some b -> (b < length h)%nat) ->
    exists h',
      insertBefore (Some c) (Some r) h = (Ok tt, h') /\
      insertChild (Some p) (Some c) (Z.of_nat i) h = (Ok tt, h') /\
      kids h' p = take i (kids h p) ++ c :: drop i (kids h p) /\
      parentOf h' c = Some p /\
      nextOf h' c = Some r /\
      (forall b, before (kids h p) i = Some b -> nextOf h' b = Some c).
Proof.
  intros h p r c i Hg Hnd Hi Hpar Hc Hnotin Hb.
  pose proof (lookup_lt_Some _ _ _ Hi) as Hlt.
  destruct (insertChild_ok h p c i Hg Hc Hlt Hb) as (h' & E & L & S & C & P & N).
  assert (Hcs : childrenOf h p = Some (kids h p)).
  { unfold kids in *. destruct (childrenOf h p); [reflexivity|].
    simpl in Hlt. lia. }
  assert (Hn : exists n, h !! r = Some n /\ parentNode n = Some p).
  { unfold parentOf in Hpar. destruct (h !! r) as [n|]; [eauto|discriminate]. }
  destruct Hn as (n & Hn & Hnp).
  assert (Hbc : before (kids h p) i <> Some c).
  { intros Hbe. apply Hnotin. apply before_lookup in Hbe as (j & _ & Hj).
    apply list_elem_of_lookup. eauto. }
  exists h'. split; [|split; [exact E|split; [|split; [|split]]]].
  - unfold insertBefore.
    step_with ltac:(apply get_node_ok; exact Hn).
    rewrite Hnp.
    step_with ltac:(apply read_childNodes_ok; exact Hcs).
    rewrite (indexOf_NoDup _ _ _ Hnd Hi). exact E.
  - unfold kids at 1. rewrite C, decide_True by reflexivity. reflexivity.
  - rewrite P, decide_True by reflexivity. reflexivity.
  - rewrite N. destruct (decide (before (kids h p) i = Some c)) as [Hbe|_]; [contradiction|].
    rewrite decide_True by reflexivity. exact Hi.
  - intros b Hbe. rewrite N. destruct (decide (before (kids h p) i = Some b)); [reflexivity|contradiction].
Qed.

(** The detached text node is put before [b] in [<p>a<b>x</b>c</p>]. *)
Lemma insertBefore_spec_witness :
  exists h',
    insertBefore (Some 5%nat) (Some 2%nat) sample_heap_detached = (Ok tt, h') /\
    kids h' 0%nat = [1%nat; 5%nat; 2%nat; 4%nat] /\
    nextOf h' 5%nat = Some 2%nat /\
    nextOf h' 1%nat = Some 5%nat.
Proof.
  destruct (insertBefore_spec sample_heap_detached 0%nat 2%nat 5%nat 1)
    as (h' & E & _ & K & _ & N & B).
  { exact sample_detached_general. }
  { change (kids sample_heap_detached 0%nat) with [1%nat; 2%nat; 4%nat].
    apply (bool_decide_unpack _). vm_compute. exact I. }
  { reflexivity. }
  { reflexivity. }
  { vm_compute. lia. }
  { exact sample_detached_notin. }
  { intros b Hb. change (Some 1%nat = Some b) in Hb. injection Hb as <-. vm_compute. lia. }
  exists h'. split; [exact E|]. split; [exact K|]. split; [exact N|].
  apply B. reflexivity.
Defined.

(** X16: [insertBefore] checks its arguments in this order, and throws
    before it writes anything: a missing new node, a missing reference node,
    then a reference node without parent, for which it throws the plain
    error "'referenceNode' has no parent". *)
Theorem insertBefore_guards :
  forall (h : Heap) (c r : ref) (n : XmlNode) (referenceNode : option ref),
    h !! r = Some n ->
    parentNode n = None ->
    insertBefore None referenceNode h = (Throw (MissingArgumentError "newNode"), h) /\
    insertBefore (Some c) None h = (Throw (MissingArgumentError "referenceNode"), h) /\
    insertBefore (Some c) (Some r) h = (Throw (Error "'referenceNode' has no parent"), h).
Proof.
  intros h c r n ref0 Hn Hp. split; [reflexivity|]. split; [reflexivity|].
  unfold insertBefore.
  step_with ltac:(apply get_node_ok; exact Hn).
  rewrite Hp. reflexivity.
Qed.

(** The root [p] of the sample has no parent. *)
Lemma insertBefore_guards_witness :
  insertBefore (Some 1%nat) (Some 0%nat) sample_heap
    = (Throw (Error "'referenceNode' has no parent"), sample_heap).
Proof.
  destruct sample_well_formed as ((n & Hn & _) & _).
  refine (proj2 (proj2 (insertBefore_guards sample_heap 1%nat 0%nat
                          (default n (sample_heap !! 0%nat)) None _ _)));
    reflexivity.
Defined.

(** ** lastTextChild *)

Lemma filterTextNodes_ext (h h' : Heap) (l : list ref) :
  (forall x, x ∈ l -> isTextNode <$> h' !! x = isTextNode <$> h !! x) ->
  filterTextNodes h' l = filterTextNodes h l.
Proof.
  induction l as [|x l IH]; intros Hext; [reflexivity|]. simpl.
  pose proof (Hext x ltac:(apply list_elem_of_here)) as Hx.
  rewrite IH by (intros y Hy; apply Hext; apply list_elem_of_further; exact Hy).
  destruct (h' !! x) as [n'|], (h !! x) as [n|]; simpl in Hx; try discriminate; [|reflexivity].
  injection Hx as ->. reflexivity.
Qed.

Lemma filterTextNodes_app (h : Heap) (l1 l2 r1 r2 : list ref) :
  filterTextNodes h l1 = Ok r1 -> filterTextNodes h l2 = Ok r2 ->
  filterTextNodes h (l1 ++ l2) = Ok (r1 ++ r2).
Proof.
  revert r1. induction l1 as [|x l1 IH]; intros r1 H1 H2; simpl in *.
  - injection H1 as <-. exact H2.
  - destruct (h !! x) as [n|]; [|discriminate].
    destruct (isTextNode n) as [b| | |]; simpl in *; try discriminate.
    destruct (filterTextNodes h l1) as [f1| | |]; simpl in *; try discriminate.
    injection H1 as <-. rewrite (IH f1 eq_refl H2). simpl.
    destruct b; reflexivity.
Qed.

Lemma filterTextNodes_general (h : Heap) (l : list ref) :
  (forall x, x ∈ l -> is_general h x) -> filterTextNodes h l = Ok [].
Proof.
  induction l as [|x l IH]; intros Hg; [reflexivity|]. simpl.
  destruct (Hg x ltac:(apply list_elem_of_here)) as (n & -> & ->). simpl.
  rewrite IH by (intros y Hy; apply Hg; apply list_elem_of_further; exact Hy).
  reflexivity.
Qed.

Lemma filterTextNodes_valid (h : Heap) (l : list ref) :
  (forall x, x ∈ l -> is_text h x \/ is_general h x) ->
  exists found, filterTextNodes h l = Ok found.
Proof.
  induction l as [|x l IH]; intros Hv; [exists []; reflexivity|]. simpl.
  destruct IH as [found Hf].
  { intros y Hy. apply Hv. apply list_elem_of_further. exact Hy. }
  rewrite Hf.
  destruct (Hv x ltac:(apply list_elem_of_here)) as [(n & -> & ->)|(n & -> & ->)];
    simpl; eauto.
Qed.

Lemma filterTextNodes_sound (h : Heap) (l found : list ref) :
  filterTextNodes h l = Ok found ->
  (forall x, x ∈ l -> (x < length h)%nat) /\
  (forall x, x ∈ found -> is_text h x).
Proof.
  revert found. induction l as [|x l IH]; intros found H; simpl in H.
  - injection H as <-. split; intros x Hx; apply elem_of_nil in Hx; destruct Hx.
  - destruct (h !! x) as [n|] eqn:Hn; [|discriminate].
    destruct (isTextNode n) as [b| | |] eqn:Ht; simpl in H; try discriminate.
    destruct (filterTextNodes h l) as [f1| | |]; simpl in H; try discriminate.
    injection H as <-. destruct (IH f1 eq_refl) as [Ha Hs]. split.
    + intros y Hy. apply elem_of_cons in Hy as [->|Hy]; [|apply Ha; exact Hy].
      apply lookup_lt_is_Some. eauto.
    + intros y Hy. destruct b; [|apply Hs; exact Hy].
      apply elem_of_cons in Hy as [->|Hy]; [|apply Hs; exact Hy].
      exists n. auto.
Qed.

Lemma set_textContent_same (n : XmlNode) (v : JsValue) :
  textContent n = v -> set_textContent v n = n.
Proof. destruct n. simpl. intros ->. reflexivity. Qed.

(** [lastTextChild] on a node that is not a text node. *)
Lemma lastTextChild_general (node : ref) (h : Heap) (n : XmlNode) :
  h !! node = Some n -> isTextNode n = Ok false ->
  lastTextChild node h
  = match filterTextNodes h (default [] (childNodes n)) with
    | Ok found =>
        match last found with
        | Some t =>
            match h !! t with
            | Some tn =>
                (Ok t, if falsy (textContent tn)
                       then alter (set_textContent (VString EmptyString)) t h
                       else h)
            | None => (Stuck, h)
            end
        | None =>
            (newTextNode <- alloc (mkNode Text TEXT_NODE_NAME (VString EmptyString)
                                          None None None None) ;;
             appendChild (Some node) (Some newTextNode) ;;;
             ret newTextNode) h
        end
    | Throw e => (Throw e, h)
    | OutOfFuel => (OutOfFuel, h)
    | Stuck => (Stuck, h)
    end.
Proof.
  intros Hn Ht. unfold lastTextChild.
  step_with ltac:(apply get_node_ok; exact Hn).
  rewrite bind_lift, Ht.
  destruct (childNodes n) as [cs|]; simpl default.
  - unfold bind at 1. unfold bind at 1.
    destruct (filterTextNodes h cs) as [found| | |]; try reflexivity.
    destruct found as [|x found]; [reflexivity|].
    change (Nat.eqb (length (x :: found)) 0) with false. cbv iota.
    unfold last_elem.
    destruct (last (x :: found)) as [t|] eqn:El; [|apply last_None in El; discriminate].
    unfold bind at 1, get_node.
    destruct (h !! t) as [tn|] eqn:Htn; [|reflexivity].
    destruct (falsy (textContent tn)); [|reflexivity].
    unfold bind, update. rewrite Htn. reflexivity.
  - reflexivity.
Qed.

(** X17: for a non-text [node] whose children are valid nodes,
    [lastTextChild(node)] returns the last of the children that is a text
    node, [t]: the children after [t] are not text nodes.  When the text of
    [t] is falsy (absent, [null], the empty string, [0], [false]) it is
    replaced by the empty string; nothing else is written, and no node is
    created. *)
Theorem lastTextChild_existing :
  forall (h : Heap) (node t : ref) (tn : XmlNode) (pre post : list ref),
    is_general h node ->
    kids h node = pre ++ t :: post ->
    (forall x, x ∈ pre -> is_text h x \/ is_general h x) ->
    h !! t = Some tn ->
    isTextNode tn = Ok true ->
    (forall x, x ∈ post -> is_general h x) ->
    lastTextChild node h
    = (Ok t, if falsy (textContent tn)
             then alter (set_textContent (VString EmptyString)) t h
             else h).
Proof.
  intros h node t tn pre post (n & Hn & Ht) Hk Hpre Htn Htt Hpost.
  rewrite (lastTextChild_general node h n Hn Ht).
  assert (Hd : default [] (childNodes n) = pre ++ t :: post).
  { rewrite <- Hk. unfold kids, childrenOf. rewrite Hn. reflexivity. }
  rewrite Hd.
  destruct (filterTextNodes_valid h pre Hpre) as [found Hf].
  assert (Hft : filterTextNodes h (t :: post) = Ok [t]).
  { simpl. rewrite Htn, Htt. simpl.
    rewrite (filterTextNodes_general h post Hpost). reflexivity. }
  rewrite (filterTextNodes_app h pre (t :: post) found [t] Hf Hft).
  rewrite last_snoc, Htn. reflexivity.
Qed.

(** In [<p>a<b>x</b>c</p>] the last text child of [p] is [c], and its text
    is kept. *)
Lemma lastTextChild_existing_witness :
  lastTextChild 0%nat sample_heap = (Ok 4%nat, sample_heap).
Proof.
  destruct sample_well_formed as (Hg & _).
  refine (lastTextChild_existing sample_heap 0%nat 4%nat
            (default (mkNode Text TEXT_NODE_NAME VUndefined None None None None)
                     (sample_heap !! 4%nat))
            [1%nat; 2%nat] [] Hg eq_refl _ eq_refl eq_refl _).
  - intros x Hx. apply elem_of_cons in Hx as [->|Hx].
    + left. eexists. split; reflexivity.
    + apply elem_of_cons in Hx as [->|Hx].
      * right. eexists. split; reflexivity.
      * apply elem_of_nil in Hx. destruct Hx.
  - intros x Hx. apply elem_of_nil in Hx. destruct Hx.
Defined.

(** X18: for a non-text [node] none of whose children is a text node (or
    that has no child array), [lastTextChild(node)] creates a text node with
    the empty string as text, appends it to [node] and returns it: it is the
    last child of [node], names [node] as its parent, has no next sibling,
    and the child that was last now points to it; the content and the parent
    of every other node are as before. *)
Theorem lastTextChild_creates :
  forall (h : Heap) (node : ref),
    is_general h node ->
    (forall x, x ∈ kids h node -> is_general h x) ->
    exists h',
      lastTextChild node h = (Ok (length h), h') /\
      length h' = S (length h) /\
      scalarsOf h' (length h) = Some (Text, TEXT_NODE_NAME, VString EmptyString, None) /\
      kids h' node = kids h node ++ [length h] /\
      parentOf h' (length h) = Some node /\
      nextOf h' (length h) = None /\
      (forall l, last (kids h node) = Some l -> nextOf h' l = Some (length h)) /\
      (forall r, (r < length h)%nat ->
                 scalarsOf h' r = scalarsOf h r /\ parentOf h' r = parentOf h r).
Proof.
  intros h node Hg Hkids.
  pose proof Hg as (n & Hn & Ht).
  assert (Hlt : (node < length h)%nat) by (apply lookup_lt_is_Some; eauto).
  set (new := mkNode Text TEXT_NODE_NAME (VString EmptyString) None None None None).
  set (h0 := h ++ [new]).
  assert (Hk0 : kids h0 node = kids h node) by (apply kids_extend; exact Hlt).
  destruct (appendChild_ok h0 node (length h)) as (h' & E & L & S & C & P & N).
  { apply (is_general_scalars h); [apply scalarsOf_extend; exact Hlt|exact Hg]. }
  { unfold h0. rewrite length_app. simpl. lia. }
  { intros l Hl. rewrite Hk0 in Hl. unfold h0. rewrite length_app. simpl.
    assert (Hin : l ∈ kids h node).
    { rewrite last_lookup in Hl. apply list_elem_of_lookup. eauto. }
    destruct (Hkids l Hin) as (ln & Hln & _).
    apply lookup_lt_Some in Hln. lia. }
  assert (Hnl : forall r, (r < length h)%nat -> r <> length h) by (intros; lia).
  exists h'. split; [|split; [|split; [|split; [|split; [|split; [|split]]]]]].
  - rewrite (lastTextChild_general node h n Hn Ht).
    assert (Hd : default [] (childNodes n) = kids h node).
    { unfold kids, childrenOf. rewrite Hn. reflexivity. }
    rewrite Hd, (filterTextNodes_general h _ Hkids). simpl last. cbv iota.
    erewrite bind_ok by reflexivity. fold new. fold h0.
    erewrite bind_ok by exact E. reflexivity.
  - rewrite L. unfold h0. rewrite length_app. simpl. lia.
  - rewrite S. unfold scalarsOf, h0. rewrite lookup_fresh. reflexivity.
  - unfold kids at 1. rewrite C, decide_True by reflexivity. simpl.
    rewrite Hk0. reflexivity.
  - rewrite P, decide_True by reflexivity. reflexivity.
  - rewrite N, decide_True by reflexivity. reflexivity.
  - intros l Hl. rewrite N.
    assert (Hin : l ∈ kids h node).
    { rewrite last_lookup in Hl. apply list_elem_of_lookup. eauto. }
    destruct (Hkids l Hin) as (ln & Hln & _). apply lookup_lt_Some in Hln.
    rewrite decide_False by lia.
    rewrite Hk0, decide_True by exact Hl. reflexivity.
  - intros r Hr. split.
    + rewrite S. apply scalarsOf_extend. exact Hr.
    + rewrite P, decide_False by lia. apply parentOf_extend. exact Hr.
Qed.

(** In the one-node store [<b/>], [b] gets its first child. *)
Lemma lastTextChild_creates_witness :
  exists h',
    lastTextChild 0%nat [mkNode General "b" VUndefined None None None None]
      = (Ok 1%nat, h') /\
    kids h' 0%nat = [1%nat] /\
    parentOf h' 1%nat = Some 0%nat.
Proof.
  destruct (lastTextChild_creates [mkNode General "b" VUndefined None None None None] 0%nat)
    as (h' & E & _ & _ & K & P & _).
  { eexists. split; reflexivity. }
  { intros x Hx. apply elem_of_nil in Hx. destruct Hx. }
  exists h'. split; [exact E|]. split; [exact K|exact P].
Defined.

Lemma isTextNode_lookup_alter_text (h : Heap) (t x : ref) (v : JsValue) :
  isTextNode <$> alter (set_textContent v) t h !! x = isTextNode <$> h !! x.
Proof.
  destruct (decide (t = x)) as [->|Hne].
  - rewrite list_lookup_alter, decide_True by reflexivity.
    destruct (h !! x); reflexivity.
  - rewrite list_lookup_alter_ne by exact Hne. reflexivity.
Qed.

(** X19: [lastTextChild] is idempotent: when a call returns a node, a second
    call on the same node returns the same text node and writes nothing,
    whether the first call found the node itself, found a text child (and
    possibly normalised its text) or created one. *)
Theorem lastTextChild_idempotent :
  forall (h h1 : Heap) (node t : ref),
    lastTextChild node h = (Ok t, h1) ->
    lastTextChild node h1 = (Ok t, h1).
Proof.
  intros h h1 node t H.
  destruct (h !! node) as [n|] eqn:Hn.
  2:{ unfold lastTextChild in H. unfold bind at 1, get_node in H.
      rewrite Hn in H. discriminate. }
  destruct (isTextNode n) as [[|]| | |] eqn:Ht.
  - unfold lastTextChild in H.
    erewrite bind_ok in H by (apply get_node_ok; exact Hn).
    rewrite bind_lift, Ht in H. injection H as <- <-.
    unfold lastTextChild.
    erewrite bind_ok by (apply get_node_ok; exact Hn).
    rewrite bind_lift, Ht. reflexivity.
  - rewrite (lastTextChild_general node h n Hn Ht) in H.
    set (cs := default [] (childNodes n)) in *.
    destruct (filterTextNodes h cs) as [found| | |] eqn:HF; try discriminate.
    destruct (filterTextNodes_sound h cs found HF) as [Halloc Hsound].
    destruct (last found) as [t'|] eqn:El.
    + destruct (h !! t') as [tn|] eqn:Htn; [|discriminate].
      assert (Htext : isTextNode tn = Ok true).
      { destruct (Hsound t') as (tn' & Htn' & Htt).
        - rewrite last_lookup in El. apply list_elem_of_lookup. eauto.
        - congruence. }
      assert (Hne : t' <> node) by (intros ->; congruence).
      destruct (falsy (textContent tn)) eqn:Ef.
      * injection H as <- <-.
        set (h1 := alter (set_textContent (VString EmptyString)) t' h).
        assert (Hn1 : h1 !! node = Some n).
        { unfold h1. rewrite list_lookup_alter_ne by exact Hne. exact Hn. }
        rewrite (lastTextChild_general node h1 n Hn1 Ht). fold cs.
        rewrite (filterTextNodes_ext h h1 cs)
          by (intros x _; apply isTextNode_lookup_alter_text).
        rewrite HF, El.
        assert (Ht1 : h1 !! t' = Some (set_textContent (VString EmptyString) tn)).
        { unfold h1. rewrite list_lookup_alter, decide_True, Htn by reflexivity.
          reflexivity. }
        rewrite Ht1. simpl falsy. cbv iota.
        f_equal. apply (alter_id_at _ _ _ _ Ht1). reflexivity.
      * injection H as <- <-.
        rewrite (lastTextChild_general node h n Hn Ht). fold cs.
        rewrite HF, El, Htn, Ef. reflexivity.
    + assert (found = []) as -> by (apply last_None; exact El).
      set (new := mkNode Text TEXT_NODE_NAME (VString EmptyString) None None None None) in *.
      set (h0 := h ++ [new]) in *.
      erewrite bind_ok in H by reflexivity. fold h0 in H.
      assert (Hlt : (node < length h)%nat) by (apply lookup_lt_is_Some; eauto).
      assert (Hk : kids h node = cs).
      { unfold kids, childrenOf, cs. rewrite Hn. reflexivity. }
      assert (Hk0 : kids h0 node = cs) by (rewrite <- Hk; apply kids_extend; exact Hlt).
      destruct (appendChild_ok h0 node (length h)) as (h' & E & L & S & C & P & N).
      { apply (is_general_scalars h); [apply scalarsOf_extend; exact Hlt|].
        exists n. auto. }
      { unfold h0. rewrite length_app. simpl. lia. }
      { intros l Hl. rewrite Hk0 in Hl. unfold h0. rewrite length_app. simpl.
        assert (Hin : l ∈ cs).
        { rewrite last_lookup in Hl. apply list_elem_of_lookup. eauto. }
        pose proof (Halloc l Hin). lia. }
      erewrite bind_ok in H by exact E. injection H as <- <-.
      assert (Hsc : forall x, (x < length h)%nat -> scalarsOf h' x = scalarsOf h x).
      { intros x Hx. rewrite S. apply scalarsOf_extend. exact Hx. }
      assert (Hn' : exists n', h' !! node = Some n' /\ scalars n' = scalars n /\
                               childNodes n' = Some (cs ++ [length h])).
      { pose proof (Hsc node Hlt) as Hs. pose proof (C node) as Hc.
        rewrite decide_True in Hc by reflexivity. rewrite Hk0 in Hc.
        unfold scalarsOf, childrenOf in Hs, Hc. rewrite Hn in Hs.
        destruct (h' !! node) as [n'|]; [|discriminate].
        change (Some (scalars n') = Some (scalars n)) in Hs.
        change (childNodes n' = Some (cs ++ [length h])) in Hc.
        exists n'. split; [reflexivity|]. split; [congruence|exact Hc]. }
      destruct Hn' as (n' & Hn' & Hs' & Hc').
      assert (Ha : exists na, h' !! length h = Some na /\ scalars na = scalars new).
      { pose proof (S (length h)) as Hs. unfold scalarsOf, h0 in Hs.
        rewrite lookup_fresh in Hs.
        destruct (h' !! length h) as [na|]; [|discriminate].
        change (Some (scalars na) = Some (scalars new)) in Hs.
        exists na. split; [reflexivity|congruence]. }
      destruct Ha as (na & Hna & Hsa).
      rewrite (lastTextChild_general node h' n' Hn')
        by (rewrite <- Ht; apply isTextNode_scalars; exact Hs').
      rewrite Hc'. simpl default.
      assert (Hf1 : filterTextNodes h' cs = Ok []).
      { rewrite <- HF. apply filterTextNodes_ext. intros x Hx.
        pose proof (Hsc x (Halloc x Hx)) as Hs. unfold scalarsOf in Hs.
        destruct (h' !! x) as [m'|], (h !! x) as [m|]; try discriminate;
          [|reflexivity].
        change (Some (scalars m') = Some (scalars m)) in Hs.
        change (Some (isTextNode m') = Some (isTextNode m)).
        f_equal. apply isTextNode_scalars. congruence. }
      assert (Hf2 : filterTextNodes h' [length h] = Ok [length h]).
      { simpl. rewrite Hna.
        rewrite (isTextNode_scalars na new Hsa). reflexivity. }
      rewrite (filterTextNodes_app h' cs [length h] [] [length h] Hf1 Hf2).
      change (last ([] ++ [length h])) with (Some (length h)). cbv iota. rewrite Hna.
      assert (Htc : textContent na = VString EmptyString).
      { unfold scalars in Hsa. simpl in Hsa. congruence. }
      rewrite Htc. simpl falsy. cbv iota.
      f_equal. apply (alter_id_at _ _ _ _ Hna). apply set_textContent_same. exact Htc.
  - unfold lastTextChild in H.
    erewrite bind_ok in H by (apply get_node_ok; exact Hn).
    rewrite bind_lift, Ht in H. discriminate.
  - unfold lastTextChild in H.
    erewrite bind_ok in H by (apply get_node_ok; exact Hn).
    rewrite bind_lift, Ht in H. discriminate.
  - unfold lastTextChild in H.
    erewrite bind_ok in H by (apply get_node_ok; exact Hn).
    rewrite bind_lift, Ht in H. discriminate.
Qed.

(** On [<b/>] the first call creates the text child at address 1 and the
    second call returns it again. *)
Lemma lastTextChild_idempotent_witness :
  let h := [mkNode General "b" VUndefined None None None None] in
  let h1 := snd (lastTextChild 0%nat h) in
  lastTextChild 0%nat h = (Ok 1%nat, h1) /\
  lastTextChild 0%nat h1 = (Ok 1%nat, h1).
Proof.
  split; [reflexivity|].
  apply (lastTextChild_idempotent [mkNode General "b" VUndefined None None None None]).
  reflexivity.
Defined.

(** ** fromDomNode *)

Lemma pushAttributes_ok (g : ref) (al : list XmlAttribute) :
  forall (h : Heap) (n : XmlNode) (al0 : list XmlAttribute),
    h !! g = Some n -> attributes n = Some al0 ->
    pushAttributes g al h
    = (Ok tt, alter (set_attributes
                       (Some (al0 ++ map (fun a => mkAttr (name a) (value a)) al))) g h).
Proof.
  induction al as [|a al IH]; intros h n al0 Hn Ha; simpl.
  - rewrite app_nil_r. unfold ret. f_equal. symmetry.
    apply (alter_id_at _ _ _ _ Hn). destruct n. simpl in *. rewrite Ha. reflexivity.
  - step_with ltac:(apply get_node_ok; exact Hn).
    rewrite Ha.
    assert (Hg : (g < length h)%nat) by (apply lookup_lt_is_Some; eauto).
    step_with ltac:(apply update_ok; exact Hg).
    erewrite IH with (al0 := al0 ++ [mkAttr (name a) (value a)]).
    2:{ rewrite list_lookup_alter, decide_True, Hn by reflexivity. reflexivity. }
    2:{ reflexivity. }
    f_equal. rewrite <- app_assoc. simpl.
    apply list_eq. intros j. rewrite !list_lookup_alter.
    destruct (decide (g = j)) as [<-|]; [|reflexivity].
    rewrite decide_True by reflexivity. rewrite Hn. reflexivity.
Qed.

(** The node that [fromDomNode] creates before it turns to the children. *)
Lemma fromDomNode_eq (ty : Z) (nm : string) (text : JsValue)
    (attrs : option (list XmlAttribute)) (children : option (list DomNode)) (hh : Heap) :
  let d := DomNodeOf ty nm text attrs children in
  exists n0,
    scalars n0 = imported d /\
    parentNode n0 = None /\ childNodes n0 = None /\ nextSibling n0 = None /\
    fromDomNode d hh
    = (match children with
       | Some cs =>
           update (length hh) (set_childNodes (Some [])) ;;;
           importChildren fromDomNode (length hh) None cs
       | None => ret tt
       end ;;; ret (length hh)) (hh ++ [n0]).
Proof.
  intros d.
  assert (Hlen1 : forall m : XmlNode, (length hh < length (hh ++ [m]))%nat).
  { intros m. rewrite length_app. simpl. lia. }
  unfold d. cbn [fromDomNode imported].
  destruct (ty =? TEXT_NODE) eqn:Et.
  - eexists. split; [|split; [|split; [|split]]];
      [| | | |erewrite bind_ok by reflexivity; reflexivity]; reflexivity.
  - destruct (ty =? ELEMENT_NODE) eqn:Ee; [destruct attrs as [al|]|].
    + eexists. split; [|split; [|split; [|split]]].
      5:{ erewrite bind_ok; [reflexivity|].
          erewrite bind_ok by reflexivity.
          erewrite bind_ok; [reflexivity|].
          erewrite bind_ok by (apply update_ok; apply Hlen1).
          rewrite alter_last.
          erewrite pushAttributes_ok by (first [apply lookup_fresh|reflexivity]).
          rewrite alter_last. reflexivity. }
      all: reflexivity.
    + eexists. split; [|split; [|split; [|split]]].
      5:{ erewrite bind_ok; [reflexivity|].
          erewrite bind_ok by reflexivity.
          erewrite bind_ok by reflexivity. reflexivity. }
      all: reflexivity.
    + eexists. split; [|split; [|split; [|split]]].
      5:{ erewrite bind_ok; [reflexivity|].
          erewrite bind_ok by reflexivity.
          erewrite bind_ok by reflexivity. reflexivity. }
      all: reflexivity.
Qed.

Lemma mirrors_kept (k : nat) (h1 h2 : Heap) (lo hi : nat) :
  kept lo hi h1 h2 ->
  forall (j : nat) (d : DomNode) (c : ref),
    linked j h1 lo hi c -> mirrors k h1 d c -> mirrors k h2 d c.
Proof.
  intros Hk. induction k as [|k IH]; intros j d c Hl Hm; simpl in *; [exact Hm|].
  destruct j as [|j]; [destruct Hl|].
  destruct (linked_range _ _ _ _ _ Hl) as [Hr Hhi].
  simpl in Hl. destruct Hl as (_ & _ & _ & Hch).
  destruct (lookup_lt_is_Some_2 h1 c ltac:(lia)) as [n1 Hn1].
  destruct Hk as [Hlen Hk']. destruct (Hk' c n1 Hr Hn1) as (n2 & Hn2 & Hs & Hc & _).
  destruct Hm as [Hsc Hcs]. split.
  - unfold scalarsOf in *. rewrite Hn2. rewrite Hn1 in Hsc.
    change (Some (scalars n1) = Some (imported d)) in Hsc.
    change (Some (scalars n2) = Some (imported d)). congruence.
  - assert (Hceq : childrenOf h2 c = childrenOf h1 c).
    { unfold childrenOf. rewrite Hn1, Hn2. exact Hc. }
    rewrite Hceq.
    destruct (domChildNodes d) as [ds|]; [|exact Hcs].
    destruct Hcs as (cs & Hcs & Hfa). exists cs. split; [exact Hcs|].
    assert (Hkids : kids h1 c = cs) by (apply kids_childrenOf; exact Hcs).
    rewrite Hkids in Hch.
    clear Hcs Hkids. induction Hfa as [|d' c' ds' cs' Hm' Hfa' IHfa]; constructor.
    + destruct (Hch c' ltac:(apply list_elem_of_here)) as (_ & _ & Hl').
      eapply (IH j). exact Hl'. exact Hm'.
    + apply IHfa. intros x Hx. apply Hch. apply list_elem_of_further. exact Hx.
Qed.

Lemma mirrors_weaken (k k' : nat) (h : Heap) (d : DomNode) (r : ref) :
  (k <= k')%nat -> mirrors k h d r -> mirrors k' h d r.
Proof.
  revert k' d r. induction k as [|k IH]; intros k' d r Hle Hm; simpl in Hm; [destruct Hm|].
  destruct k' as [|k']; [lia|]. simpl.
  destruct Hm as [Hs Hc]. split; [exact Hs|].
  destruct (domChildNodes d) as [ds|]; [|exact Hc].
  destruct Hc as (cs & Hcs & Hfa). exists cs. split; [exact Hcs|].
  eapply Forall2_impl; [exact Hfa|]. intros x y Hxy. apply IH; [lia|exact Hxy].
Qed.

Lemma linked_deepen (d d' : nat) (h : Heap) (lo hi : nat) (c : ref) :
  (d <= d')%nat -> linked d h lo hi c -> linked d' h lo hi c.
Proof.
  revert d' c. induction d as [|d IH]; intros d' c Hle Hl; simpl in Hl; [destruct Hl|].
  destruct d' as [|d']; [lia|]. simpl.
  destruct Hl as (Hc & Hhi & Hsib & Hch).
  split; [exact Hc|]. split; [exact Hhi|]. split; [exact Hsib|].
  intros x Hx. destruct (Hch x Hx) as (Hlt & Hp & Hl).
  split; [exact Hlt|]. split; [exact Hp|]. apply IH; [lia|exact Hl].
Qed.

Section ImportStep.
Context (h : Heap) (k : nat) (c : ref) (hc : Heap) (dcs : list ref) (done : list DomNode).
Context (ext : Heap) (x : DomNode).
Context (Hip : import_progress h k c hc dcs done).

Local Abbreviation ia := (length hc).
Local Abbreviation iA := (hc ++ ext).
Local Abbreviation iD := (step_heap c hc ext dcs).

Context (Hlinked : linked k iA ia (length iA) ia).
Context (Hnext : nextOf iA ia = None).
Context (Hmir : mirrors k iA x ia).

Lemma import_bound (i : nat) (cc : ref) :
  dcs !! i = Some cc -> (c < cc < length hc)%nat.
Proof.
  intros Hi. destruct (ip_links _ _ _ _ _ _ Hip i cc Hi) as (Hlt & _ & _ & Hl).
  apply linked_range in Hl as [Hr Hhi].
  destruct (dcs !! S i) as [y|] eqn:Ey; simpl in *; lia.
Qed.

Lemma import_last (i : nat) (cc : ref) :
  dcs !! i = Some cc -> last dcs = Some cc -> S i = length dcs.
Proof.
  intros Hi Hl. rewrite last_lookup in Hl.
  pose proof (lookup_lt_Some _ _ _ Hi) as Hlt.
  destruct (decide (i = Nat.pred (length dcs))) as [->|Hne]; [lia|].
  pose proof (ip_incr _ _ _ _ _ _ Hip i (Nat.pred (length dcs)) cc cc ltac:(lia) Hi Hl).
  lia.
Qed.

Lemma import_length : length iD = length iA.
Proof. unfold step_heap. rewrite length_link_prev, !length_alter. reflexivity. Qed.

Lemma import_a : (c < ia < length iA)%nat.
Proof.
  pose proof (ip_fresh _ _ _ _ _ _ Hip). apply linked_range in Hlinked.
  lia.
Qed.

Lemma import_lookup (r : ref) :
  iD !! r
  = if decide (last dcs = Some r) then set_nextSibling (Some ia) <$> hc !! r
    else if decide (r = ia) then set_parentNode (Some c) <$> iA !! ia
    else if decide (r = c) then set_childNodes (Some (dcs ++ [ia])) <$> hc !! c
    else iA !! r.
Proof.
  pose proof import_a as Ha. pose proof (ip_fresh _ _ _ _ _ _ Hip) as Hc.
  unfold step_heap. rewrite lookup_link_prev.
  destruct (decide (last dcs = Some r)) as [Hl|Hl].
  - assert (Hr : (c < r < length hc)%nat).
    { rewrite last_lookup in Hl. eapply import_bound. exact Hl. }
    rewrite !list_lookup_alter_ne by lia.
    rewrite lookup_app_l by lia. reflexivity.
  - rewrite list_lookup_alter.
    destruct (decide (ia = r)) as [<-|Hne].
    + rewrite decide_True by reflexivity.
      rewrite list_lookup_alter_ne by lia. reflexivity.
    + rewrite decide_False by congruence.
      rewrite list_lookup_alter.
      destruct (decide (c = r)) as [<-|Hne'].
      * rewrite decide_True by reflexivity.
        rewrite lookup_app_l by lia. reflexivity.
      * rewrite decide_False by congruence. reflexivity.
Qed.

Lemma import_kept_old (i : nat) (cc : ref) :
  dcs !! i = Some cc ->
  kept cc (default (length hc) (dcs !! S i)) hc iD.
Proof.
  intros Hi. pose proof import_a as Ha.
  destruct (ip_links _ _ _ _ _ _ Hip i cc Hi) as (Hlt & _ & _ & Hl).
  apply linked_range in Hl as [Hr Hhi].
  split.
  { rewrite import_length. rewrite length_app. lia. }
  intros r n1 Hrange Hn1. rewrite import_lookup.
  destruct (decide (last dcs = Some r)) as [Hlast|Hlast].
  - rewrite Hn1. eexists. split; [reflexivity|]. repeat split.
    intros Hgt. exfalso.
    rewrite last_lookup in Hlast.
    destruct (dcs !! S i) as [y|] eqn:Ey; simpl in *.
    + pose proof (lookup_lt_Some _ _ _ Ey) as Hlen.
      destruct (decide (S i = Nat.pred (length dcs))) as [E|E].
      * rewrite E in Ey. rewrite Hlast in Ey. injection Ey as <-. lia.
      * pose proof (ip_incr _ _ _ _ _ _ Hip (S i) (Nat.pred (length dcs)) y r
                      ltac:(lia) Ey Hlast). lia.
    + apply lookup_ge_None in Ey. pose proof (lookup_lt_Some _ _ _ Hi).
      replace (Nat.pred (length dcs)) with i in Hlast by lia.
      rewrite Hi in Hlast. injection Hlast as <-. lia.
  - rewrite decide_False by lia.
    rewrite decide_False by lia.
    rewrite lookup_app_l by lia. rewrite Hn1.
    exists n1. repeat split.
Qed.

Lemma import_kept_new : kept ia (length iA) iA iD.
Proof.
  pose proof import_a as Ha.
  split; [rewrite import_length; lia|].
  intros r n1 Hrange Hn1. rewrite import_lookup.
  destruct (decide (last dcs = Some r)) as [Hlast|Hlast].
  { exfalso. rewrite last_lookup in Hlast.
    pose proof (import_bound _ _ Hlast). lia. }
  destruct (decide (r = ia)) as [->|Hne].
  - rewrite Hn1. eexists. split; [reflexivity|]. repeat split. lia.
  - rewrite decide_False by lia. rewrite Hn1. exists n1. repeat split.
Qed.

Lemma import_progress_step : import_progress h k c iD (dcs ++ [ia]) (done ++ [x]).
Proof.
  pose proof import_a as Ha. pose proof (ip_fresh _ _ _ _ _ _ Hip) as Hc.
  pose proof (ip_prefix _ _ _ _ _ _ Hip) as Hpre.
  assert (HlenD : length iD = length iA) by apply import_length.
  constructor.
  - unfold step_heap, link_prev.
    assert (Hpre' : h `prefix_of` alter (set_parentNode (Some c)) ia
                                   (alter (set_childNodes (Some (dcs ++ [ia]))) c iA)).
    { apply prefix_alter; [|lia]. apply prefix_alter; [|lia].
      apply prefix_app_r. exact Hpre. }
    destruct (last dcs) as [p|] eqn:Hl; [|exact Hpre'].
    apply prefix_alter; [exact Hpre'|].
    rewrite last_lookup in Hl. pose proof (import_bound _ _ Hl). lia.
  - lia.
  - unfold childrenOf. rewrite import_lookup.
    rewrite decide_False.
    2:{ intros Hl. rewrite last_lookup in Hl. pose proof (import_bound _ _ Hl). lia. }
    rewrite decide_False by lia. rewrite decide_True by reflexivity.
    destruct (lookup_lt_is_Some_2 hc c ltac:(lia)) as [n ->]. reflexivity.
  - apply Forall2_app.
    + pose proof (ip_mirrors _ _ _ _ _ _ Hip) as Hfa.
      apply Forall2_same_length_lookup in Hfa as [Hlen Hfa].
      apply Forall2_same_length_lookup. split; [exact Hlen|].
      intros i dd cc Hdd Hi.
      destruct (ip_links _ _ _ _ _ _ Hip i cc Hi) as (_ & _ & _ & Hl).
      eapply mirrors_kept; [apply import_kept_old; exact Hi|exact Hl|].
      apply (Hfa i dd cc Hdd Hi).
    + constructor; [|constructor].
      eapply mirrors_kept; [apply import_kept_new|exact Hlinked|exact Hmir].
  - intros i j y z Hij Hy Hz.
    apply lookup_app_Some in Hy as [Hy|[Hge Hy]].
    + apply lookup_app_Some in Hz as [Hz|[Hge Hz]].
      * eapply (ip_incr _ _ _ _ _ _ Hip); eauto.
      * apply list_lookup_singleton_Some in Hz as [_ <-].
        pose proof (import_bound _ _ Hy). lia.
    + apply list_lookup_singleton_Some in Hy as [Hi _].
      apply lookup_lt_Some in Hz. rewrite length_app in Hz. simpl in Hz. lia.
  - intros i cc Hi.
    apply lookup_app_Some in Hi as [Hi|[Hge Hi]].
    + pose proof (import_bound _ _ Hi) as Hb.
      pose proof (lookup_lt_Some _ _ _ Hi) as Hilen.
      destruct (ip_links _ _ _ _ _ _ Hip i cc Hi) as (Hlt & Hp & Hn & Hl).
      assert (Hnode : exists n, hc !! cc = Some n) by (apply lookup_lt_is_Some; lia).
      destruct Hnode as [n Hnode].
      assert (Hhi : default (length iD) ((dcs ++ [ia]) !! S i)
                    = default (length hc) (dcs !! S i)).
      { destruct (decide (S i < length dcs)%nat) as [Hs|Hs].
        - rewrite lookup_app_l by exact Hs. destruct (lookup_lt_is_Some_2 dcs (S i) Hs) as [y ->].
          reflexivity.
        - rewrite lookup_app_r by lia.
          replace (S i - length dcs)%nat with 0%nat by lia. simpl.
          rewrite (lookup_ge_None_2 dcs (S i)) by lia. reflexivity. }
      split; [exact Hlt|]. split; [|split].
      * unfold parentOf in *. rewrite import_lookup, Hnode in *.
        destruct (decide (last dcs = Some cc)); [exact Hp|].
        rewrite decide_False by lia. rewrite decide_False by lia.
        rewrite lookup_app_l by lia. rewrite Hnode. exact Hp.
      * unfold nextOf in *. rewrite import_lookup, Hnode in *.
        destruct (decide (last dcs = Some cc)) as [Hlast|Hlast].
        -- pose proof (import_last _ _ Hi Hlast) as Hs.
           rewrite lookup_app_r by lia. rewrite Hs, Nat.sub_diag. reflexivity.
        -- rewrite decide_False by lia. rewrite decide_False by lia.
           rewrite lookup_app_l by lia. rewrite Hnode.
           simpl in *. rewrite Hn.
           destruct (decide (S i < length dcs)%nat) as [Hs|Hs];
             [rewrite lookup_app_l by exact Hs; reflexivity|].
           exfalso. apply Hlast. rewrite last_lookup.
           replace (Nat.pred (length dcs)) with i by lia. exact Hi.
      * rewrite Hhi. eapply linked_kept; [apply import_kept_old; exact Hi|exact Hl].
    + apply list_lookup_singleton_Some in Hi as [Hi <-].
      assert (i = length dcs) as -> by lia.
      split; [lia|].
      assert (Hnode : exists n, iA !! ia = Some n) by (apply lookup_lt_is_Some; lia).
      destruct Hnode as [n Hnode].
      assert (HD : iD !! ia = Some (set_parentNode (Some c) n)).
      { rewrite import_lookup. rewrite decide_False.
        - rewrite decide_True by reflexivity. rewrite Hnode. reflexivity.
        - intros Hl. rewrite last_lookup in Hl. pose proof (import_bound _ _ Hl).
          lia. }
      split; [unfold parentOf; rewrite HD; reflexivity|]. split.
      * unfold nextOf in *. rewrite HD. rewrite Hnode in Hnext. simpl in *.
        rewrite Hnext. symmetry. apply lookup_ge_None.
        rewrite length_app. simpl. lia.
      * rewrite (lookup_ge_None_2 (dcs ++ [ia])) by (rewrite length_app; simpl; lia).
        simpl. rewrite HlenD.
        eapply linked_kept; [apply import_kept_new|exact Hlinked].
Qed.
End ImportStep.

Lemma domHeight_children (ty : Z) (nm : string) (text : JsValue)
    (attrs : option (list XmlAttribute)) (ds : list DomNode) (k : nat) :
  (domHeight (DomNodeOf ty nm text attrs (Some ds)) <= S k)%nat ->
  forall x, x ∈ ds -> (domHeight x <= k)%nat.
Proof.
  cbn [domHeight]. intros H.
  assert (H' : (foldr (fun x acc => Nat.max (domHeight x) acc) 0%nat ds <= k)%nat) by lia.
  clear H. induction ds as [|y ds IH]; intros x Hx.
  - apply elem_of_nil in Hx. destruct Hx.
  - cbn [foldr] in H'. apply elem_of_cons in Hx as [->|Hx]; [lia|].
    apply IH; [lia|exact Hx].
Qed.

Lemma importChildren_ok (h : Heap) (k : nat) (c : ref) :
  import_ok k ->
  forall (todo : list DomNode) (hc : Heap) (dcs : list ref) (done : list DomNode),
    import_progress h k c hc dcs done ->
    (forall x, x ∈ todo -> (domHeight x <= k)%nat) ->
    exists hf dcs',
      importChildren fromDomNode c (last dcs) todo hc = (Ok tt, hf) /\
      import_progress h k c hf dcs' (done ++ todo) /\
      (forall n, hc !! c = Some n -> hf !! c = Some (set_childNodes (Some dcs') n)).
Proof.
  intros Hrec todo. induction todo as [|x todo IH]; intros hc dcs done Hip Htodo.
  - exists hc, dcs. rewrite app_nil_r. split; [reflexivity|]. split; [exact Hip|].
    intros n Hn. rewrite set_childNodes_same; [exact Hn|].
    pose proof (ip_children _ _ _ _ _ _ Hip) as Hc. unfold childrenOf in Hc.
    rewrite Hn in Hc. exact Hc.
  - pose proof (ip_fresh _ _ _ _ _ _ Hip) as Hc.
    destruct (Hrec hc x) as (ext & E & Hm & Hl & Hp & Hn).
    { apply Htodo. apply list_elem_of_here. }
    pose proof (import_progress_step h k c hc dcs done ext x Hip Hl Hn Hm) as Hip'.
    pose proof (import_a h k c hc dcs done ext Hip Hl) as Ha.
    destruct (IH _ _ _ Hip') as (hf & dcs' & E' & Hipf & Hnode).
    { intros y Hy. apply Htodo. apply list_elem_of_further. exact Hy. }
    exists hf, dcs'. split; [|split].
    + cbn [importChildren].
      erewrite bind_ok by exact E.
      erewrite bind_ok.
      2:{ apply push_child_ok. rewrite <- (ip_children _ _ _ _ _ _ Hip).
          unfold childrenOf. rewrite lookup_app_l by lia. reflexivity. }
      erewrite bind_ok by (apply update_ok; len).
      assert (Hprev : forall hC : Heap, length hC = length (hc ++ ext) ->
                (match last dcs with
                 | Some prev => update prev (set_nextSibling (Some (length hc)))
                 | None => ret tt
                 end) hC = (Ok tt, link_prev (last dcs) (length hc) hC)).
      { intros hC HlenC. unfold link_prev.
        destruct (last dcs) as [p|] eqn:Hlast; [|reflexivity].
        apply update_ok. rewrite last_lookup in Hlast.
        pose proof (import_bound h k c hc dcs done Hip _ _ Hlast).
        rewrite HlenC, length_app. lia. }
      erewrite bind_ok by (apply Hprev; rewrite !length_alter; reflexivity).
      rewrite last_snoc in E'. exact E'.
    + rewrite <- app_assoc in Hipf. exact Hipf.
    + intros n Hnc.
      rewrite (Hnode (set_childNodes (Some (dcs ++ [length hc])) n)); [reflexivity|].
      rewrite (import_lookup h k c hc dcs done ext Hip Hl).
      rewrite decide_False.
      2:{ intros Hlast. rewrite last_lookup in Hlast.
          pose proof (import_bound h k c hc dcs done Hip _ _ Hlast). lia. }
      rewrite decide_False by lia. rewrite decide_True by reflexivity.
      rewrite Hnc. reflexivity.
Qed.

Lemma fromDomNode_ok (k : nat) : import_ok k.
Proof.
  induction k as [|k IH]; intros hh d Hd.
  { destruct d. cbn [domHeight] in Hd. lia. }
  destruct d as [ty nm text attrs children].
  destruct (fromDomNode_eq ty nm text attrs children hh)
    as (n0 & Hs0 & Hp0 & Hc0 & Hn0 & Hstart).
  rewrite Hstart. clear Hstart.
  set (d := DomNodeOf ty nm text attrs children) in *.
  assert (Hlen1 : forall m : XmlNode, (length hh < length (hh ++ [m]))%nat).
  { intros m. rewrite length_app. simpl. lia. }
  destruct children as [ds|].
  - set (cn0 := set_childNodes (Some []) n0).
    assert (Hl0 : (hh ++ [cn0]) !! length hh = Some cn0) by apply lookup_fresh.
    assert (Hip : import_progress hh k (length hh) (hh ++ [cn0]) [] []).
    { constructor.
      - apply prefix_app_r. reflexivity.
      - pose proof (Hlen1 cn0). lia.
      - unfold childrenOf. rewrite Hl0. reflexivity.
      - constructor.
      - intros i j y z _ Hy. discriminate Hy.
      - intros i cc Hi. discriminate Hi. }
    destruct (importChildren_ok hh k (length hh) IH ds _ _ _ Hip)
      as (hf & dcs & E & Hipf & Hnode).
    { apply (domHeight_children ty nm text attrs ds k Hd). }
    specialize (Hnode cn0 Hl0). simpl in E.
    destruct (ip_prefix _ _ _ _ _ _ Hipf) as [ext Hext].
    pose proof (ip_fresh _ _ _ _ _ _ Hipf) as Hfresh.
    assert (Hk : kids hf (length hh) = dcs).
    { apply kids_childrenOf. apply (ip_children _ _ _ _ _ _ Hipf). }
    exists ext. rewrite <- Hext. split; [|split; [|split; [|split]]].
    + erewrite bind_ok; [reflexivity|].
      erewrite bind_ok by (apply update_ok; apply Hlen1).
      rewrite alter_last. exact E.
    + cbn [mirrors]. split.
      * unfold scalarsOf. rewrite Hnode. rewrite <- Hs0. reflexivity.
      * change (domChildNodes d) with (Some ds).
        exists dcs. split; [apply (ip_children _ _ _ _ _ _ Hipf)|].
        apply (ip_mirrors _ _ _ _ _ _ Hipf).
    + simpl. split; [lia|]. split; [lia|]. split.
      * unfold sibling_inv. rewrite Hk. intros i cc Hi.
        destruct (ip_links _ _ _ _ _ _ Hipf i cc Hi) as (_ & _ & Hnext & Hl).
        split; [|exact Hnext].
        apply linked_range in Hl as [Hr Hhi]. lia.
      * rewrite Hk. intros cc Hin. apply list_elem_of_lookup in Hin as [i Hi].
        destruct (ip_links _ _ _ _ _ _ Hipf i cc Hi) as (Hlt & Hp & _ & Hl).
        split; [exact Hlt|]. split; [exact Hp|].
        pose proof (linked_range _ _ _ _ _ Hl) as [Hr Hhi].
        eapply linked_weaken; [| | |exact Hl]; lia.
    + unfold parentOf. rewrite Hnode. exact Hp0.
    + unfold nextOf. rewrite Hnode. exact Hn0.
  - exists [n0]. split; [reflexivity|].
    assert (Hc : (hh ++ [n0]) !! length hh = Some n0) by apply lookup_fresh.
    split; [|split; [|split]].
    + cbn [mirrors]. split.
      * unfold scalarsOf. rewrite Hc. rewrite <- Hs0. reflexivity.
      * change (domChildNodes d) with (@None (list DomNode)).
        unfold childrenOf. rewrite Hc. exact Hc0.
    + simpl. split; [pose proof (Hlen1 n0); lia|]. split; [lia|].
      assert (Hk : kids (hh ++ [n0]) (length hh) = []).
      { unfold kids, childrenOf. rewrite Hc. simpl. rewrite Hc0. reflexivity. }
      split.
      * unfold sibling_inv. rewrite Hk. intros i y Hi. discriminate Hi.
      * rewrite Hk. intros y Hy. apply elem_of_nil in Hy. destruct Hy.
    + unfold parentOf. rewrite Hc. exact Hp0.
    + unfold nextOf. rewrite Hc. exact Hn0.
Qed.

(** X20: [fromDomNode] returns on every host tree, and the conversion is
    deep.  The store is the old one followed by the new objects, so nothing
    that existed is written.  The tree at the returned node is the image of
    the host tree: a host text node gives a text node with the host's text
    under the reserved name, any other host node a general node under the
    host's name, with the attributes copied for elements only; a node has a
    child array exactly when the host node has a child collection, with the
    images of the children in order.  Inside the result the children of
    every node name it as their parent and are chained by [nextSibling]; the
    returned node has neither parent nor next sibling. *)
Theorem fromDomNode_spec :
  forall (d : DomNode) (h : Heap),
    exists ext,
      fromDomNode d h = (Ok (length h), h ++ ext) /\
      mirrors (domHeight d) (h ++ ext) d (length h) /\
      linked (domHeight d) (h ++ ext) (length h) (length (h ++ ext)) (length h) /\
      parentOf (h ++ ext) (length h) = None /\
      nextOf (h ++ ext) (length h) = None.
Proof.
  intros d h. apply (fromDomNode_ok (domHeight d)). lia.
Qed.

(** ** Which error removeChild throws *)

(** X21: the errors of [removeChild], in the order of its checks, each
    thrown before anything is written: a missing parent, a missing child or
    index, a parent without children ("Parent node has node children"); for
    a parent with children, an index at or above the child count throws a
    [RangeError] that carries the index and the count, a negative index
    passes the range check and ends in the host's [TypeError] on the absent
    child, and a node that is not among the children throws "Specified child
    node is not a child of the specified parent". *)
Theorem removeChild_errors :
  forall (h : Heap) (p : ref),
    (p < length h)%nat ->
    (forall sel, removeChild None sel h = (Throw (MissingArgumentError "parent"), h)) /\
    removeChild (Some p) None h = (Throw (MissingArgumentError "childOrIndex"), h) /\
    (forall sel, kids h p = [] ->
       removeChild (Some p) (Some sel) h
       = (Throw (Error "Parent node has node children"), h)) /\
    (forall i, kids h p <> [] -> Z.of_nat (length (kids h p)) <= i ->
       removeChild (Some p) (Some (ByIndex i)) h
       = (Throw (RangeError i (length (kids h p))), h)) /\
    (forall i, kids h p <> [] -> i < 0 ->
       removeChild (Some p) (Some (ByIndex i)) h = (Throw NativeTypeError, h)) /\
    (forall c, kids h p <> [] -> c ∉ kids h p ->
       removeChild (Some p) (Some (ByNode c)) h
       = (Throw (Error "Specified child node is not a child of the specified parent"), h)).
Proof.
  intros h p Hp.
  destruct (lookup_lt_is_Some_2 h p Hp) as [pn Hpn].
  assert (Hk : kids h p = default [] (childNodes pn)).
  { unfold kids, childrenOf. rewrite Hpn. reflexivity. }
  split; [reflexivity|]. split; [reflexivity|].
  split; [intros sel Hnil; apply removeChild_no_children; assumption|].
  split; [|split].
  - intros i Hne Hi. rewrite Hk in *.
    unfold removeChild. step_with ltac:(apply get_node_ok; exact Hpn).
    destruct (childNodes pn) as [[|c0 cs0]|]; try (exfalso; apply Hne; reflexivity).
    step_with ltac:(reflexivity).
    destruct (Z.geb_spec i (Z.of_nat (length (c0 :: cs0)))) as [_|Hlt]; [reflexivity|].
    simpl default in Hi. lia.
  - intros i Hne Hi. rewrite Hk in *.
    unfold removeChild. step_with ltac:(apply get_node_ok; exact Hpn).
    destruct (childNodes pn) as [[|c0 cs0]|]; try (exfalso; apply Hne; reflexivity).
    step_with ltac:(reflexivity).
    destruct (Z.geb_spec i (Z.of_nat (length (c0 :: cs0)))) as [Hge|_]; [lia|].
    destruct (Z.gtb_spec i 0) as [Hgt|_]; [lia|].
    rewrite (nthZ_neg (c0 :: cs0) i) by lia.
    erewrite bind_ok by reflexivity. reflexivity.
  - intros c Hne Hc. rewrite Hk in *.
    unfold removeChild. step_with ltac:(apply get_node_ok; exact Hpn).
    destruct (childNodes pn) as [[|c0 cs0]|]; try (exfalso; apply Hne; reflexivity).
    erewrite bind_throw; [reflexivity|].
    cbv zeta. simpl default in Hc. rewrite (indexOf_not_elem _ _ Hc). reflexivity.
Qed.

(** [<p>a<b>x</b>c</p>]: index 3 is out of range, index -1 fails on the
    absent child, [x] is not a child of [p], and the text [a] has no
    children. *)
Lemma removeChild_errors_witness :
  removeChild (Some 0%nat) (Some (ByIndex 3)) sample_heap
    = (Throw (RangeError 3 3), sample_heap) /\
  removeChild (Some 0%nat) (Some (ByIndex (-1))) sample_heap
    = (Throw NativeTypeError, sample_heap) /\
  removeChild (Some 0%nat) (Some (ByNode 3%nat)) sample_heap
    = (Throw (Error "Specified child node is not a child of the specified parent"),
       sample_heap) /\
  removeChild (Some 1%nat) (Some (ByIndex 0)) sample_heap
    = (Throw (Error "Parent node has node children"), sample_heap).
Proof.
  assert (H0 : (0 < length sample_heap)%nat) by (vm_compute; lia).
  assert (H1 : (1 < length sample_heap)%nat) by (vm_compute; lia).
  destruct (removeChild_errors sample_heap 0%nat H0) as (_ & _ & _ & R & T & N).
  destruct (removeChild_errors sample_heap 1%nat H1) as (_ & _ & E & _).
  split; [|split; [|split]].
  - apply (R 3); [discriminate|]. vm_compute. discriminate.
  - apply (T (-1)); [discriminate|lia].
  - apply N; [discriminate|].
    change (kids sample_heap 0%nat) with [1%nat; 2%nat; 4%nat].
    intros Hin. repeat (apply elem_of_cons in Hin as [Hin|Hin]; [discriminate|]).
    apply elem_of_nil in Hin. exact Hin.
  - apply E. reflexivity.
Defined.

(** ** Serialization of valid trees *)

(** X22: on a valid text node [serialize] returns exactly what
    [encodeValue] returns on its text, a string or a throw: the fallback
    [|| ''] after [encodeValue] never changes the result. *)
Theorem serialize_text_is_encodeValue :
  forall (fuel : nat) (h : Heap) (r : ref) (n : XmlNode),
    h !! r = Some n ->
    isTextNode n = Ok true ->
    serialize (S fuel) h r = encodeValue (textContent n).
Proof.
  intros fuel h r n Hn Ht. rewrite serialize_S, Hn, Ht. simpl.
  destruct (encodeValue (textContent n)) as [s| | |]; simpl; try reflexivity.
  destruct s; reflexivity.
Qed.

(** The text [a] of the sample, and a text node holding a number. *)
Lemma serialize_text_is_encodeValue_witness :
  serialize 1 sample_heap 1%nat = encodeValue (VString "a") /\
  serialize 1 [mkNode Text TEXT_NODE_NAME (VNumber 7) None None None None] 0%nat
    = Throw (TypeError "Expected a string, got 'Number'.").
Proof.
  split.
  - refine (serialize_text_is_encodeValue 0 sample_heap 1%nat
              (default (mkNode Text TEXT_NODE_NAME VUndefined None None None None)
                       (sample_heap !! 1%nat)) eq_refl eq_refl).
  - refine (serialize_text_is_encodeValue 0
              [mkNode Text TEXT_NODE_NAME (VNumber 7) None None None None] 0%nat
              (mkNode Text TEXT_NODE_NAME (VNumber 7) None None None None)
              eq_refl eq_refl).
Defined.




(** ** removeSiblings when [to] is never reached *)

Lemma removeSiblings_loop_runs_out (p to : ref) (pre : list ref) :
  forall (mid : list ref) (h : Heap) (removed : list ref) (fuel : nat),
    kids h p = pre ++ mid ->
    (to ∉ mid) ->
    sibling_inv h p ->
    (forall y, y ∈ kids h p -> parentOf h y = Some p) ->
    (length mid < fuel)%nat ->
    exists h',
      removeSiblings_loop fuel (head mid) (Some to) removed h
        = (Throw NativeTypeError, h') /\
      kids h' p = pre /\
      (forall x, x ∈ mid -> parentOf h' x = None /\ nextOf h' x = None) /\
      (forall r, r ∉ mid -> parentOf h' r = parentOf h r) /\
      (forall r, r ∉ mid -> last pre <> Some r -> nextOf h' r = nextOf h r).
Proof.
  induction mid as [|x mid IH]; intros h removed fuel Hk Hto Hinv Hpar Hfuel;
    (destruct fuel as [|fuel]; [simpl in Hfuel; lia|]); simpl in Hfuel.
  - exists h. rewrite removeSiblings_loop_eq. rewrite app_nil_r in Hk.
    split; [reflexivity|]. split; [exact Hk|]. split; [|split; auto].
    intros x Hx. apply elem_of_nil in Hx. destruct Hx.
  - apply not_elem_of_cons in Hto as [Htox Hto].
    pose proof (sibling_inv_NoDup h p Hinv) as Hnd.
    set (cs := kids h p) in *.
    assert (Hix : cs !! length pre = Some x).
    { rewrite Hk, lookup_app_r by lia. rewrite Nat.sub_diag. reflexivity. }
    destruct (Hinv _ _ Hix) as [Hxlen Hxnext].
    destruct (nextOf_node h x Hxlen) as (n & Hn & Hnn).
    assert (Hcs : childrenOf h p = Some cs).
    { unfold cs, kids in *. destruct (childrenOf h p); [reflexivity|discriminate]. }
    destruct (removeChild_ok h p (ByNode x) cs (length pre) x Hcs)
      as (h1 & E1 & _ & L1 & S1 & C1 & P1 & N1).
    { simpl. apply indexOf_NoDup; assumption. }
    { exact Hix. }
    { exact Hxlen. }
    { intros b Hb. apply before_lookup in Hb as (j & _ & Hj). apply (Hinv _ _ Hj). }
    pose proof (sibling_inv_remove _ _ _ _ _ Hinv E1) as Hinv1.
    assert (Hk1 : kids h1 p = pre ++ mid).
    { unfold kids at 1. rewrite C1, decide_True by reflexivity. simpl.
      rewrite Hk, delete_take_drop, take_app_length.
      rewrite drop_app_ge by lia.
      replace (S (length pre) - length pre)%nat with 1%nat by lia. reflexivity. }
    assert (Hxnot : x ∉ pre ++ mid).
    { rewrite <- Hk1. unfold kids. rewrite C1, decide_True by reflexivity. simpl.
      apply (NoDup_delete_notin _ _ _ Hnd Hix). }
    assert (Hbefore : before cs (length pre) = last pre).
    { rewrite <- before_length. destruct (length pre) as [|j] eqn:El; [reflexivity|].
      simpl. rewrite Hk. apply lookup_app_l. lia. }
    destruct (IH h1 (removed ++ [x]) fuel Hk1 Hto Hinv1) as
      (h2 & E2 & Hk2 & Hdet2 & Pf2 & Nf2).
    { intros y Hy. rewrite Hk1 in Hy.
      assert (y <> x) by (intros ->; contradiction).
      rewrite P1, decide_False by assumption. apply Hpar.
      rewrite Hk. apply elem_of_app in Hy as [Hy|Hy]; [apply elem_of_app; auto|].
      apply elem_of_app. right. apply list_elem_of_further. exact Hy. }
    { lia. }
    assert (Hxmid : x ∉ mid).
    { intros Hin. apply Hxnot. apply elem_of_app. right. exact Hin. }
    assert (Hxlast : last pre <> Some x).
    { intros Hl. apply Hxnot. apply elem_of_app. left.
      rewrite last_lookup in Hl. apply list_elem_of_lookup. eauto. }
    exists h2. split; [|split; [exact Hk2|split; [|split]]].
    + rewrite removeSiblings_loop_eq. cbn [head].
      rewrite bool_decide_eq_false_2 by (intros [= Heq]; apply Htox; symmetry; exact Heq).
      erewrite bind_ok by (apply get_node_ok; exact Hn).
      erewrite bind_ok by (eapply remove_via_removeChild; [|exact E1];
                           apply Hpar, list_elem_of_lookup; eauto).
      rewrite Hnn, Hxnext.
      replace (cs !! S (length pre)) with (head mid); [exact E2|].
      rewrite Hk, lookup_app_r by lia.
      replace (S (length pre) - length pre)%nat with 1%nat by lia. simpl.
      destruct mid; reflexivity.
    + intros y Hy. apply elem_of_cons in Hy as [->|Hy]; [|apply Hdet2; exact Hy].
      rewrite Pf2, Nf2 by assumption.
      rewrite P1, N1, !decide_True by reflexivity. auto.
    + intros r Hr. apply not_elem_of_cons in Hr as [Hne Hr].
      rewrite Pf2 by assumption. rewrite P1, decide_False by assumption. reflexivity.
    + intros r Hr Hl. apply not_elem_of_cons in Hr as [Hne Hr].
      rewrite Nf2 by assumption. rewrite N1, decide_False by assumption.
      rewrite Hbefore. rewrite decide_False by assumption. reflexivity.
Qed.

(** X24: when [to] is a node that is not among the later siblings of
    [from] (and is not [from]), [removeSiblings(from, to)] detaches every
    later sibling of [from] and then fails with the host's [TypeError] on
    the absent next sibling: in the store at the throw the parent keeps the
    children up to [from] only, and the removed nodes are lost to the
    caller. *)
Theorem removeSiblings_to_not_found :
  forall (h : Heap) (p from to : ref) (i fuel : nat),
    sibling_inv h p ->
    (forall y, y ∈ kids h p -> parentOf h y = Some p) ->
    kids h p !! i = Some from ->
    to <> from ->
    (to ∉ drop (S i) (kids h p)) ->
    (length (kids h p) - i <= fuel)%nat ->
    exists h',
      removeSiblings fuel (Some from) (Some to) h = (Throw NativeTypeError, h') /\
      kids h' p = take (S i) (kids h p) /\
      (forall x, x ∈ drop (S i) (kids h p) -> parentOf h' x = None /\ nextOf h' x = None).
Proof.
  intros h p from to i fuel Hinv Hpar Hi Hne Hto Hfuel.
  pose proof (lookup_lt_Some _ _ _ Hi) as Hilt.
  set (cs := kids h p) in *.
  assert (Hk : cs = take (S i) cs ++ drop (S i) cs) by (symmetry; apply take_drop).
  destruct (removeSiblings_loop_runs_out p to (take (S i) cs) (drop (S i) cs) h [] fuel
              Hk Hto Hinv Hpar)
    as (h' & E & Hk' & Hdet & _).
  { rewrite length_drop. lia. }
  exists h'. split; [|split; [exact Hk'|exact Hdet]].
  unfold removeSiblings.
  rewrite bool_decide_eq_false_2 by (intros [= Heq]; apply Hne; symmetry; exact Heq).
  destruct (Hinv _ _ Hi) as [Hflen Hfnext].
  destruct (nextOf_node h from Hflen) as (n & Hn & Hnn).
  erewrite bind_ok by (apply get_node_ok; exact Hn).
  rewrite Hnn, Hfnext.
  replace (kids h p !! S i) with (head (drop (S i) cs)); [exact E|].
  rewrite head_lookup, lookup_drop, Nat.add_0_r. reflexivity.
Qed.

(** From [b] towards [a], which comes before it in [<p>a<b>x</b>c</p>]: [c]
    is detached and the call fails. *)
Lemma removeSiblings_to_not_found_witness :
  exists h',
    removeSiblings 5 (Some 2%nat) (Some 1%nat) sample_heap = (Throw NativeTypeError, h') /\
    kids h' 0%nat = [1%nat; 2%nat] /\
    parentOf h' 4%nat = None.
Proof.
  assert (Hinv : sibling_inv sample_heap 0%nat).
  { unfold sibling_inv. change (kids sample_heap 0%nat) with [1%nat; 2%nat; 4%nat].
    intros i x Hi.
    destruct i as [|[|[|i]]]; simpl in Hi; try discriminate;
      injection Hi as <-; (split; [vm_compute; lia|reflexivity]). }
  destruct sample_well_formed as (_ & _ & Hpar).
  destruct (removeSiblings_to_not_found sample_heap 0%nat 2%nat 1%nat 1 5 Hinv Hpar)
    as (h' & E & K & D).
  { reflexivity. }
  { discriminate. }
  { change (drop 2 (kids sample_heap 0%nat)) with [4%nat].
    intros Hin. apply elem_of_cons in Hin as [Hin|Hin]; [discriminate|].
    apply elem_of_nil in Hin. exact Hin. }
  { vm_compute. lia. }
  exists h'. split; [exact E|]. split; [exact K|].
  apply D. change (drop 2 (kids sample_heap 0%nat)) with [4%nat]. apply list_elem_of_here.
Defined.

(** ** The nodes the factories make *)

(** X25: [createTextNode] makes a node that [isTextNode] accepts, whatever
    the text; [createGeneralNode(name)] makes a node that [isTextNode]
    rejects, except under the reserved name ["#text"]: there it makes an
    invalid node, on which [isTextNode] throws, and with it [serialize] and
    [appendChild] with that node as parent. *)
Theorem created_nodes_kind :
  forall (h : Heap) (text : JsValue) (nm : string) (fuel : nat) (c : option ref),
    (exists h', createTextNode text h = (Ok (length h), h') /\ is_text h' (length h)) /\
    (exists h',
       createGeneralNode nm h = (Ok (length h), h') /\
       (nm <> TEXT_NODE_NAME -> is_general h' (length h)) /\
       (nm = TEXT_NODE_NAME ->
          serialize (S fuel) h' (length h)
            = Throw (Error "Invalid text node. Type: 'General', Name: '#text'.") /\
          appendChild (Some (length h)) c h'
            = (Throw (Error "Invalid text node. Type: 'General', Name: '#text'."), h'))).
Proof.
  intros h text nm fuel c. split.
  - eexists. split; [reflexivity|].
    eexists. split; [apply lookup_fresh|reflexivity].
  - eexists. split; [reflexivity|]. split.
    + intros Hne. eexists. split; [apply lookup_fresh|].
      unfold isTextNode. simpl.
      rewrite (bool_decide_eq_false_2 (nm = TEXT_NODE_NAME)) by exact Hne. reflexivity.
    + intros ->. split.
      * rewrite serialize_S, lookup_fresh. reflexivity.
      * unfold appendChild.
        erewrite bind_ok by (apply get_node_ok; apply lookup_fresh).
        rewrite bind_lift. reflexivity.
Qed.

(** A general node named [p] and one named [#text] in the empty store. *)
Lemma created_nodes_kind_witness :
  (exists h', createGeneralNode "p" [] = (Ok 0%nat, h') /\ is_general h' 0%nat) /\
  (exists h', createGeneralNode "#text" [] = (Ok 0%nat, h') /\
              serialize 1 h' 0%nat
              = Throw (Error "Invalid text node. Type: 'General', Name: '#text'.")).
Proof.
  split.
  - destruct (created_nodes_kind [] VUndefined "p" 0 None) as (_ & h' & E & G & _).
    exists h'. split; [exact E|]. apply G. discriminate.
  - destruct (created_nodes_kind [] VUndefined "#text" 0 None) as (_ & h' & E & _ & T).
    exists h'. split; [exact E|]. apply T. reflexivity.
Defined.
